(** * unpyc3: a shallow embedding of the Python 3.7 decompiler

    The development follows [unpyc3.py] top-down: the operand [Stack],
    the bytecode decoder [code_walker], the [Code]/[Address] instruction
    model with the [find_else] pass, the expression and statement nodes
    with their renderer, and the [SuiteDecompiler] execution loop.

    Python exceptions are results of type [res]; mutable objects are
    passed as explicit state.  Lists keep Python's order (the top of a
    stack is the last element). *)

From Stdlib Require Import ZArith Ascii String List Lia Bool Sorted.
From stdpp Require Import base option list gmap strings pretty.

Open Scope Z_scope.
Set Warnings "-register-all".

(** ** Exceptions and results *)

(** The exceptions the modelled code can raise.  [Exception] carries the
    message of a bare [raise Exception(msg)]. *)
Inductive exn : Type :=
| Exception (msg : string)
| IndexError
| KeyError
| AttributeError
| TypeError
| AssertionError.

(** The outcome of running a piece of the program: a value, a raised
    exception, an opcode whose handler lies outside the embedded part,
    or exhausted fuel (only for the loops that need fuel). *)
Inductive res (A : Type) : Type :=
| Ok (a : A)
| Raise (e : exn)
| NotEmbedded (opcode : Z)
| OutOfFuel.

Arguments Ok {A} a.
Arguments Raise {A} e.
Arguments NotEmbedded {A} opcode.
Arguments OutOfFuel {A}.

#[global] Instance res_ret : MRet res := fun A a => Ok a.
#[global] Instance res_bind : MBind res := fun A B k m =>
  match m with
  | Ok a => k a
  | Raise e => Raise e
  | NotEmbedded o => NotEmbedded o
  | OutOfFuel => OutOfFuel
  end.

(** ** Python list primitives *)

(** [l.pop()]: the last element and the list without it. *)
Fixpoint list_pop {A : Type} (l : list A) : option (list A * A) :=
  match l with
  | [] => None
  | x :: t =>
      match list_pop t with
      | None => Some ([], x)
      | Some (t', y) => Some (x :: t', y)
      end
  end.

(** [l[i]] with Python's negative indices. *)
Definition py_index {A : Type} (l : list A) (i : Z) : res A :=
  let n := Z.of_nat (length l) in
  let j := if i <? 0 then i + n else i in
  if (0 <=? j) && (j <? n)
  then match l !! Z.to_nat j with
       | Some x => Ok x
       | None => Raise IndexError
       end
  else Raise IndexError.

(** [l[start:]] as Python clamps the bound. *)
Definition py_slice_from {A : Type} (l : list A) (start : Z) : list A :=
  let n := Z.of_nat (length l) in
  let j := if start <? 0 then Z.max 0 (start + n) else Z.min start n in
  drop (Z.to_nat j) l.

(** ** The operand stack ([class Stack]) *)

Section StackModel.
(** The values held by a stack, with Python's [id()]. *)
Context {obj : Type} (id : obj -> Z).

Record Stack : Type := mkStack {
  _stack : list obj;
  _counts : gmap Z Z
}.

(** A method leaves the object in some state also when it raises. *)
Definition method (A : Type) : Type := Stack -> res A * Stack.

(** [Stack.__init__] *)
Definition Stack_init : Stack := mkStack [] ∅.

(** [__bool__], [__len__] *)
Definition Stack_bool (s : Stack) : bool :=
  match _stack s with [] => false | _ => true end.
Definition Stack_len (s : Stack) : Z := Z.of_nat (length (_stack s)).

(** [get_count]: [self._counts.get(id(obj), 0)] *)
Definition get_count (s : Stack) (o : obj) : Z :=
  default 0 (_counts s !! id o).

(** [__contains__]: [self.get_count(val) > 0] *)
Definition Stack_contains (s : Stack) (val : obj) : bool :=
  get_count s val >? 0.

(** [set_count]: store a non-zero count, delete the entry otherwise
    ([del] of a missing key raises [KeyError]). *)
Definition set_count (o : obj) (val : Z) : method unit := fun s =>
  if negb (val =? 0)
  then (Ok tt, mkStack (_stack s) (<[id o := val]> (_counts s)))
  else match _counts s !! id o with
       | Some _ => (Ok tt, mkStack (_stack s) (delete (id o) (_counts s)))
       | None => (Raise KeyError, s)
       end.

(** [pop1] *)
Definition pop1 : method obj := fun s =>
  match list_pop (_stack s) with
  | Some (rest, val) =>
      let s1 := mkStack rest (_counts s) in
      match set_count val (get_count s1 val - 1) s1 with
      | (Ok _, s2) => (Ok val, s2)
      | (Raise e, s2) => (Raise e, s2)
      | (NotEmbedded o, s2) => (NotEmbedded o, s2)
      | (OutOfFuel, s2) => (OutOfFuel, s2)
      end
  | None => (Raise (Exception "Empty stack popped!"), s)
  end.

(** [[self.pop1() for i in range(count)]], in popping order. *)
Fixpoint pop_range (n : nat) (vals : list obj) : method (list obj) := fun s =>
  match n with
  | O => (Ok vals, s)
  | S k =>
      match pop1 s with
      | (Ok val, s1) => pop_range k (vals ++ [val]) s1
      | (Raise e, s1) => (Raise e, s1)
      | (NotEmbedded o, s1) => (NotEmbedded o, s1)
      | (OutOfFuel, s1) => (OutOfFuel, s1)
      end
  end.

(** What [pop] and [peek] return: one value when [count is None], a
    list otherwise. *)
Inductive values : Type :=
| One (val : obj)
| Many (vals : list obj).

(** [pop] *)
Definition pop (count : option Z) : method values := fun s =>
  match count with
  | None =>
      match pop1 s with
      | (Ok val, s1) => (Ok (One val), s1)
      | (Raise e, s1) => (Raise e, s1)
      | (NotEmbedded o, s1) => (NotEmbedded o, s1)
      | (OutOfFuel, s1) => (OutOfFuel, s1)
      end
  | Some c =>
      match pop_range (Z.to_nat c) [] s with
      | (Ok vals, s1) => (Ok (Many (rev vals)), s1)
      | (Raise e, s1) => (Raise e, s1)
      | (NotEmbedded o, s1) => (NotEmbedded o, s1)
      | (OutOfFuel, s1) => (OutOfFuel, s1)
      end
  end.

(** [push] of any number of values *)
Fixpoint push (args : list obj) : method unit := fun s =>
  match args with
  | [] => (Ok tt, s)
  | val :: rest =>
      match set_count val (get_count s val + 1) s with
      | (Ok _, s1) => push rest (mkStack (_stack s1 ++ [val]) (_counts s1))
      | (r, s1) => (r, s1)
      end
  end.

(** [peek]: [self._stack[-1]] or [self._stack[-count:]] *)
Definition peek (count : option Z) : method values := fun s =>
  match count with
  | None =>
      match py_index (_stack s) (-1) with
      | Ok val => (Ok (One val), s)
      | Raise e => (Raise e, s)
      | NotEmbedded o => (NotEmbedded o, s)
      | OutOfFuel => (OutOfFuel, s)
      end
  | Some c => (Ok (Many (py_slice_from (_stack s) (- c))), s)
  end.

(** *** The counting invariant *)

(** How many entries of [l] are the object with identity [k]. *)
Definition occurrences (k : Z) (l : list obj) : Z :=
  Z.of_nat (length (filter (fun o => id o = k) l)).

Definition stack_inv (s : Stack) : Prop :=
  forall k : Z, default 0 (_counts s !! k) = occurrences k (_stack s).

(** The calls a client can make, and the state a sequence of them
    leaves behind (a call that raises leaves the state it reached). *)
Inductive stack_call : Type :=
| CallPush (args : list obj)
| CallPop1
| CallPop (count : option Z)
| CallPeek (count : option Z).

Definition call_state (c : stack_call) (s : Stack) : Stack :=
  match c with
  | CallPush args => snd (push args s)
  | CallPop1 => snd (pop1 s)
  | CallPop count => snd (pop count s)
  | CallPeek count => snd (peek count s)
  end.

Definition calls_state (cs : list stack_call) (s : Stack) : Stack :=
  fold_left (fun s c => call_state c s) cs s.

End StackModel.

Arguments Stack obj : clear implicits.
Arguments values obj : clear implicits.
Arguments stack_call obj : clear implicits.

(** ** Opcodes *)

(** The opcode numbers of CPython 3.7's [opcode] module, which the
    source imports with [from opcode import opname, opmap,
    HAVE_ARGUMENT, cmp_op] and puts in its global namespace. *)
Definition POP_TOP : Z := 1.
Definition ROT_TWO : Z := 2.
Definition ROT_THREE : Z := 3.
Definition DUP_TOP : Z := 4.
Definition NOP : Z := 9.
Definition UNARY_POSITIVE : Z := 10.
Definition UNARY_NEGATIVE : Z := 11.
Definition UNARY_NOT : Z := 12.
Definition UNARY_INVERT : Z := 15.
Definition BINARY_ADD : Z := 23.
Definition BINARY_SUBTRACT : Z := 24.
Definition PRINT_EXPR : Z := 70.
Definition RETURN_VALUE : Z := 83.
Definition POP_BLOCK : Z := 87.
Definition END_FINALLY : Z := 88.
Definition HAVE_ARGUMENT : Z := 90.
Definition STORE_NAME : Z := 90.
Definition FOR_ITER : Z := 93.
Definition LOAD_CONST : Z := 100.
Definition LOAD_NAME : Z := 101.
Definition COMPARE_OP : Z := 107.
Definition JUMP_FORWARD : Z := 110.
Definition JUMP_IF_FALSE_OR_POP : Z := 111.
Definition JUMP_IF_TRUE_OR_POP : Z := 112.
Definition JUMP_ABSOLUTE : Z := 113.
Definition POP_JUMP_IF_FALSE : Z := 114.
Definition POP_JUMP_IF_TRUE : Z := 115.
Definition CONTINUE_LOOP : Z := 119.
Definition SETUP_LOOP : Z := 120.
Definition SETUP_EXCEPT : Z := 121.
Definition SETUP_FINALLY : Z := 122.
Definition LOAD_FAST : Z := 124.
Definition RAISE_VARARGS : Z := 130.
Definition SETUP_WITH : Z := 143.
Definition EXTENDED_ARG : Z := 144.
Definition SETUP_ASYNC_WITH : Z := 154.

(** [dis.hasjrel] and [dis.hasjabs] of CPython 3.7. *)
Definition hasjrel : list Z :=
  [FOR_ITER; JUMP_FORWARD; SETUP_LOOP; SETUP_EXCEPT; SETUP_FINALLY;
   SETUP_WITH; SETUP_ASYNC_WITH].
Definition hasjabs : list Z :=
  [JUMP_IF_FALSE_OR_POP; JUMP_IF_TRUE_OR_POP; JUMP_ABSOLUTE;
   POP_JUMP_IF_FALSE; POP_JUMP_IF_TRUE; CONTINUE_LOOP].

(** [pop_jump_if_opcodes], [else_jump_opcodes] *)
Definition pop_jump_if_opcodes : list Z := [POP_JUMP_IF_TRUE; POP_JUMP_IF_FALSE].
Definition else_jump_opcodes : list Z :=
  [JUMP_FORWARD; RETURN_VALUE; JUMP_ABSOLUTE; SETUP_LOOP; RAISE_VARARGS; POP_TOP].

(** [x in t] for a tuple, list or set of opcodes. *)
Definition opcode_in (x : Z) (t : list Z) : bool := existsb (Z.eqb x) t.

(** ** The decode pass ([code_walker]) *)

(** The value of an element of [array('B', code)]. *)
Definition byte_val (b : Byte.byte) : Z := Z.of_N (Byte.to_N b).

(** [code[i]] on the byte array. *)
Definition code_at (code : list Byte.byte) (i : Z) : res Z :=
  b ← py_index code i; Ok (byte_val b).

(** One decoded instruction, [(i, (op, oparg))]. *)
Definition instr : Type := Z * (Z * Z).

(** [sys.version_info >= (3, 6)] on the major and minor numbers. *)
Definition version_ge (v : Z * Z) (w : Z * Z) : bool :=
  (fst w <? fst v) || ((fst v =? fst w) && (snd w <=? snd v)).

(** The inner loop [while op == EXTENDED_ARG]; the result is
    [(op, oparg, offset)] when the loop ends. *)
Fixpoint extended_args (fuel : nat) (code : list Byte.byte) (i op oparg offset : Z)
  : res (Z * Z * Z) :=
  if op =? EXTENDED_ARG then
    match fuel with
    | O => OutOfFuel
    | S fuel' =>
        op' ← code_at code (i + offset);
        b ← code_at code (i + offset + 1);
        extended_args fuel' code i op' (Z.lor (Z.shiftl oparg 8) b) (offset + 2)
    end
  else Ok (op, oparg, offset).

(** The loop of the branch taken from Python 3.6 on.  A generator
    yields what it has decoded before an exception ends it: the result
    is the yielded instructions and how the generator ended. *)
Fixpoint walk_wordcode (fuel : nat) (code : list Byte.byte) (i : Z)
  : list instr * res unit :=
  if i <? Z.of_nat (length code) then
    match fuel with
    | O => ([], OutOfFuel)
    | S fuel' =>
        match (op ← code_at code i;
               oparg ← code_at code (i + 1);
               extended_args fuel' code i op oparg 2) with
        | Ok (op, oparg, offset) =>
            let '(rest, r) := walk_wordcode fuel' code (i + offset) in
            ((i, (op, oparg)) :: rest, r)
        | Raise e => ([], Raise e)
        | NotEmbedded o => ([], NotEmbedded o)
        | OutOfFuel => ([], OutOfFuel)
        end
    end
  else ([], Ok tt).

(** The loop of the older branch: one or three bytes an instruction,
    [EXTENDED_ARG] yielded like any other. *)
Fixpoint walk_legacy (fuel : nat) (code : list Byte.byte) (i extended_arg oparg : Z)
  : list instr * res unit :=
  if i <? Z.of_nat (length code) then
    match fuel with
    | O => ([], OutOfFuel)
    | S fuel' =>
        match code_at code i with
        | Ok op =>
            match (if HAVE_ARGUMENT <=? op
                   then lo ← code_at code (i + 1);
                        hi ← code_at code (i + 1 + 1);
                        Ok (lo + hi * 256 + extended_arg, 0, 3)
                   else Ok (oparg, extended_arg, 1)) with
            | Ok (oparg1, extended_arg1, offset) =>
                let extended_arg2 :=
                  if op =? EXTENDED_ARG then oparg1 * 65536 else extended_arg1 in
                let '(rest, r) :=
                  walk_legacy fuel' code (i + offset) extended_arg2 oparg1 in
                ((i, (op, oparg1)) :: rest, r)
            | Raise e => ([], Raise e)
            | NotEmbedded o => ([], NotEmbedded o)
            | OutOfFuel => ([], OutOfFuel)
            end
        | Raise e => ([], Raise e)
        | NotEmbedded o => ([], NotEmbedded o)
        | OutOfFuel => ([], OutOfFuel)
        end
    end
  else ([], Ok tt).

(** [code_walker(code)] under the interpreter version [version_info].
    Every iteration consumes at least one byte, so [S (length code)]
    units of fuel are never used up. *)
Definition code_walker (version_info : Z * Z) (code : list Byte.byte)
  : list instr * res unit :=
  if version_ge version_info (3, 6)
  then walk_wordcode (S (length code)) code 0
  else walk_legacy (S (length code)) code 0 0 0.

(** [list(code_walker(code))] *)
Definition list_code_walker (version_info : Z * Z) (code : list Byte.byte)
  : res (list instr) :=
  let '(seq, r) := code_walker version_info code in
  _ ← r; Ok seq.

(** The decode contract in the spec's words: the byte array is read as
    two-byte units; a run of widening prefixes is folded, most
    significant first, into the operand of the instruction that follows
    it, and that instruction is exposed at the address of the first
    prefix.  [run] holds the start address and the operand accumulated
    by the prefixes read so far. *)
Fixpoint fold_prefixes (pos : Z) (run : option (Z * Z)) (code : list Byte.byte)
  : list instr * res unit :=
  match code with
  | [] => ([], match run with None => Ok tt | Some _ => Raise IndexError end)
  | [_] => ([], Raise IndexError)
  | op :: arg :: rest =>
      let '(start, acc) := match run with None => (pos, 0) | Some r => r end in
      let oparg := Z.lor (Z.shiftl acc 8) (byte_val arg) in
      if byte_val op =? EXTENDED_ARG
      then fold_prefixes (pos + 2) (Some (start, oparg)) rest
      else let '(ys, r) := fold_prefixes (pos + 2) None rest in
           ((start, (byte_val op, oparg)) :: ys, r)
  end.

(** The bytes of a run of widening prefixes with operand bytes [exts],
    and the operand they widen [arg] to, starting from [acc]. *)
Definition prefix_units (exts : list Byte.byte) : list Byte.byte :=
  flat_map (fun e => [Byte.x90; e]) exts.
Definition widen (acc : Z) (exts : list Byte.byte) (arg : Byte.byte) : Z :=
  fold_left (fun a x => Z.lor (Z.shiftl a 8) (byte_val x)) (exts ++ [arg]) acc.

(** ** Strings *)

(** [sep.join(parts)] *)
Fixpoint join (sep : string) (parts : list string) : string :=
  match parts with
  | [] => ""
  | [x] => x
  | x :: rest => x +:+ sep +:+ join sep rest
  end.

(** [pattern.format(args)] for patterns whose only replacement fields
    are [{}]: each field takes the next argument. *)
Fixpoint format (pattern : string) (args : list string) : string :=
  match pattern with
  | EmptyString => EmptyString
  | String "{" (String "}" rest) =>
      match args with
      | a :: args' => a +:+ format rest args'
      | [] => format rest []
      end
  | String c rest => String c (format rest args)
  end.

(** [" " * n] *)
Definition spaces (n : Z) : string :=
  Nat.iter (Z.to_nat n) (String " ") EmptyString.

(** [s * n]: [n] copies of [s], the empty string when [n <= 0]. *)
Definition str_mul (s : string) (n : Z) : string :=
  Nat.iter (Z.to_nat n) (String.append s) EmptyString.

(** [s.startswith(prefix)] *)
Definition startswith (s prefix : string) : bool := String.prefix prefix s.

(** The double quote character, for the diagnostics the decompiler
    writes as string literals. *)
Definition dquote : string := String (ascii_of_nat 34) EmptyString.

(** ** Expression nodes ([PyExpr] and its subclasses) *)

(** The constants of a code object that the embedding covers, with
    [repr]. *)
Inductive pyval : Type :=
| VNone
| VBool (b : bool)
| VInt (z : Z)
| VEllipsis.

Definition repr (v : pyval) : string :=
  match v with
  | VNone => "None"
  | VBool true => "True"
  | VBool false => "False"
  | VInt z => pretty z
  | VEllipsis => "Ellipsis"
  end.

(** [isinstance(val, int)]: [bool] is a subclass of [int]. *)
Definition is_int (v : pyval) : bool :=
  match v with VBool _ | VInt _ => true | _ => false end.

(** The classes made from [unary_ops] and [binary_ops] by [type(...)]. *)
Inductive unary_op : Type := Positive | Negative | Not | Invert.
Inductive binary_op : Type :=
| Power | Multiply | FloorDivide | TrueDivide | Modulo | Add | Subtract
| Subscript | LeftShift | RightShift | And | Xor | Or | MatrixMultiply.

Inductive PyExpr : Type :=
| PyConst (val : pyval)
| PyName (name : string)
| PyTuple (values : list PyExpr)
| PyUnaryOp (op : unary_op) (operand : PyExpr)
| PyBinaryOp (op : binary_op) (left right : PyExpr)
| PyCompare (complist : list (PyExpr + string))
| PyBooleanAnd (left right : PyExpr) (allow_collision : bool)
| PyBooleanOr (left right : PyExpr) (allow_collision : bool)
| PyIfElse (cond true_expr false_expr : PyExpr).

Abbreviation PyNot := (PyUnaryOp Not).

Definition unary_pattern (op : unary_op) : string :=
  match op with
  | Positive => "+{}"
  | Negative => "-{}"
  | Not => "not {}"
  | Invert => "~{}"
  end.

Definition unary_precedence (op : unary_op) : Z :=
  match op with
  | Positive => 13
  | Negative => 13
  | Not => 5
  | Invert => 13
  end.

Definition binary_pattern (op : binary_op) : string :=
  match op with
  | Power => "{}**{}"
  | Multiply => "{}*{}"
  | FloorDivide => "{}//{}"
  | TrueDivide => "{}/{}"
  | Modulo => "{} % {}"
  | Add => "{} + {}"
  | Subtract => "{} - {}"
  | Subscript => "{}[{}]"
  | LeftShift => "{} << {}"
  | RightShift => "{} >> {}"
  | And => "{} & {}"
  | Xor => "{} ^ {}"
  | Or => "{} | {}"
  | MatrixMultiply => "{} @ {}"
  end.

Definition binary_precedence (op : binary_op) : Z :=
  match op with
  | Power => 14
  | Multiply => 12
  | FloorDivide => 12
  | TrueDivide => 12
  | Modulo => 12
  | Add => 11
  | Subtract => 11
  | Subscript => 15
  | LeftShift => 10
  | RightShift => 10
  | And => 9
  | Xor => 8
  | Or => 7
  | MatrixMultiply => 12
  end.

(** The [precedence] attribute. *)
Definition precedence (e : PyExpr) : Z :=
  match e with
  | PyConst val => if is_int val then 14 else 100
  | PyName _ => 100
  | PyTuple _ => 0
  | PyUnaryOp op _ => unary_precedence op
  | PyBinaryOp op _ _ => binary_precedence op
  | PyCompare _ => 6
  | PyBooleanAnd _ _ _ => 4
  | PyBooleanOr _ _ _ => 3
  | PyIfElse _ _ _ => 2
  end.

(** [wrap] on the rendered node: [PyTuple] overrides it and ignores
    the condition. *)
Definition wrap_str (e : PyExpr) (rendered : string) (condition : bool) : string :=
  match e with
  | PyTuple _ => rendered
  | _ => if condition then format "({})" [rendered] else rendered
  end.

(** [__str__] of each class.  [PyName] is rendered without the
    [await] prefix, which only [GET_AWAITABLE] sets. *)
Fixpoint str (e : PyExpr) : string :=
  let wrap x condition := wrap_str x (str x) condition in
  match e with
  | PyConst val => repr val
  | PyName name => name
  | PyTuple values =>
      match values with
      | [] => "()"
      | _ =>
          let valstr := map (fun val => wrap val (precedence val <=? 0)) values in
          match valstr with
          | [v] => "(" +:+ v +:+ "," +:+ ")"
          | _ => "(" +:+ join ", " valstr +:+ ")"
          end
      end
  | PyUnaryOp op operand =>
      let opstr := wrap operand (precedence operand <? unary_precedence op) in
      format (unary_pattern op) [opstr]
  | PyBinaryOp op lhs rhs =>
      let wrap_left := wrap lhs (precedence lhs <? binary_precedence op) in
      let wrap_right :=
        match op with
        | Subscript => str rhs
        | _ => wrap rhs (precedence rhs <=? binary_precedence op)
        end in
      format (binary_pattern op) [wrap_left; wrap_right]
  | PyCompare complist =>
      join " "
        ((fix items (i : nat) (l : list (PyExpr + string)) : list string :=
            match l with
            | [] => []
            | x :: rest =>
                (match x with
                 | inr s => s
                 | inl x => if Nat.odd i then str x else wrap x (precedence x <=? 6)
                 end) :: items (S i) rest
            end) O complist)
  | PyBooleanAnd lhs rhs _ =>
      format "{} and {}"
        [wrap lhs (precedence lhs <? 4); wrap rhs (precedence rhs <=? 4)]
  | PyBooleanOr lhs rhs _ =>
      format "{} or {}"
        [wrap lhs (precedence lhs <? 3); wrap rhs (precedence rhs <=? 3)]
  | PyIfElse cond true_expr false_expr =>
      let p := 2 in
      let cond_str := wrap cond (precedence cond <=? p) in
      let true_str := wrap true_expr (precedence true_expr <=? p) in
      let false_str := wrap false_expr (precedence false_expr <? p) in
      format "{} if {} else {}" [true_str; cond_str; false_str]
  end.

(** [e.wrap(condition)] *)
Definition wrap (e : PyExpr) (condition : bool) : string :=
  wrap_str e (str e) condition.

(** [PyCompare.chain]: a method of [PyCompare] only, reading
    [other.complist]. *)
Definition chain (self other : PyExpr) : res PyExpr :=
  match self, other with
  | PyCompare complist, PyCompare other_complist =>
      Ok (PyCompare (complist ++ py_slice_from other_complist 1))
  | _, _ => Raise AttributeError
  end.

(** [isinstance(e, PyCompare) and e.complist[1].startswith('is')] *)
Definition is_compare_is (e : PyExpr) : res bool :=
  match e with
  | PyCompare complist =>
      x ← py_index complist 1;
      match x with
      | inr s => Ok (startswith s "is")
      | inl _ => Raise AttributeError
      end
  | _ => Ok false
  end.

(** [PyBooleanAnd(left, right, allow_collision)] and
    [PyBooleanOr(left, right, allow_collision)]: both constructors
    compute the flag in the same way when it is not given. *)
Definition collision_flag (lhs rhs : PyExpr) (allow_collision : option bool) : res bool :=
  match allow_collision with
  | Some b => Ok b
  | None =>
      match lhs, rhs with
      | PyNot _, _ => b ← is_compare_is rhs; Ok (negb b)
      | _, PyNot _ => b ← is_compare_is lhs; Ok (negb b)
      | _, _ => Ok false
      end
  end.

(** The two classes [push_popjump] chooses between as [obj_maker]. *)
Inductive bool_maker : Type := MakeAnd | MakeOr.

Definition obj_maker_call (m : bool_maker) (lhs rhs : PyExpr)
           (allow_collision : option bool) : res PyExpr :=
  flag ← collision_flag lhs rhs allow_collision;
  Ok (match m with
      | MakeAnd => PyBooleanAnd lhs rhs flag
      | MakeOr => PyBooleanOr lhs rhs flag
      end).

(** [isinstance(e, obj_maker)] with the operands of the node. *)
Definition instance_of (m : bool_maker) (e : PyExpr) : option (PyExpr * PyExpr) :=
  match m, e with
  | MakeAnd, PyBooleanAnd lhs rhs _ => Some (lhs, rhs)
  | MakeOr, PyBooleanOr lhs rhs _ => Some (lhs, rhs)
  | _, _ => None
  end.

(** [SPyNot] *)
Fixpoint SPyNot (o : PyExpr) : PyExpr :=
  match o with
  | PyNot operand => operand
  | PyBooleanAnd lhs rhs true => PyBooleanOr (SPyNot lhs) (SPyNot rhs) true
  | PyBooleanOr lhs rhs true => PyBooleanAnd (SPyNot lhs) (SPyNot rhs) true
  | _ => PyNot o
  end.

(** ** Statements, suites and the indented writer *)

Inductive PyStatement : Type :=
| SimpleStatement (val : string)
| AssignStatement (chain : list PyExpr)
| IfStatement (cond : PyExpr) (true_suite : Suite) (false_suite : option Suite)
with Suite : Type :=
| Suite_of (statements : list PyStatement).

Definition statements (s : Suite) : list PyStatement :=
  match s with Suite_of l => l end.

(** [Suite()] and [add_statement] *)
Definition Suite_init : Suite := Suite_of [].
Definition add_statement (s : Suite) (stmt : PyStatement) : Suite :=
  Suite_of (statements s ++ [stmt]).

(** [IndentString]: [level] and [step] belong to each writer, while
    the list [lines] is shared by a writer and the writers made from it
    by [indent + 1]; a display function takes the shared list and
    returns it with the lines it appended. *)
Record Indent : Type := mkIndent { level : Z; step : Z }.

(** [Indent.__add__] *)
Definition Indent_add (indent : Indent) (indent_increase : Z) : Indent :=
  mkIndent (level indent + indent_increase) (step indent).

(** [IndentString.indent]: [self.lines.append(" " * self.step * self.level + string)] *)
Definition Indent_indent (indent : Indent) (s : string) (lines : list string)
  : list string :=
  lines ++ [str_mul (spaces (step indent)) (level indent) +:+ s].

(** [Indent.write(pattern, args)] *)
Definition Indent_write (indent : Indent) (pattern : string) (args : list string)
           (lines : list string) : list string :=
  let pattern := match args with [] => pattern | _ => format pattern args end in
  Indent_indent indent pattern lines.

(** [display] of the statement classes and of [Suite]. *)
Fixpoint display (stmt : PyStatement) (indent : Indent) (is_elif : bool)
         (lines : list string) {struct stmt} : list string :=
  match stmt with
  | SimpleStatement val => Indent_write indent val [] lines
  | AssignStatement chain =>
      Indent_write indent (join " = " (map str chain)) [] lines
  | IfStatement cond true_suite false_suite =>
      let ptn := if is_elif then "elif {}:" else "if {}:" in
      let lines := Indent_write indent ptn [str cond] lines in
      let lines := Suite_display true_suite (Indent_add indent 1) lines in
      match false_suite with
      | None => lines
      | Some fs =>
          match fs with
          | Suite_of [] => lines
          | Suite_of [IfStatement _ _ _ as stmt'] =>
              display stmt' indent true lines
          | _ =>
              let lines := Indent_write indent "else:" [] lines in
              Suite_display fs (Indent_add indent 1) lines
          end
      end
  end
with Suite_display (s : Suite) (indent : Indent) (lines : list string)
       {struct s} : list string :=
  match s with
  | Suite_of [] => Indent_write indent "pass" [] lines
  | Suite_of stmts =>
      (fix each (l : list PyStatement) (lines : list string) : list string :=
         match l with
         | [] => lines
         | stmt :: rest => each rest (display stmt indent false lines)
         end) stmts lines
  end.

(** [Suite.__str__]: a fresh [IndentString()], displayed into and
    joined. *)
Definition Suite_str (s : Suite) : string :=
  join (String (ascii_of_nat 10) EmptyString) (Suite_display s (mkIndent 0 4) []).

(** The rendering of an operand inside its parent: in parentheses or
    bare. *)
Definition parenthesized (e : PyExpr) : string := "(" +:+ str e +:+ ")".
Definition rendered_operand (child : PyExpr) (parens : bool) : string :=
  if parens then parenthesized child else str child.
Definition is_tuple (e : PyExpr) : bool :=
  match e with PyTuple _ => true | _ => false end.
Definition is_subscript (op : binary_op) : bool :=
  match op with Subscript => true | _ => false end.

(** ** Code objects and addresses ([class Code], [class Address]) *)

(** The attributes of a compiled code object that the embedding reads. *)
Record code_obj : Type := mk_code_obj {
  co_code : list Byte.byte;
  co_consts : list pyval;
  co_names : list string;
  co_varnames : list string;
  co_name : string;
  co_flags : Z;
  co_lnotab : list Byte.byte;
  co_firstlineno : Z
}.

(** A Python object on the operand stack: the expression node with
    its identity [id(obj)].  The objects of a code object's tables get
    the identities [3 i], [3 i + 1] and [3 i + 2] (constants, names,
    local names); the shared literal [PyName('...')] has identity [-1];
    objects made while decompiling get the next unused negative
    number. *)
Record pyobj : Type := mkObj {
  obj_id : Z;
  obj_val : PyExpr
}.

Definition table_objects (k : Z) (l : list PyExpr) : list pyobj :=
  imap (fun i e => mkObj (3 * Z.of_nat i + k) e) l.

(** [SuiteDecompiler.CONST_LITERALS[Ellipsis]] *)
Definition ellipsis_literal : pyobj := mkObj (-1) (PyName "...").

(** [Address]: the index of an instruction with the address, opcode
    and operand read from the sequence when the object is made. *)
Record Address : Type := mkAddress {
  index : Z;
  addr : Z;
  opcode : Z;
  arg : Z
}.

(** [Code]: the decoded sequence and the annotations of the analysis
    passes.  The lists of addresses are the source's lists; [else_jumps]
    is its set. *)
Record Code : Type := mkCode {
  code_obj_of : code_obj;
  consts : list pyobj;
  names : list pyobj;
  varnames : list pyobj;
  instr_seq : list instr;
  instr_map : gmap Z Z;
  name : string;
  loops : list (Z * Z * Z);
  linemap : list Z;
  lineno : list Z;
  start_chained_jumps : list Address;
  inner_chained_jumps : list Address;
  end_chained_jumps : list Address;
  statement_jumps : list Address;
  ternaryop_jumps : list Address;
  qcjumps : list Address;
  else_jumps : list Address;
  flags : Z
}.

(** [len(self.instr_seq)] *)
Definition Code_len (code : Code) : Z := Z.of_nat (length (instr_seq code)).

(** [Address.__init__]:
    [self.addr, (self.opcode, self.arg) = code.instr_seq[instr_index]] *)
Definition Address_init (code : Code) (instr_index : Z) : res Address :=
  '(ad, (op, ar)) ← py_index (instr_seq code) instr_index;
  Ok (mkAddress instr_index ad op ar).

(** [Code.__getitem__]: an [Address] inside the sequence, [None]
    (the implicit return) outside. *)
Definition Code_getitem (code : Code) (instr_index : Z) : res (option Address) :=
  if (0 <=? instr_index) && (instr_index <? Code_len code)
  then a ← Address_init code instr_index; Ok (Some a)
  else Ok None.

(** [Code.__iter__], collected. *)
Definition Code_iter (code : Code) : res (list Address) :=
  mapM (fun i : nat => Address_init code (Z.of_nat i)) (seq 0 (length (instr_seq code))).

(** [Code.address]: [self[self.instr_map[addr]]] *)
Definition Code_address (code : Code) (ad : Z) : res (option Address) :=
  match instr_map code !! ad with
  | Some i => Code_getitem code i
  | None => Raise KeyError
  end.

(** An attribute read or a method call on a value that may be [None]. *)
Definition attr {A : Type} (x : option A) : res A :=
  match x with
  | Some a => Ok a
  | None => Raise AttributeError
  end.

(** A subscript [x[i]] of a value that may be [None]. *)
Definition subscriptable {A : Type} (x : option A) : res A :=
  match x with
  | Some a => Ok a
  | None => Raise TypeError
  end.

(** [Address.__getitem__]: [self.code[self.index + index]] *)
Definition Address_getitem (code : Code) (a : Address) (delta : Z)
  : res (option Address) :=
  Code_getitem code (index a + delta).

(** [Address.__add__]: [self.code.address(self.addr + delta)] *)
Definition Address_add (code : Code) (a : Address) (delta : Z)
  : res (option Address) :=
  Code_address code (addr a + delta).

(** [Address.__eq__], [__lt__], [__le__], [__ge__] against a value
    that may be [None]; all addresses belong to the one code object.
    [a > b] and [a != b] fall back on the reflected [__lt__] and on
    [__eq__]. *)
Definition Address_eq (a : Address) (other : option Address) : bool :=
  match other with Some b => index a =? index b | None => false end.
Definition Address_lt (a : Address) (other : option Address) : bool :=
  match other with Some b => index a <? index b | None => true end.
Definition Address_le (a : Address) (other : option Address) : bool :=
  match other with Some b => index a <=? index b | None => false end.
Definition Address_ge (a : Address) (other : option Address) : bool :=
  match other with Some b => index b <=? index a | None => false end.

(** [a in l] for a list or a set of addresses. *)
Definition Address_in (a : Address) (l : list Address) : bool :=
  existsb (fun b => index a =? index b) l.

(** [Address.jump] *)
Definition jump (code : Code) (a : Address) : res (option Address) :=
  if opcode_in (opcode a) hasjrel then
    next ← Address_getitem code a 1;
    match next with
    | Some n => Address_add code n (arg a)
    | None => Raise TypeError
    end
  else if opcode_in (opcode a) hasjabs then Code_address code (arg a)
  else Ok None.

(** [Address.is_continue_jump] *)
Definition is_continue_jump (code : Code) (a : Address) : res bool :=
  if opcode_in (opcode a) [POP_JUMP_IF_TRUE; POP_JUMP_IF_FALSE; JUMP_ABSOLUTE] then
    jump_addr ← jump code a;
    jump_addr ← attr jump_addr;
    if opcode jump_addr =? FOR_ITER then Ok true
    else
      prev ← Address_getitem code jump_addr (-1);
      prev ← attr prev;
      Ok (opcode prev =? SETUP_LOOP)
  else Ok false.

(** The part of [Code.__init__] before the analysis passes: the
    decoded sequence, the address map and the empty annotations. *)
Definition make_instr_map (seq : list instr) : gmap Z Z :=
  fold_left (fun (m : gmap Z Z) (p : nat * instr) => <[fst (snd p) := Z.of_nat (fst p)]> m)
            (imap (fun i x => (i, x)) seq) ∅.

Definition Code_fields (co : code_obj) (seq : list instr) : Code :=
  mkCode co
         (table_objects 0 (map PyConst (co_consts co)))
         (table_objects 1 (map PyName (co_names co)))
         (table_objects 2 (map PyName (co_varnames co)))
         seq (make_instr_map seq) (co_name co)
         [] [] [] [] [] [] [] [] [] [] 0.

Definition Code_new (version_info : Z * Z) (co : code_obj) : res Code :=
  seq ← list_code_walker version_info (co_code co);
  Ok (Code_fields co seq).

Definition set_else_jumps (code : Code) (l : list Address) : Code :=
  mkCode (code_obj_of code) (consts code) (names code) (varnames code)
         (instr_seq code) (instr_map code) (name code)
         (loops code) (linemap code) (lineno code)
         (start_chained_jumps code) (inner_chained_jumps code)
         (end_chained_jumps code) (statement_jumps code)
         (ternaryop_jumps code) (qcjumps code) l (flags code).

Definition set_linemap (code : Code) (lm ln : list Z) : Code :=
  mkCode (code_obj_of code) (consts code) (names code) (varnames code)
         (instr_seq code) (instr_map code) (name code)
         (loops code) lm ln
         (start_chained_jumps code) (inner_chained_jumps code)
         (end_chained_jumps code) (statement_jumps code)
         (ternaryop_jumps code) (qcjumps code) (else_jumps code) (flags code).

Definition set_statement_jumps (code : Code) (l : list Address) : Code :=
  mkCode (code_obj_of code) (consts code) (names code) (varnames code)
         (instr_seq code) (instr_map code) (name code)
         (loops code) (linemap code) (lineno code)
         (start_chained_jumps code) (inner_chained_jumps code)
         (end_chained_jumps code) l
         (ternaryop_jumps code) (qcjumps code) (else_jumps code) (flags code).

Definition set_flags (code : Code) (f : Z) : Code :=
  mkCode (code_obj_of code) (consts code) (names code) (varnames code)
         (instr_seq code) (instr_map code) (name code)
         (loops code) (linemap code) (lineno code)
         (start_chained_jumps code) (inner_chained_jumps code)
         (end_chained_jumps code) (statement_jumps code)
         (ternaryop_jumps code) (qcjumps code) (else_jumps code) f.

(** ** The else-jump pass ([Code.find_else]) *)

(** The body of the loop for one address: [jumps] maps the index of a
    landing instruction to a branch. *)
Definition find_else_step (code : Code) (jumps : gmap Z Address) (a : Address)
  : res (gmap Z Address) :=
  if opcode_in (opcode a) pop_jump_if_opcodes then
    jump_addr ← Code_address code (arg a);
    jump_addr ← subscriptable jump_addr;
    prev ← Address_getitem code jump_addr (-1);
    prev ← attr prev;
    if opcode_in (opcode prev) else_jump_opcodes || (opcode jump_addr =? FOR_ITER)
    then Ok (<[index jump_addr := a]> jumps)
    else Ok jumps
  else if opcode a =? JUMP_ABSOLUTE then
    jump_addr ← Code_address code (arg a);
    match jump_addr ≫= (fun j => jumps !! index j) with
    | Some b => Ok (<[index a := b]> jumps)
    | None => Ok jumps
    end
  else if opcode a =? JUMP_FORWARD then
    next ← Address_getitem code a 1;
    match next with
    | Some n =>
        jump_addr ← Address_add code n (arg a);
        match jump_addr ≫= (fun j => jumps !! index j) with
        | Some b => Ok (<[index a := b]> jumps)
        | None => Ok jumps
        end
    | None => Raise TypeError
    end
  else Ok jumps.

Fixpoint find_else_loop (code : Code) (addrs : list Address) (jumps : gmap Z Address)
  : res (gmap Z Address) :=
  match addrs with
  | [] => Ok jumps
  | a :: rest =>
      jumps' ← find_else_step code jumps a;
      find_else_loop code rest jumps'
  end.

(** [find_else]: [self.else_jumps = set(jumps.values())] *)
Definition find_else (code : Code) : res Code :=
  addrs ← Code_iter code;
  jumps ← find_else_loop code addrs ∅;
  Ok (set_else_jumps code (map snd (map_to_list jumps))).

(** A byte array written as numbers, for the examples. *)
Definition bytes (l : list Z) : list Byte.byte :=
  map (fun z => default Byte.x00 (Byte.of_N (Z.to_N z))) l.

(** The landing instruction of a conditional branch, when the branch is
    one that [find_else] records: its target follows an instruction of
    [else_jump_opcodes] or is a [FOR_ITER]. *)
Definition else_landing (code : Code) (a : Address) : option Address :=
  if opcode_in (opcode a) pop_jump_if_opcodes then
    match Code_address code (arg a) with
    | Ok (Some jump_addr) =>
        match Address_getitem code jump_addr (-1) with
        | Ok (Some prev) =>
            if opcode_in (opcode prev) else_jump_opcodes
               || (opcode jump_addr =? FOR_ITER)
            then Some jump_addr
            else None
        | _ => None
        end
    | _ => None
    end
  else None.

(** The module [if a and b: x
    else: y]: both branches, at indices 1 and 3, jump to the [else]
    arm at index 7, which follows the [JUMP_FORWARD] at index 6. *)
Definition else_example : code_obj :=
  mk_code_obj
    (bytes [101; 0; 114; 14; 101; 1; 114; 14; 101; 2; 1; 0; 110; 4;
            101; 3; 1; 0; 100; 0; 83; 0])
    [VNone] ["a"; "b"; "x"; "y"]%string [] "<module>" 64 (bytes [18; 1; 2; 2]) 1.

Definition else_example_seq : list instr :=
  Eval vm_compute in fst (code_walker (3, 7) (co_code else_example)).

Definition else_example_Code : Code := Code_fields else_example else_example_seq.

(** ** The rest of [Code.__init__] *)

(** The line map: the loop over [co_lnotab] reads two bytes a turn. *)
Fixpoint linemap_loop (lnotab : list Byte.byte) (curinstr curlineno : Z)
         (lm ln : list Z) : res (list Z * list Z) :=
  match lnotab with
  | [] => Ok (lm, ln)
  | [_] => Raise IndexError
  | a :: b :: rest =>
      let curinstr := curinstr + byte_val a in
      let curlineno := curlineno + byte_val b in
      if negb (byte_val a =? 127) && negb (byte_val b =? 127)
      then linemap_loop rest curinstr curlineno (lm ++ [curinstr]) (ln ++ [curlineno])
      else linemap_loop rest curinstr curlineno lm ln
  end.

Definition make_linemap (co : code_obj) : res (list Z * list Z) :=
  let curinstr := 0 in
  let curlineno := co_firstlineno co in
  match co_lnotab co with
  | a :: rest =>
      if byte_val a =? 0 then
        match rest with
        | b :: rest' =>
            let curlineno := curlineno + byte_val b in
            linemap_loop rest' curinstr curlineno [curinstr] [curlineno]
        | [] => Raise IndexError
        end
      else linemap_loop (a :: rest) curinstr curlineno [curinstr] [curlineno]
  | [] => Ok ([curinstr], [curlineno])
  end.

(** [Address.__eq__] between two values that may be [None]. *)
Definition py_eq (x y : option Address) : bool :=
  match x, y with
  | Some a, _ => Address_eq a y
  | None, None => true
  | None, Some _ => false
  end.

(** [find_jumps], for the instructions the embedding covers: an
    instruction that is no jump, a jump that is neither a loop setup nor
    a conditional branch, and a conditional branch to the next
    instruction.  The loop setup and the other branches are outside the
    embedded part. *)
Fixpoint find_jumps_loop (code : Code) (addrs : list Address)
         (stmt_jumps : list Address) : res (list Address) :=
  match addrs with
  | [] => Ok stmt_jumps
  | a :: rest =>
      jt ← jump code a;
      match jt with
      | None => find_jumps_loop code rest stmt_jumps
      | Some t =>
          if opcode a =? SETUP_LOOP then NotEmbedded (opcode a)
          else if opcode_in (opcode a) pop_jump_if_opcodes then
            next ← Address_getitem code a 1;
            if Address_eq t next
            then find_jumps_loop code rest (stmt_jumps ++ [a])
            else NotEmbedded (opcode a)
          else find_jumps_loop code rest stmt_jumps
      end
  end.

Definition find_jumps (code : Code) : res Code :=
  addrs ← Code_iter code;
  l ← find_jumps_loop code addrs (statement_jumps code);
  Ok (set_statement_jumps code l).

(** The four lists [proc_chained] appends to. *)
Definition set_chained_jumps (code : Code) (start inner end_ ternary : list Address)
  : Code :=
  mkCode (code_obj_of code) (consts code) (names code) (varnames code)
         (instr_seq code) (instr_map code) (name code)
         (loops code) (linemap code) (lineno code)
         start inner end_ (statement_jumps code)
         ternary (qcjumps code) (else_jumps code) (flags code).

Definition append_start (code : Code) (a : Address) : Code :=
  set_chained_jumps code (start_chained_jumps code ++ [a]) (inner_chained_jumps code)
                    (end_chained_jumps code) (ternaryop_jumps code).
Definition append_inner (code : Code) (a : Address) : Code :=
  set_chained_jumps code (start_chained_jumps code) (inner_chained_jumps code ++ [a])
                    (end_chained_jumps code) (ternaryop_jumps code).
Definition append_end (code : Code) (a : Address) : Code :=
  set_chained_jumps code (start_chained_jumps code) (inner_chained_jumps code)
                    (end_chained_jumps code ++ [a]) (ternaryop_jumps code).
Definition append_ternary (code : Code) (a : Address) : Code :=
  set_chained_jumps code (start_chained_jumps code) (inner_chained_jumps code)
                    (end_chained_jumps code) (ternaryop_jumps code ++ [a]).

(** [addr[-3] and addr[-1].opcode == COMPARE_OP and
    addr[-2].opcode == ROT_THREE and addr[-3].opcode == DUP_TOP]: the
    test of [proc_chained] and of [JUMP_IF_FALSE_OR_POP] for a branch
    inside a chained comparison. *)
Definition after_comparison_triplet (code : Code) (a : Address) : res bool :=
  p3 ← Address_getitem code a (-3);
  match p3 with
  | None => Ok false
  | Some p3 =>
      p1 ← Address_getitem code a (-1); p1 ← attr p1;
      if opcode p1 =? COMPARE_OP then
        p2 ← Address_getitem code a (-2); p2 ← attr p2;
        if opcode p2 =? ROT_THREE then Ok (opcode p3 =? DUP_TOP) else Ok false
      else Ok false
  end.

(** [proc_chained], the local function of [find_jumps] that groups
    the branches of one chained comparison, and its loop
    [while True]: the code object with the lists appended to, and the
    address returned.  [fuel] bounds the turns of the loop and the
    nested calls together. *)
Fixpoint proc_chained (fuel : nat) (code : Code) (a : Address) {struct fuel}
  : res (Code * Address) :=
  match fuel with
  | O => OutOfFuel
  | S fuel' =>
      chained ← after_comparison_triplet code a;
      if chained : bool then
        let code := append_start code a in
        _ ← jump code a;
        curaddr ← Address_getitem code a 1;
        proc_chained_scan fuel' code a curaddr
      else Ok (code, a)
  end
with proc_chained_scan (fuel : nat) (code : Code) (a : Address)
       (curaddr : option Address) {struct fuel} : res (Code * Address) :=
  match fuel with
  | O => OutOfFuel
  | S fuel' =>
      cur ← attr curaddr;
      if opcode_in (opcode cur) pop_jump_if_opcodes then
        p3 ← Address_getitem code cur (-3); p3 ← attr p3;
        triplet ←
          (if opcode p3 =? DUP_TOP then
             p2 ← Address_getitem code cur (-2); p2 ← attr p2;
             Ok (opcode p2 =? ROT_THREE)
           else Ok false);
        if triplet : bool then
          next ← Address_getitem code cur 1;
          if arg cur =? arg a
          then proc_chained_scan fuel' (append_inner code cur) cur next
          else proc_chained_scan fuel' code a next
        else
          c2 ← Address_getitem code cur 2;
          j ← jump code a;
          if py_eq c2 j then Ok (append_end code cur, cur)
          else
            '(code, cur) ← proc_chained fuel' code cur;
            j ← jump code cur; j ← subscriptable j;
            p ← Address_getitem code j (-1); p ← attr p;
            let code :=
              if opcode p =? JUMP_FORWARD then append_ternary code cur else code in
            next ← Address_getitem code cur 1;
            proc_chained_scan fuel' code a next
      else
        next ← Address_getitem code cur 1;
        proc_chained_scan fuel' code a next
  end.

Definition STORE_GLOBAL : Z := 97.
Definition BUILD_TUPLE : Z := 102.
Definition BUILD_LIST : Z := 103.
Definition BUILD_SET : Z := 104.
Definition BUILD_MAP : Z := 105.
Definition BUILD_CONST_KEY_MAP : Z := 156.

(** [implicit_continuation_lines]: the count of lines of a long
    literal stored in a name is outside the embedded part; where no
    such literal is stored the pass records nothing. *)
Fixpoint implicit_continuation_lines_loop (code : Code) (addrs : list Address)
  : res unit :=
  match addrs with
  | [] => Ok tt
  | a :: rest =>
      if opcode_in (opcode a) [STORE_GLOBAL; STORE_NAME] then
        addrc ← Address_getitem code a (-1);
        match addrc with
        | None => Raise TypeError
        | Some c =>
            if (4 <? arg c)
               && opcode_in (opcode c)
                    [BUILD_TUPLE; BUILD_LIST; BUILD_SET; BUILD_MAP; BUILD_CONST_KEY_MAP]
            then NotEmbedded (opcode c)
            else implicit_continuation_lines_loop code rest
        end
      else implicit_continuation_lines_loop code rest
  end.

(** [Code(code_obj)] *)
Definition Code_init (version_info : Z * Z) (co : code_obj) : res Code :=
  code ← Code_new version_info co;
  code ← find_else code;
  '(lm, ln) ← make_linemap co;
  code ← find_jumps (set_linemap code lm ln);
  let code := set_flags code (co_flags co) in
  addrs ← Code_iter code;
  _ ← implicit_continuation_lines_loop code addrs;
  Ok code.

(** [CodeFlags.generator], [CodeFlags.iterable_coroutine] *)
Definition flag_generator (code : Code) : bool := negb (Z.land (flags code) 32 =? 0).
Definition flag_iterable_coroutine (code : Code) : bool :=
  negb (Z.land (flags code) 256 =? 0).

(** [cmp_op] of CPython 3.7's [opcode] module. *)
Definition cmp_op : list string :=
  ["<"; "<="; "=="; "!="; ">"; ">="; "in"; "not in"; "is"; "is not";
   "exception match"; "BAD"]%string.

(** ** The executor ([class SuiteDecompiler]) *)

(** An entry of the pending-branch stack:
    [(truthiness, addr, cond, original_addr)]. *)
Definition popjump : Type := bool * option Address * PyExpr * Address.

(** The attributes of a [SuiteDecompiler].  [self.code] is the code
    object the functions below take; [next_id] is the identity the next
    object made gets (see [pyobj]). *)
Record SuiteDecompiler : Type := mkDec {
  start_addr : Address;
  end_addr : option Address;
  stack : Stack pyobj;
  suite : Suite;
  assignment_chain : list PyExpr;
  popjump_stack : list popjump;
  scan_for_else : bool;
  find_end_finally : bool;
  expression_in_result : bool;
  end_block : option Address;
  next_id : Z
}.

Definition set_stack (dec : SuiteDecompiler) (s : Stack pyobj) : SuiteDecompiler :=
  mkDec (start_addr dec) (end_addr dec) s (suite dec) (assignment_chain dec)
        (popjump_stack dec) (scan_for_else dec) (find_end_finally dec)
        (expression_in_result dec) (end_block dec) (next_id dec).

Definition set_suite (dec : SuiteDecompiler) (s : Suite) : SuiteDecompiler :=
  mkDec (start_addr dec) (end_addr dec) (stack dec) s (assignment_chain dec)
        (popjump_stack dec) (scan_for_else dec) (find_end_finally dec)
        (expression_in_result dec) (end_block dec) (next_id dec).

Definition set_assignment_chain (dec : SuiteDecompiler) (l : list PyExpr)
  : SuiteDecompiler :=
  mkDec (start_addr dec) (end_addr dec) (stack dec) (suite dec) l
        (popjump_stack dec) (scan_for_else dec) (find_end_finally dec)
        (expression_in_result dec) (end_block dec) (next_id dec).

Definition set_popjump_stack (dec : SuiteDecompiler) (l : list popjump)
  : SuiteDecompiler :=
  mkDec (start_addr dec) (end_addr dec) (stack dec) (suite dec) (assignment_chain dec)
        l (scan_for_else dec) (find_end_finally dec)
        (expression_in_result dec) (end_block dec) (next_id dec).

Definition set_next_id (dec : SuiteDecompiler) (n : Z) : SuiteDecompiler :=
  mkDec (start_addr dec) (end_addr dec) (stack dec) (suite dec) (assignment_chain dec)
        (popjump_stack dec) (scan_for_else dec) (find_end_finally dec)
        (expression_in_result dec) (end_block dec) n.

(** What an instruction handler returns: [END_NOW], or the address to
    go on at ([None] for the next instruction). *)
Inductive handler_result : Type :=
| END_NOW
| Goto (new_addr : option Address).

(** [SuiteDecompiler.__init__] *)
Definition SuiteDecompiler_init (code : Code) (start : option Address)
           (end_ : option Address) (stk : option (Stack pyobj)) (fresh : Z)
  : res SuiteDecompiler :=
  start ← attr start;
  eb ← match end_ with
       | Some e => Address_getitem code e (-1)
       | None => a ← Address_init code (Code_len code - 1); Ok (Some a)
       end;
  Ok (mkDec start end_ (default Stack_init stk) Suite_init [] [] false false false
            eb fresh).

(** A call of a [Stack] method on [self.stack]; an exception leaves
    the executor. *)
Definition on_stack {A : Type} (m : method (obj := pyobj) A) (dec : SuiteDecompiler)
  : res (A * SuiteDecompiler) :=
  match m (stack dec) with
  | (Ok a, s) => Ok (a, set_stack dec s)
  | (Raise e, _) => Raise e
  | (NotEmbedded o, _) => NotEmbedded o
  | (OutOfFuel, _) => OutOfFuel
  end.

(** [self.stack.pop()] *)
Definition stack_pop (dec : SuiteDecompiler) : res (pyobj * SuiteDecompiler) :=
  on_stack (pop1 obj_id) dec.

(** [self.stack.pop(count)] *)
Definition stack_pop_count (count : Z) (dec : SuiteDecompiler)
  : res (list pyobj * SuiteDecompiler) :=
  '(vals, dec) ← on_stack (pop obj_id (Some count)) dec;
  match vals with
  | Many l => Ok (l, dec)
  | One v => Ok ([v], dec)
  end.

(** [self.stack.push(...)] *)
Definition stack_push (objs : list pyobj) (dec : SuiteDecompiler) : res SuiteDecompiler :=
  '(_, dec) ← on_stack (push obj_id objs) dec; Ok dec.

(** A new expression object. *)
Definition new_object (e : PyExpr) (dec : SuiteDecompiler) : pyobj * SuiteDecompiler :=
  (mkObj (next_id dec) e, set_next_id dec (next_id dec - 1)).

(** [self.stack.push(node)] for a node just made. *)
Definition push_new (e : PyExpr) (dec : SuiteDecompiler) : res SuiteDecompiler :=
  let '(o, dec) := new_object e dec in stack_push [o] dec.

(** [write(template, args)] with expression arguments. *)
Definition write (template : string) (args : list PyExpr) (dec : SuiteDecompiler)
  : SuiteDecompiler :=
  let line := match args with
              | [] => template
              | _ => format template (map str args)
              end in
  set_suite dec (add_statement (suite dec) (SimpleStatement line)).

(** [PyExpr.store(dec, dest)] *)
Definition PyExpr_store (self : pyobj) (dest : PyExpr) (dec : SuiteDecompiler)
  : SuiteDecompiler :=
  let chain := assignment_chain dec ++ [dest] in
  if negb (Stack_contains obj_id (stack dec) self) then
    let chain := chain ++ [obj_val self] in
    set_assignment_chain
      (set_suite dec (add_statement (suite dec) (AssignStatement chain))) []
  else set_assignment_chain dec chain.

(** [SuiteDecompiler.store(dest)] *)
Definition store (dest : PyExpr) (dec : SuiteDecompiler) : res SuiteDecompiler :=
  '(val, dec) ← stack_pop dec;
  Ok (PyExpr_store val dest dec).

(** *** The pending-branch stack *)

(** One merge of [push_popjump]'s loop, when the top entry matches:
    the operator, the two conditions and the sense after the case
    analysis, then the node built from them. *)
Definition merge_same_target (truthiness jtruthiness : bool) (cond jcond : PyExpr)
  : res (bool_maker * PyExpr * PyExpr * bool * bool) :=
  if truthiness && jtruthiness then Ok (MakeOr, cond, jcond, jtruthiness, false)
  else if truthiness && negb jtruthiness then
    is_compare_is cond ≫= fun b_is : bool =>
    if b_is then Ok (MakeOr, cond, SPyNot jcond, true, false)
    else Ok (MakeAnd, SPyNot cond, jcond, jtruthiness, true)
  else if negb truthiness && jtruthiness then
    is_compare_is jcond ≫= fun b_is : bool =>
    if b_is then Ok (MakeOr, SPyNot cond, jcond, jtruthiness, false)
    else Ok (MakeAnd, cond, SPyNot jcond, false, true)
  else Ok (MakeAnd, cond, jcond, jtruthiness, false).

Definition merge_fallthrough (truthiness jtruthiness : bool) (cond jcond : PyExpr)
           (original_opcode : Z)
  : res (bool_maker * PyExpr * PyExpr * bool * bool) :=
  if truthiness && jtruthiness then
    is_compare_is jcond ≫= fun b_is : bool =>
    if b_is || (original_opcode =? JUMP_IF_TRUE_OR_POP)
    then Ok (MakeAnd, SPyNot cond, jcond, jtruthiness, false)
    else Ok (MakeOr, cond, SPyNot jcond, false, true)
  else if truthiness && negb jtruthiness then Ok (MakeOr, cond, jcond, jtruthiness, false)
  else if negb truthiness && jtruthiness then Ok (MakeAnd, cond, jcond, jtruthiness, false)
  else
    is_compare_is cond ≫= fun b_is : bool =>
    if b_is then Ok (MakeAnd, cond, SPyNot jcond, true, false)
    else Ok (MakeOr, SPyNot cond, jcond, jtruthiness, true).

(** The end of the loop body: a clause that is already a node of the
    chosen operator is opened and the pending condition put in front of
    its left operand. *)
Definition merge_node (obj_maker : bool_maker) (cond jcond : PyExpr)
           (allow_collision : bool) : res PyExpr :=
  match instance_of obj_maker jcond with
  | Some (jleft, jright) =>
      inner ← obj_maker_call obj_maker cond jleft (Some allow_collision);
      obj_maker_call obj_maker inner jright (Some allow_collision)
  | None => obj_maker_call obj_maker cond jcond (Some allow_collision)
  end.

(** The loop [while stack] of [push_popjump], on the stack read from
    its top: what is left of the stack, and the sense and condition to
    push. *)
Fixpoint merge_popjumps (top_first : list popjump) (jtruthiness : bool)
         (jaddr : option Address) (jcond : PyExpr) (next_addr : option Address)
         (original_opcode : Z) : res (list popjump * bool * PyExpr) :=
  match top_first with
  | [] => Ok ([], jtruthiness, jcond)
  | (truthiness, a, cond, original_addr) :: below =>
      if py_eq jaddr a then
        '(obj_maker, cond, jcond, jtruthiness, allow_collision)
          ← merge_same_target truthiness jtruthiness cond jcond;
        jcond ← merge_node obj_maker cond jcond allow_collision;
        merge_popjumps below jtruthiness jaddr jcond next_addr original_opcode
      else if py_eq a next_addr then
        '(obj_maker, cond, jcond, jtruthiness, allow_collision)
          ← merge_fallthrough truthiness jtruthiness cond jcond original_opcode;
        jcond ← merge_node obj_maker cond jcond allow_collision;
        merge_popjumps below jtruthiness jaddr jcond next_addr original_opcode
      else Ok (top_first, jtruthiness, jcond)
  end.

(** [push_popjump] *)
Definition push_popjump (code : Code) (jtruthiness : bool) (jaddr : option Address)
           (jcond : PyExpr) (original_jaddr : Address) (dec : SuiteDecompiler)
  : res SuiteDecompiler :=
  next_addr ←
    (if Address_in original_jaddr (end_chained_jumps code) then
       if jtruthiness then Address_getitem code original_jaddr 3
       else Address_getitem code original_jaddr 4
     else Address_getitem code original_jaddr 1);
  '(rest, jtruthiness, jcond)
    ← merge_popjumps (rev (popjump_stack dec)) jtruthiness jaddr jcond next_addr
                     (opcode original_jaddr);
  let jtruthiness :=
    if opcode original_jaddr =? JUMP_IF_TRUE_OR_POP then negb jtruthiness
    else jtruthiness in
  Ok (set_popjump_stack dec (rev rest ++ [(jtruthiness, jaddr, jcond, original_jaddr)])).

(** [pop_popjump] *)
Definition pop_popjump (dec : SuiteDecompiler) : res (PyExpr * SuiteDecompiler) :=
  match list_pop (popjump_stack dec) with
  | None => Raise (Exception "Attempted to pop an empty popjump stack.")
  | Some (rest, (truthiness, _, cond, _)) =>
      let cond := if truthiness : bool then SPyNot cond else cond in
      Ok (cond, set_popjump_stack dec rest)
  end.

(** *** Instruction handlers *)

Definition STORE_FAST : Z := 125.
Definition LOAD_GLOBAL : Z := 116.
Definition GET_ITER : Z := 68.
Definition BREAK_LOOP : Z := 80.
Definition POP_EXCEPT : Z := 89.
Definition BINARY_MATRIX_MULTIPLY : Z := 16.
Definition BINARY_POWER : Z := 19.
Definition BINARY_MULTIPLY : Z := 20.
Definition BINARY_MODULO : Z := 22.
Definition BINARY_SUBSCR : Z := 25.
Definition BINARY_FLOOR_DIVIDE : Z := 26.
Definition BINARY_TRUE_DIVIDE : Z := 27.
Definition BINARY_LSHIFT : Z := 62.
Definition BINARY_RSHIFT : Z := 63.
Definition BINARY_AND : Z := 64.
Definition BINARY_XOR : Z := 65.
Definition BINARY_OR : Z := 66.

(** The diagnostic [POP_TOP] writes, a string literal in triple
    double quotes. *)
Definition empty_stack_diagnostic : string :=
  dquote +:+ dquote +:+ dquote
  +:+ "unpyc3: decompilation error POP_TOP while empty stack"
  +:+ dquote +:+ dquote +:+ dquote.

(** The opcodes whose handlers [make_dynamic_instr] makes from
    [unary_ops] and [binary_ops]. *)
Definition unary_of_opcode (o : Z) : option unary_op :=
  if o =? UNARY_POSITIVE then Some Positive
  else if o =? UNARY_NEGATIVE then Some Negative
  else if o =? UNARY_NOT then Some Not
  else if o =? UNARY_INVERT then Some Invert
  else None.

Definition binary_of_opcode (o : Z) : option binary_op :=
  if o =? BINARY_POWER then Some Power
  else if o =? BINARY_MULTIPLY then Some Multiply
  else if o =? BINARY_FLOOR_DIVIDE then Some FloorDivide
  else if o =? BINARY_TRUE_DIVIDE then Some TrueDivide
  else if o =? BINARY_MODULO then Some Modulo
  else if o =? BINARY_ADD then Some Add
  else if o =? BINARY_SUBTRACT then Some Subtract
  else if o =? BINARY_SUBSCR then Some Subscript
  else if o =? BINARY_LSHIFT then Some LeftShift
  else if o =? BINARY_RSHIFT then Some RightShift
  else if o =? BINARY_AND then Some And
  else if o =? BINARY_XOR then Some Xor
  else if o =? BINARY_OR then Some Or
  else if o =? BINARY_MATRIX_MULTIPLY then Some MatrixMultiply
  else None.

Section Handlers.

(** The code object of the executor, and [d.run()] for the executors
    it makes for nested ranges. *)
Variable code : Code.
Variable run : SuiteDecompiler -> res (SuiteDecompiler * option Address).

Definition handler : Type :=
  Address -> SuiteDecompiler -> res (SuiteDecompiler * handler_result).

(** [d = SuiteDecompiler(start, end_, self.stack); d.run()]: the
    nested executor works on the stack object of its maker, which sees
    the stack it leaves; its suite is dropped. *)
Definition run_on_shared_stack (start end_ : option Address) (dec : SuiteDecompiler)
  : res SuiteDecompiler :=
  d ← SuiteDecompiler_init code start end_ (Some (stack dec)) (next_id dec);
  '(d, _) ← run d;
  Ok (set_next_id (set_stack dec (stack d)) (next_id d)).

Definition POP_TOP_handler : handler := fun a dec =>
  if Stack_len (stack dec) <=? 0 then
    Ok (set_suite dec (add_statement (suite dec) (SimpleStatement empty_stack_diagnostic)),
        Goto None)
  else
    '(val, dec) ← stack_pop dec;
    Ok (write (str (obj_val val)) [] dec, Goto None).

Definition PRINT_EXPR_handler : handler := fun a dec =>
  '(expr, dec) ← stack_pop dec;
  Ok (write "{}" [obj_val expr] dec, Goto None).

Definition DUP_TOP_handler : handler := fun a dec =>
  '(v, dec) ← on_stack (peek None) dec;
  dec ← stack_push (match v with One x => [x] | Many l => l end) dec;
  Ok (dec, Goto None).

(** [ROT_THREE] inside a chained comparison; its other use, the
    unpacking assignment, is outside the embedded part. *)
Definition ROT_THREE_handler : handler := fun a dec =>
  p1 ← Address_getitem code a (-1); p1 ← attr p1;
  in_comparison ←
    (if opcode p1 =? DUP_TOP then
       n1 ← Address_getitem code a 1; n1 ← attr n1;
       if opcode n1 =? COMPARE_OP then
         n2 ← Address_getitem code a 2; n2 ← attr n2;
         Ok (opcode_in (opcode n2)
               [JUMP_IF_FALSE_OR_POP; POP_JUMP_IF_FALSE; POP_JUMP_IF_TRUE])
       else Ok false
     else Ok false);
  if in_comparison : bool then
    '(vals, dec) ← stack_pop_count 3 dec;
    match vals with
    | [tos2; tos1; tos] =>
        dec ← stack_push [tos; tos2; tos1] dec; Ok (dec, Goto None)
    | _ => Raise (Exception "not enough values to unpack")
    end
  else NotEmbedded (opcode a).

Definition LOAD_CONST_handler : handler := fun a dec =>
  const ← py_index (consts code) (arg a);
  let const :=
    match obj_val const with
    | PyConst VEllipsis => ellipsis_literal
    | _ => const
    end in
  dec ← stack_push [const] dec; Ok (dec, Goto None).

Definition LOAD_NAME_handler : handler := fun a dec =>
  nm ← py_index (names code) (arg a);
  dec ← stack_push [nm] dec; Ok (dec, Goto None).

Definition LOAD_FAST_handler : handler := fun a dec =>
  nm ← py_index (varnames code) (arg a);
  dec ← stack_push [nm] dec; Ok (dec, Goto None).

Definition STORE_NAME_handler : handler := fun a dec =>
  nm ← py_index (names code) (arg a);
  dec ← store (obj_val nm) dec; Ok (dec, Goto None).

Definition STORE_FAST_handler : handler := fun a dec =>
  nm ← py_index (varnames code) (arg a);
  dec ← store (obj_val nm) dec; Ok (dec, Goto None).

Definition unary_handler (op : unary_op) : handler := fun a dec =>
  '(operand, dec) ← stack_pop dec;
  dec ← push_new (PyUnaryOp op (obj_val operand)) dec;
  Ok (dec, Goto None).

Definition binary_handler (op : binary_op) : handler := fun a dec =>
  '(rhs, dec) ← stack_pop dec;
  '(lhs, dec) ← stack_pop dec;
  dec ← push_new (PyBinaryOp op (obj_val lhs) (obj_val rhs)) dec;
  Ok (dec, Goto None).

(** [COMPARE_OP]; the exception match of an [except] clause is outside
    the embedded part. *)
Definition COMPARE_OP_handler : handler := fun a dec =>
  '(vals, dec) ← stack_pop_count 2 dec;
  match vals with
  | [lhs; rhs] =>
      if negb (arg a =? 10) then
        opname ← py_index cmp_op (arg a);
        dec ← push_new (PyCompare [inl (obj_val lhs); inr opname; inl (obj_val rhs)]) dec;
        Ok (dec, Goto None)
      else NotEmbedded (opcode a)
  | _ => Raise (Exception "not enough values to unpack")
  end.

(** [RETURN_VALUE] in a scope that is no generator. *)
Definition RETURN_VALUE_handler : handler := fun a dec =>
  '(value, dec) ← stack_pop dec;
  if flag_generator code then NotEmbedded (opcode a)
  else
    match obj_val value with
    | PyConst VNone =>
        next ← Address_getitem code a 1;
        if bool_decide (next <> None) || find_end_finally dec
        then Ok (write "return" [] dec, Goto None)
        else Ok (dec, Goto None)
    | v =>
        if flag_iterable_coroutine code
        then Ok (write "yield {}" [v] dec, Goto None)
        else Ok (write "return {}" [v] dec, Goto None)
    end.

Definition JUMP_FORWARD_handler : handler := fun a dec =>
  j ← jump code a; Ok (dec, Goto j).

Definition JUMP_ABSOLUTE_handler : handler := fun a dec =>
  c ← is_continue_jump code a;
  if c && existsb (Z.eqb (addr a)) (linemap code)
  then Ok (write "continue" [] dec, Goto None)
  else Ok (dec, Goto None).

(** The loop of the chained branch of [JUMP_IF_FALSE_OR_POP]: the
    cursor moves one instruction a turn. *)
Fixpoint chained_comparisons (fuel : nat) (a : Address) (end_ : option Address)
         (curaddr start : option Address) (cond : PyExpr) (dec : SuiteDecompiler)
  : res (PyExpr * option Address * SuiteDecompiler) :=
  match curaddr with
  | None => Raise TypeError
  | Some cur =>
      if Address_lt cur end_ then
        match fuel with
        | O => OutOfFuel
        | S fuel' =>
            '(cond, start, dec) ←
              (if opcode cur =? COMPARE_OP then
                 p2 ← Address_getitem code cur (-2); p2 ← attr p2;
                 if opcode p2 =? DUP_TOP then
                   p1 ← Address_getitem code cur (-1); p1 ← attr p1;
                   if opcode p1 =? ROT_THREE then
                     n1 ← Address_getitem code cur 1; n1' ← attr n1;
                     if (opcode n1' =? JUMP_IF_FALSE_OR_POP) && (arg n1' =? arg a)
                     then
                       dec ← run_on_shared_stack start n1 dec;
                       '(c, dec) ← stack_pop dec;
                       cond ← chain cond (obj_val c);
                       start ← Address_getitem code cur 2;
                       Ok (cond, start, dec)
                     else Ok (cond, start, dec)
                   else Ok (cond, start, dec)
                 else Ok (cond, start, dec)
               else Ok (cond, start, dec));
            next ← Address_getitem code cur 1;
            chained_comparisons fuel' a end_ next start cond dec
        end
      else Ok (cond, start, dec)
  end.

Definition JUMP_IF_FALSE_OR_POP_handler : handler := fun a dec =>
  end_ ← jump code a;
  chained ← after_comparison_triplet code a;
  if chained : bool then
    curaddr ← Address_getitem code a 1;
    '(cond, dec) ← stack_pop dec;
    '(cond, start, dec) ←
      chained_comparisons (length (instr_seq code)) a end_ curaddr curaddr
                          (obj_val cond) dec;
    e ← subscriptable end_;
    e1 ← Address_getitem code e (-1);
    dec ← run_on_shared_stack start e1 dec;
    '(c, dec) ← stack_pop dec;
    cond ← chain cond (obj_val c);
    dec ← push_new cond dec;
    e2 ← Address_getitem code e 2;
    Ok (dec, Goto e2)
  else
    '(v, dec) ← stack_pop dec;
    dec ← push_popjump code false end_ (obj_val v) a dec;
    '(lhs, dec) ← pop_popjump dec;
    next ← Address_getitem code a 1;
    dec ← run_on_shared_stack next end_ dec;
    '(rhs, dec) ← stack_pop dec;
    py_and ← obj_maker_call MakeAnd lhs (obj_val rhs) None;
    dec ← push_new py_and dec;
    Ok (dec, Goto end_).

Definition JUMP_IF_TRUE_OR_POP_handler : handler := fun a dec =>
  end_ ← jump code a;
  '(v, dec) ← stack_pop dec;
  dec ← push_popjump code true end_ (obj_val v) a dec;
  '(lhs, dec) ← pop_popjump dec;
  next ← Address_getitem code a 1;
  dec ← run_on_shared_stack next end_ dec;
  '(rhs, dec) ← stack_pop dec;
  py_or ← obj_maker_call MakeOr lhs (obj_val rhs) None;
  dec ← push_new py_or dec;
  Ok (dec, Goto end_).

(** The statement branch that follows [a] most closely:
    [for x in self.code.statement_jumps: if addr < x: if c is None or
    x < c: c = x]. *)
Definition next_statement_jump (a : Address) (jumps : list Address) : option Address :=
  fold_left
    (fun (c : option Address) (x : Address) =>
       if Address_lt a (Some x) then
         match c with
         | None => Some x
         | Some c' => if Address_lt x (Some c') then Some x else c
         end
       else c)
    jumps None.

(** [POP_JUMP_IF], the block [if addr.is_continue_jump:]: the target
    the branch is taken to have when it jumps to the head of a loop. *)
Definition continue_jump_target (truthiness : bool) (a : Address)
           (jump_addr : option Address) (dec : SuiteDecompiler)
  : res (option Address) :=
  cj ← is_continue_jump code a;
  if cj : bool then
    '(c, x) ←
      (if negb (Address_in a (statement_jumps code)) then
         match next_statement_jump a (statement_jumps code) with
         | None => Raise AssertionError
         | Some c =>
             if Address_lt c (end_block dec) then
               x ← (if Address_in c (end_chained_jumps code) then
                      if opcode c =? POP_JUMP_IF_TRUE
                      then Address_getitem code c 3
                      else Address_getitem code c 4
                    else Address_getitem code c 1);
               Ok (Some c, x)
             else Raise AssertionError
         end
       else Ok (None, None));
    use_x ←
      match c with
      | None => Ok false
      | Some c =>
          x ← attr x;
          xc ← is_continue_jump code x;
          if xc : bool then
            if truthiness then Ok true
            else cc ← is_continue_jump code c; Ok (negb cc)
          else Ok false
      end;
    if use_x : bool then Ok x
    else
      j ← attr jump_addr;
      if opcode j =? FOR_ITER then jump code j
      else
        p ← Address_getitem code j (-1); p ← attr p;
        if opcode p =? SETUP_LOOP then
          pj ← jump code p; pj ← subscriptable pj;
          Address_getitem code pj (-1)
        else Ok jump_addr
  else Ok jump_addr.

(** [POP_JUMP_IF], from [cond = self.stack.pop()] to the end of the
    tests on the chained-comparison lists.  A branch that starts a
    chained comparison or lies inside one leaves its comparison on the
    pending-branch stack and the handler returns ([inl]); the branch
    that ends one chains its comparison to the pending one, and the
    handler goes on with the condition ([inr]), as it does with the
    condition of a branch outside the lists. *)
Definition chained_branch (truthiness : bool) (jump_addr : option Address)
           (a : Address) (dec : SuiteDecompiler)
  : res (SuiteDecompiler + PyExpr * SuiteDecompiler) :=
  '(cond, dec) ← stack_pop dec;
  let cond := obj_val cond in
  if Address_in a (start_chained_jumps code) then
    dec ← push_popjump code truthiness jump_addr cond a dec;
    Ok (inl dec)
  else if Address_in a (inner_chained_jumps code) then
    '(c, dec) ← pop_popjump dec;
    cond ← chain c cond;
    dec ← push_popjump code false jump_addr cond a dec;
    Ok (inl dec)
  else if Address_in a (end_chained_jumps code) then
    '(c, dec) ← pop_popjump dec;
    cond ← chain c cond;
    Ok (inr (cond, dec))
  else Ok (inr (cond, dec)).

(** [POP_JUMP_IF]: a branch to the next instruction is an [if] with
    an empty body; of the other branches, the ones that start a chained
    comparison or lie inside one.  What the handler does with the
    condition of any other branch is outside the embedded part; the
    loop context read before the block on continue jumps is used
    there only. *)
Definition POP_JUMP_IF (truthiness : bool) : handler := fun a dec =>
  jump_addr ← jump code a;
  next_addr ← Address_getitem code a 1;
  if py_eq jump_addr next_addr then
    '(v, dec) ← stack_pop dec;
    dec ← push_popjump code truthiness jump_addr (obj_val v) a dec;
    '(cond, dec) ← pop_popjump dec;
    let d_true := add_statement Suite_init (SimpleStatement "pass") in
    Ok (set_suite dec (add_statement (suite dec) (IfStatement cond d_true None)),
        Goto next_addr)
  else
    jump_addr ← continue_jump_target truthiness a jump_addr dec;
    r ← chained_branch truthiness jump_addr a dec;
    match r with
    | inl dec => Ok (dec, Goto None)
    | inr _ => NotEmbedded (opcode a)
    end.

Definition pass_handler : handler := fun a dec => Ok (dec, Goto None).
Definition END_NOW_handler : handler := fun a dec => Ok (dec, END_NOW).

(** [getattr(self, opname[opcode])] *)
Definition method_of (o : Z) : option handler :=
  if o =? POP_TOP then Some POP_TOP_handler
  else if o =? PRINT_EXPR then Some PRINT_EXPR_handler
  else if o =? DUP_TOP then Some DUP_TOP_handler
  else if o =? ROT_THREE then Some ROT_THREE_handler
  else if o =? NOP then Some pass_handler
  else if o =? POP_BLOCK then Some pass_handler
  else if o =? GET_ITER then Some pass_handler
  else if o =? EXTENDED_ARG then Some pass_handler
  else if o =? END_FINALLY then Some END_NOW_handler
  else if o =? POP_EXCEPT then Some END_NOW_handler
  else if o =? BREAK_LOOP then Some (fun a dec => Ok (write "break" [] dec, Goto None))
  else if o =? CONTINUE_LOOP then Some (fun a dec => Ok (write "continue" [] dec, Goto None))
  else if o =? LOAD_CONST then Some LOAD_CONST_handler
  else if o =? LOAD_NAME then Some LOAD_NAME_handler
  else if o =? LOAD_GLOBAL then Some LOAD_NAME_handler
  else if o =? LOAD_FAST then Some LOAD_FAST_handler
  else if o =? STORE_NAME then Some STORE_NAME_handler
  else if o =? STORE_FAST then Some STORE_FAST_handler
  else if o =? COMPARE_OP then Some COMPARE_OP_handler
  else if o =? RETURN_VALUE then Some RETURN_VALUE_handler
  else if o =? JUMP_FORWARD then Some JUMP_FORWARD_handler
  else if o =? JUMP_ABSOLUTE then Some JUMP_ABSOLUTE_handler
  else if o =? JUMP_IF_FALSE_OR_POP then Some JUMP_IF_FALSE_OR_POP_handler
  else if o =? JUMP_IF_TRUE_OR_POP then Some JUMP_IF_TRUE_OR_POP_handler
  else if o =? POP_JUMP_IF_FALSE then Some (POP_JUMP_IF false)
  else if o =? POP_JUMP_IF_TRUE then Some (POP_JUMP_IF true)
  else match unary_of_opcode o, binary_of_opcode o with
       | Some op, _ => Some (unary_handler op)
       | None, Some op => Some (binary_handler op)
       | None, None => None
       end.

Definition dispatch : handler := fun a dec =>
  match method_of (opcode a) with
  | Some m => m a dec
  | None => NotEmbedded (opcode a)
  end.

End Handlers.

(** *** The execution loop ([SuiteDecompiler.run]) *)

(** The loop of [run] from the cursor [a], for any table of methods:
    the value is the executor and the address [run] returns. *)
Fixpoint run_loop (method_for : Code -> handler) (fuel : nat) (code : Code)
         (dec : SuiteDecompiler) (a : option Address)
  : res (SuiteDecompiler * option Address) :=
  match a with
  | None => Ok (dec, None)
  | Some cur =>
      if negb (Address_lt cur (end_addr dec)) then Ok (dec, a)
      else if (if scan_for_else dec
               then ((opcode cur =? JUMP_ABSOLUTE)
                     && negb (existsb (Z.eqb (addr cur)) (linemap code)))
                    || (opcode cur =? JUMP_FORWARD)
               else find_end_finally dec && (opcode cur =? END_FINALLY))
      then Ok (dec, a)
      else
        match fuel with
        | O => OutOfFuel
        | S fuel' =>
            '(dec, new_addr) ← method_for code cur dec;
            match new_addr with
            | END_NOW => Ok (dec, end_addr dec)
            | Goto new_addr =>
                new_addr ← match new_addr with
                           | None => Address_getitem code cur 1
                           | Some _ => Ok new_addr
                           end;
                if (scan_for_else dec || find_end_finally dec)
                   && (opcode cur =? RETURN_VALUE)
                then Ok (dec, a)
                else if expression_in_result dec then
                  n ← attr new_addr;
                  if opcode n =? RETURN_VALUE then Ok (dec, new_addr)
                  else run_loop method_for fuel' code dec new_addr
                else run_loop method_for fuel' code dec new_addr
            end
        end
  end.

(** [run] with the handlers of the class; [depth] bounds the nesting
    of executors and [fuel] the turns of each loop. *)
Fixpoint run (depth fuel : nat) (code : Code) (dec : SuiteDecompiler)
  : res (SuiteDecompiler * option Address) :=
  match depth with
  | O => OutOfFuel
  | S depth' =>
      run_loop (fun code => dispatch code (run depth' fuel code)) fuel code dec
               (Some (start_addr dec))
  end.

(** [Code.get_suite()] for a code object that declares no global or
    nonlocal name, and [decompile(code_obj)]. *)
Definition get_suite (depth fuel : nat) (code : Code) : res Suite :=
  first ← Code_getitem code 0;
  dec ← SuiteDecompiler_init code first None None (-2);
  '(dec, _) ← run depth fuel code dec;
  Ok (suite dec).

Definition decompile (depth fuel : nat) (version_info : Z * Z) (co : code_obj)
  : res Suite :=
  code ← Code_init version_info co;
  get_suite depth fuel code.

(** The tests of the loop of [run] before the handler is called: the
    loop calls the handler of the instruction at [cur]. *)
Definition before_call (code : Code) (dec : SuiteDecompiler) (cur : Address) : bool :=
  Address_lt cur (end_addr dec)
  && negb (if scan_for_else dec
           then ((opcode cur =? JUMP_ABSOLUTE)
                 && negb (existsb (Z.eqb (addr cur)) (linemap code)))
                || (opcode cur =? JUMP_FORWARD)
           else find_end_finally dec && (opcode cur =? END_FINALLY)).

(** The tests of the loop after the call at [cur], with the executor
    [dec] the handler left and the address [n] the loop would go on at:
    the loop does go on. *)
Definition after_call (dec : SuiteDecompiler) (cur n : Address) : bool :=
  negb ((scan_for_else dec || find_end_finally dec) && (opcode cur =? RETURN_VALUE))
  && negb (expression_in_result dec && (opcode n =? RETURN_VALUE)).

(** The handler calls of one run of the loop: started with the
    executor [dec] at the cursor [a], the loop calls the handler of the
    instruction [c] with the executor [d]. *)
Inductive calls (method_for : Code -> handler) (code : Code)
  : SuiteDecompiler -> Address -> SuiteDecompiler -> Address -> Prop :=
| calls_here (dec : SuiteDecompiler) (a : Address) :
    before_call code dec a = true -> calls method_for code dec a dec a
| calls_later (dec dec' : SuiteDecompiler) (a n : Address) (r : option Address)
              (d : SuiteDecompiler) (c : Address) :
    before_call code dec a = true ->
    method_for code a dec = Ok (dec', Goto r) ->
    match r with
    | None => Address_getitem code a 1
    | Some _ => Ok r
    end = Ok (Some n) ->
    after_call dec' a n = true ->
    calls method_for code dec' n d c ->
    calls method_for code dec a d c.

(** A handler call that makes forward progress: the call comes back
    (a nested run it makes does not run out of fuel), and an address it
    returns lies after the instruction handled, inside the sequence. *)
Definition forward_call (method_for : Code -> handler) (code : Code)
           (d : SuiteDecompiler) (c : Address) : Prop :=
  method_for code c d <> OutOfFuel
  /\ forall d' b, method_for code c d = Ok (d', Goto (Some b)) ->
        index c < index b < Code_len code.

(** The same, checked along the run of the loop, for at most [turns]
    turns. *)
Fixpoint forward_trace (method_for : Code -> handler) (turns : nat) (code : Code)
         (dec : SuiteDecompiler) (a : Address) : bool :=
  match turns with
  | O => false
  | S turns' =>
      if before_call code dec a then
        match method_for code a dec with
        | OutOfFuel => false
        | Ok (dec', Goto (Some b)) =>
            (index a <? index b) && (index b <? Code_len code)
            && (if after_call dec' a b
                then forward_trace method_for turns' code dec' b else true)
        | Ok (dec', Goto None) =>
            match Address_getitem code a 1 with
            | Ok (Some n) =>
                if after_call dec' a n
                then forward_trace method_for turns' code dec' n else true
            | _ => true
            end
        | _ => true
        end
      else true
  end.

(** One turn of the loop of [run] at the cursor [cur]: the address the
    loop goes on at, when it goes on. *)
Definition next_cursor (method_for : Code -> handler) (code : Code)
           (dec : SuiteDecompiler) (cur : Address) : res (option Address) :=
  '(dec, new_addr) ← method_for code cur dec;
  match new_addr with
  | END_NOW => Ok None
  | Goto None => Address_getitem code cur 1
  | Goto (Some b) => Ok (Some b)
  end.

(** The module made of [LOAD_CONST 0; LOAD_CONST 0;
    JUMP_IF_TRUE_OR_POP 2; RETURN_VALUE]: the jump at index 2 targets
    the byte address 2, the instruction at index 1. *)
Definition backward_jump_example : code_obj :=
  mk_code_obj (bytes [100; 0; 100; 0; 112; 2; 83; 0])
              [VNone] [] [] "<module>" 64 (bytes []) 1.

Definition backward_jump_Code : Code :=
  Eval vm_compute in
    match Code_init (3, 7) backward_jump_example with
    | Ok code => code
    | _ => Code_fields backward_jump_example []
    end.

(** The state of an executor each time the cursor of
    [backward_jump_example] is at index 1: one object on the operand
    stack, nothing pending, no end address, no flag set. *)
Definition at_loop_head (dec : SuiteDecompiler) : Prop :=
  stack_inv obj_id (stack dec)
  /\ (exists o, _stack (stack dec) = [o])
  /\ popjump_stack dec = []
  /\ end_addr dec = None
  /\ scan_for_else dec = false
  /\ find_end_finally dec = false
  /\ expression_in_result dec = false.

(** The module made of the expression statement [a and b and c]:
    [LOAD_NAME a; JUMP_IF_FALSE_OR_POP 10; LOAD_NAME b;
    JUMP_IF_FALSE_OR_POP 10; LOAD_NAME c; POP_TOP; LOAD_CONST None;
    RETURN_VALUE]. *)
Definition and_chain_example : code_obj :=
  mk_code_obj
    (bytes [101; 0; 111; 10; 101; 1; 111; 10; 101; 2; 1; 0; 100; 0; 83; 0])
    [VNone] ["a"; "b"; "c"]%string [] "<module>" 64 (bytes [12; 0]) 1.

(** A module whose second instruction underflows the operand stack:
    [POP_TOP; LOAD_CONST None; COMPARE_OP <; LOAD_CONST None;
    RETURN_VALUE]. *)
Definition underflow_example : code_obj :=
  mk_code_obj (bytes [1; 0; 100; 0; 107; 0; 100; 0; 83; 0])
              [VNone] [] [] "<module>" 64 (bytes []) 1.

(** The opcodes whose handlers begin by popping the operand stack. *)
Definition popping_opcodes : list Z :=
  [PRINT_EXPR; RETURN_VALUE; COMPARE_OP;
   UNARY_POSITIVE; UNARY_NEGATIVE; UNARY_NOT; UNARY_INVERT;
   BINARY_POWER; BINARY_MULTIPLY; BINARY_FLOOR_DIVIDE; BINARY_TRUE_DIVIDE;
   BINARY_MODULO; BINARY_ADD; BINARY_SUBTRACT; BINARY_SUBSCR; BINARY_LSHIFT;
   BINARY_RSHIFT; BINARY_AND; BINARY_XOR; BINARY_OR; BINARY_MATRIX_MULTIPLY].

(** The pending branch on top of the stack, if any, has a target that
    is neither the target [jaddr] of the branch pushed nor the
    instruction [next_addr] after it: the loop of [push_popjump] merges
    nothing. *)
Definition apart_from_pending (pending : list popjump) (jaddr next_addr : option Address)
  : bool :=
  match list_pop pending with
  | None => true
  | Some (_, (_, target, _, _)) =>
      negb (py_eq jaddr target) && negb (py_eq target next_addr)
  end.

(** The module made of the statement [if a < b < c: x]:
    [LOAD_NAME a; LOAD_NAME b; DUP_TOP; ROT_THREE; COMPARE_OP <;
    POP_JUMP_IF_FALSE 20; LOAD_NAME c; COMPARE_OP <;
    POP_JUMP_IF_FALSE 28; JUMP_FORWARD 4; POP_TOP; JUMP_FORWARD 4;
    LOAD_NAME x; POP_TOP; LOAD_CONST None; RETURN_VALUE]. *)
Definition if_chain_example : code_obj :=
  mk_code_obj
    (bytes [101; 0; 101; 1; 4; 0; 3; 0; 107; 0; 114; 20; 101; 2; 107; 0; 114; 28;
            110; 4; 1; 0; 110; 4; 101; 3; 1; 0; 100; 0; 83; 0])
    [VNone] ["a"; "b"; "c"; "x"]%string [] "<module>" 64 (bytes [24; 1]) 1.

(** Its code object before the analysis passes, with the decoded
    sequence and the empty lists of [Code.__init__]. *)
Definition if_chain_Code : Code :=
  Eval vm_compute in
    match Code_new (3, 7) if_chain_example with
    | Ok code => code
    | _ => Code_fields if_chain_example []
    end.

(** The module made of the assignment [x = a OP1 b OP2 c], for any
    names and the operators [cmp_op[i]] and [cmp_op[j]]:
    [LOAD_NAME a; LOAD_NAME b; DUP_TOP; ROT_THREE; COMPARE_OP i;
    JUMP_IF_FALSE_OR_POP 18; LOAD_NAME c; COMPARE_OP j; JUMP_FORWARD 4;
    ROT_TWO; POP_TOP; STORE_NAME x; LOAD_CONST None; RETURN_VALUE]. *)
Definition chain_value_module (na nb nc nx : string) (i j : Z) : code_obj :=
  mk_code_obj
    (bytes [101; 0; 101; 1; 4; 0; 3; 0; 107; i; 111; 18; 101; 2; 107; j; 110; 4;
            2; 0; 1; 0; 90; 3; 100; 0; 83; 0])
    [VNone] [na; nb; nc; nx] [] "<module>" 64 (bytes []) 1.

(** The module made of [x = a OP1 b OP2 c OP3 d], a comparison
    chained twice:
    [LOAD_NAME a; LOAD_NAME b; DUP_TOP; ROT_THREE; COMPARE_OP i;
    JUMP_IF_FALSE_OR_POP 28; LOAD_NAME c; DUP_TOP; ROT_THREE;
    COMPARE_OP j; JUMP_IF_FALSE_OR_POP 28; LOAD_NAME d; COMPARE_OP k;
    JUMP_FORWARD 4; ROT_TWO; POP_TOP; STORE_NAME x; LOAD_CONST None;
    RETURN_VALUE]. *)
Definition chain_of_three_module (na nb nc nd nx : string) (i j k : Z) : code_obj :=
  mk_code_obj
    (bytes [101; 0; 101; 1; 4; 0; 3; 0; 107; i; 111; 28; 101; 2; 4; 0; 3; 0; 107; j;
            111; 28; 101; 3; 107; k; 110; 4; 2; 0; 1; 0; 90; 4; 100; 0; 83; 0])
    [VNone] [na; nb; nc; nd; nx] [] "<module>" 64 (bytes []) 1.

(** The code object of [x = a < b < c] after [Code.__init__], and the
    executor of the module on it. *)
Definition chain_value_Code : Code :=
  Eval vm_compute in
    match Code_init (3, 7) (chain_value_module "a" "b" "c" "x" 0 0) with
    | Ok code => code
    | _ => Code_fields (chain_value_module "a" "b" "c" "x" 0 0) []
    end.

Definition chain_value_dec : SuiteDecompiler :=
  mkDec (mkAddress 0 0 LOAD_NAME 0) None Stack_init Suite_init [] []
        false false false (Some (mkAddress 13 26 RETURN_VALUE 0)) (-2).

(** The operands of [COMPARE_OP] that make a comparison: the indices
    of [cmp_op] before ['exception match']. *)
Definition comparison_operands : list Z := [0; 1; 2; 3; 4; 5; 6; 7; 8; 9].

(** [cmp_op[i]] for an index of [comparison_operands]. *)
Definition cmp_op_name (i : Z) : string := default ""%string (cmp_op !! Z.to_nat i).

(** After the first [k] addresses, the entry of a landing instruction
    that is no unconditional jump holds the last recorded branch to it
    among those [k]. *)
Definition last_branch_recorded (code : Code) (all : list Address) (k : nat)
           (jumps : gmap Z Address) : Prop :=
  forall (i : nat) b landing,
    (i < k)%nat -> all !! i = Some b ->
    else_landing code b = Some landing ->
    opcode landing <> JUMP_ABSOLUTE -> opcode landing <> JUMP_FORWARD ->
    (forall (j : nat) b' l', (i < j < k)%nat -> all !! j = Some b' ->
        else_landing code b' = Some l' -> index l' <> index landing) ->
    jumps !! index landing = Some b.

(** [code] holds the instruction sequence and the address map that
    [Code.__init__] makes from the code object [co]; the analysis
    passes and [proc_chained] change neither. *)
Definition decoded_from (version_info : Z * Z) (co : code_obj) (code : Code) : Prop :=
  exists code0,
    Code_new version_info co = Ok code0
    /\ instr_seq code = instr_seq code0
    /\ instr_map code = instr_map code0.

(** ** The meaning of conditions *)

(** The truth value of a condition as Python evaluates [not], [and]
    and [or], given the truth value [atom] of every other node. *)
Fixpoint truth (atom : PyExpr -> bool) (e : PyExpr) : bool :=
  match e with
  | PyNot operand => negb (truth atom operand)
  | PyBooleanAnd lhs rhs _ => truth atom lhs && truth atom rhs
  | PyBooleanOr lhs rhs _ => truth atom lhs || truth atom rhs
  | _ => atom e
  end.

(** A pending branch [(truthiness, addr, cond, _)] is taken when its
    condition has the truth value [truthiness]. *)
Definition taken (atom : PyExpr -> bool) (truthiness : bool) (cond : PyExpr) : bool :=
  Bool.eqb (truth atom cond) truthiness.

(** The pending entry [(_, target, _, _)] is one [push_popjump] merges
    with a branch to [jaddr] followed by the instruction [next_addr]:
    it has the same target, or its target is that next instruction. *)
Definition merges_with (jaddr next_addr : option Address) (entry : popjump) : bool :=
  let '(_, target, _, _) := entry in
  py_eq jaddr target || py_eq target next_addr.

(** When the branch made of merged entries and of a new branch is
    taken.  The entries are read from the top of the pending stack and
    [J] tells whether the new branch is taken.  An entry with the
    target of the new branch adds its own way to that target; an entry
    whose target is the instruction after the new branch, when taken,
    passes the new branch by. *)
Fixpoint merged_branch (atom : PyExpr -> bool) (top_first : list popjump)
         (jaddr : option Address) (J : bool) : bool :=
  match top_first with
  | [] => J
  | (truthiness, target, cond, _) :: below =>
      merged_branch atom below jaddr
        (if py_eq jaddr target
         then taken atom truthiness cond || J
         else negb (taken atom truthiness cond) && J)
  end.

(** [is_compare_is] raises on no condition of the entries. *)
Definition conditions_readable (entries : list popjump) : Prop :=
  Forall (fun entry : popjump =>
            let '(_, _, cond, _) := entry in
            exists b, is_compare_is cond = Ok b) entries.

(** The value of the node an operator class makes of two values. *)
Definition connective (m : bool_maker) (x y : bool) : bool :=
  match m with MakeAnd => x && y | MakeOr => x || y end.

(** The node of an operator class with the flag [push_popjump] gives
    to a merge of two branches of the same sense, and the word of the
    operator. *)
Definition chain_node (m : bool_maker) (lhs rhs : PyExpr) : PyExpr :=
  match m with
  | MakeAnd => PyBooleanAnd lhs rhs false
  | MakeOr => PyBooleanOr lhs rhs false
  end.
Definition connective_word (m : bool_maker) : string :=
  match m with MakeAnd => " and " | MakeOr => " or " end.
Definition connective_precedence (m : bool_maker) : Z :=
  match m with MakeAnd => 4 | MakeOr => 3 end.

(** Branches of the sense [truthiness] to the one target [jaddr],
    pushed one after the other: [(cond, original_jaddr)] for each. *)
Fixpoint push_branches (code : Code) (truthiness : bool) (jaddr : option Address)
         (branches : list (PyExpr * Address)) (dec : SuiteDecompiler)
  : res SuiteDecompiler :=
  match branches with
  | [] => Ok dec
  | (cond, a) :: rest =>
      dec ← push_popjump code truthiness jaddr cond a dec;
      push_branches code truthiness jaddr rest dec
  end.

(** A display function appends to the lines written so far, and what
    it appends does not depend on them. *)
Definition appends (f : list string -> list string) : Prop :=
  forall lines, f lines = lines ++ f [].

(** ** Searches along the instruction sequence ([Address.seek]) *)

(** The loop of [Address.seek]:
    [while a and a != end: if a.opcode in opcode: return a; a = a[increment]].
    With the increments [seek_forward] and [seek_back] pass, the cursor
    leaves the sequence within [len(instr_seq)] turns. *)
Fixpoint seek_loop (fuel : nat) (code : Code) (opcodes : list Z) (increment : Z)
         (end_ : option Address) (a : option Address) : res (option Address) :=
  match a with
  | None => Ok None
  | Some a' =>
      if Address_eq a' end_ then Ok None
      else if opcode_in (opcode a') opcodes then Ok (Some a')
      else match fuel with
           | O => OutOfFuel
           | S fuel' =>
               next ← Address_getitem code a' increment;
               seek_loop fuel' code opcodes increment end_ next
           end
  end.

(** [Address.seek(opcode, increment, end)]; a single opcode is passed
    as the list of one element. *)
Definition seek (code : Code) (self : Address) (opcodes : list Z) (increment : Z)
           (end_ : option Address) : res (option Address) :=
  if Address_eq self end_ then Ok None
  else
    a ← Address_getitem code self increment;
    seek_loop (length (instr_seq code)) code opcodes increment end_ a.

(** [Address.seek_back], [Address.seek_forward] *)
Definition seek_back (code : Code) (self : Address) (opcodes : list Z)
           (end_ : option Address) : res (option Address) :=
  seek code self opcodes (-1) end_.
Definition seek_forward (code : Code) (self : Address) (opcodes : list Z)
           (end_ : option Address) : res (option Address) :=
  seek code self opcodes 1 end_.

(** What a search from the index [base] in steps of [increment]
    returns: the instruction [k] steps away, the first that has one of
    the opcodes, with no instruction equal to [end] on the way or
    there; or nothing, when the steps reach [end] or leave the sequence
    before any instruction has one of the opcodes. *)
Definition first_match (code : Code) (opcodes : list Z) (increment : Z)
           (end_ : option Address) (base : Z) (r : option Address) : Prop :=
  exists k : Z,
    0 < k
    /\ (forall j c, 0 < j < k ->
          Code_getitem code (base + increment * j) = Ok (Some c) ->
          opcode_in (opcode c) opcodes = false /\ Address_eq c end_ = false)
    /\ match r with
       | Some b =>
           Code_getitem code (base + increment * k) = Ok (Some b)
           /\ opcode_in (opcode b) opcodes = true
           /\ Address_eq b end_ = false
       | None =>
           Code_getitem code (base + increment * k) = Ok None
           \/ exists c, Code_getitem code (base + increment * k) = Ok (Some c)
                        /\ Address_eq c end_ = true
       end.

(** [Address.last_loop_context]: of the loops [(start, _, end)] that
    hold the index, the one that starts last; [(-1, -1, -1)] where
    there is none. *)
Definition last_loop_context (code : Code) (self : Address) : Z * Z * Z :=
  fold_left
    (fun (lcontext : Z * Z * Z) (lcontexti : Z * Z * Z) =>
       let '(start, _, _) := lcontext in
       let '(starti, _, endi) := lcontexti in
       if (starti <=? index self) && (index self <=? endi) then
         if start <? starti then lcontexti else lcontext
       else lcontext)
    (loops code) (-1, -1, -1).

(** ** Statement instructions ([Address.is_statement], [Address.seek_stmt]) *)

Definition STORE_SUBSCR : Z := 60.
Definition DELETE_SUBSCR : Z := 61.
Definition YIELD_VALUE : Z := 86.
Definition DELETE_NAME : Z := 91.
Definition STORE_ATTR : Z := 95.
Definition DELETE_ATTR : Z := 96.
Definition DELETE_GLOBAL : Z := 98.
Definition IMPORT_NAME : Z := 108.
Definition IMPORT_FROM : Z := 109.
Definition DELETE_FAST : Z := 126.
Definition STORE_DEREF : Z := 137.
Definition DELETE_DEREF : Z := 138.

(** The opcodes that generate a statement. *)
Definition stmt_opcodes : list Z :=
  [SETUP_LOOP; BREAK_LOOP; CONTINUE_LOOP;
   SETUP_FINALLY; END_FINALLY;
   SETUP_EXCEPT; POP_EXCEPT;
   SETUP_WITH;
   POP_BLOCK;
   STORE_FAST; DELETE_FAST;
   STORE_DEREF; DELETE_DEREF;
   STORE_GLOBAL; DELETE_GLOBAL;
   STORE_NAME; DELETE_NAME;
   STORE_ATTR; DELETE_ATTR;
   IMPORT_NAME; IMPORT_FROM;
   RETURN_VALUE; YIELD_VALUE;
   RAISE_VARARGS;
   STORE_SUBSCR; DELETE_SUBSCR].

(** [Address.is_statement] *)
Definition is_statement (code : Code) (a : Address) : res bool :=
  if opcode_in (opcode a) stmt_opcodes
     || (opcode_in (opcode a) [JUMP_ABSOLUTE; JUMP_FORWARD]
         && existsb (Z.eqb (addr a)) (linemap code))
  then Ok true
  else if opcode a =? POP_TOP then
    prev ← Address_getitem code a (-1);
    match prev with
    | Some p =>
        if opcode_in (opcode p) [JUMP_ABSOLUTE; JUMP_FORWARD; ROT_TWO]
        then Ok false else Ok true
    | None => Ok true
    end
  else if opcode_in (opcode a) pop_jump_if_opcodes then
    j ← jump code a;
    next ← Address_getitem code a 1;
    Ok (py_eq j next)
  else Ok false.

(** The loop of [Address.seek_stmt]:
    [while a and (end is None or a < end): if a.is_statement: return a; a = a[1]] *)
Fixpoint seek_stmt_loop (fuel : nat) (code : Code) (end_ : option Address)
         (a : option Address) : res (option Address) :=
  match a with
  | None => Ok None
  | Some a' =>
      if Address_lt a' end_ then
        s ← is_statement code a';
        if (s : bool) then Ok (Some a')
        else match fuel with
             | O => OutOfFuel
             | S fuel' =>
                 next ← Address_getitem code a' 1;
                 seek_stmt_loop fuel' code end_ next
             end
      else Ok None
  end.

(** [Address.seek_stmt(end)] *)
Definition seek_stmt (code : Code) (self : Address) (end_ : option Address)
  : res (option Address) :=
  seek_stmt_loop (length (instr_seq code)) code end_ (Some self).

(** What [seek_stmt] yields from the index [base]: after [k]
    instructions before [end] that are no statements, a statement
    before [end]; nothing, where [end] or the end of the sequence comes
    first; or the [KeyError] of a conditional branch whose target is no
    address of an instruction. *)
Definition first_statement (code : Code) (end_ : option Address) (base : Z)
           (r : res (option Address)) : Prop :=
  exists k : Z,
    0 <= k
    /\ (forall j, 0 <= j < k ->
          exists c, Code_getitem code (base + j) = Ok (Some c)
                    /\ Address_lt c end_ = true
                    /\ is_statement code c = Ok false)
    /\ match r with
       | Ok (Some b) =>
           Code_getitem code (base + k) = Ok (Some b)
           /\ Address_lt b end_ = true
           /\ is_statement code b = Ok true
       | Ok None =>
           Code_getitem code (base + k) = Ok None
           \/ exists c, Code_getitem code (base + k) = Ok (Some c)
                        /\ Address_lt c end_ = false
       | Raise e =>
           e = KeyError
           /\ exists c, Code_getitem code (base + k) = Ok (Some c)
                        /\ Address_lt c end_ = true
                        /\ opcode_in (opcode c) pop_jump_if_opcodes = true
                        /\ instr_map code !! arg c = None
       | _ => False
       end.

(** ** What [proc_chained] does to the code object *)

(** [code'] is [code] with addresses appended to its four lists of
    chained and ternary branches, and nothing else changed. *)
Definition only_appended (code code' : Code) : Prop :=
  exists s i e t : list Address,
    code' = set_chained_jumps code
              (start_chained_jumps code ++ s) (inner_chained_jumps code ++ i)
              (end_chained_jumps code ++ e) (ternaryop_jumps code ++ t).

(** The exceptions the passes over the instructions raise on bytecode
    that breaks off or branches to no instruction. *)
Definition analysis_error (e : exn) : Prop :=
  e = AttributeError \/ e = TypeError \/ e = KeyError.

(** A chained comparison found from the branch [a]: the lists
    appended to, [a] put on the list of starts, and the branch [a']
    returned put last on the list of ends, later in the code. *)
Definition chain_found (code : Code) (a : Address) (code' : Code) (a' : Address)
  : Prop :=
  only_appended code code'
  /\ (exists rest, start_chained_jumps code' = start_chained_jumps code ++ a :: rest)
  /\ (exists pre, end_chained_jumps code' = pre ++ [a'])
  /\ opcode_in (opcode a') pop_jump_if_opcodes = true
  /\ index a < index a'
  /\ Code_getitem code (index a') = Ok (Some a').

(** The outcome of the loop of [proc_chained] entered at [cur]. *)
Definition scan_result (code : Code) (cur : option Address)
           (r : res (Code * Address)) : Prop :=
  match r with
  | Ok (code', a') =>
      only_appended code code'
      /\ (exists pre, end_chained_jumps code' = pre ++ [a'])
      /\ opcode_in (opcode a') pop_jump_if_opcodes = true
      /\ Code_getitem code (index a') = Ok (Some a')
      /\ exists c, cur = Some c /\ index c <= index a'
  | Raise e => analysis_error e
  | NotEmbedded _ | OutOfFuel => False
  end.

(** The outcome of [proc_chained] called on [a]. *)
Definition proc_result (code : Code) (a : Address) (r : res (Code * Address))
  : Prop :=
  match r with
  | Ok (code', a') =>
      (after_comparison_triplet code a = Ok false /\ code' = code /\ a' = a)
      \/ (after_comparison_triplet code a = Ok true /\ chain_found code a code' a')
  | Raise e => analysis_error e
  | NotEmbedded _ | OutOfFuel => False
  end.

(** * Properties *)

(** Boolean comparisons on [Z] as propositions, for [lia]. *)
Ltac zbool :=
  repeat match goal with
  | H : (_ <? _) = true |- _ => apply Z.ltb_lt in H
  | H : (_ <? _) = false |- _ => apply Z.ltb_ge in H
  | H : (_ <=? _) = true |- _ => apply Z.leb_le in H
  | H : (_ <=? _) = false |- _ => apply Z.leb_gt in H
  | H : (_ =? _) = true |- _ => apply Z.eqb_eq in H
  | H : (_ =? _) = false |- _ => apply Z.eqb_neq in H
  | H : (_ >? _) = true |- _ => rewrite Z.gtb_ltb in H
  | H : (_ >? _) = false |- _ => rewrite Z.gtb_ltb in H
  end.
Ltac zlia := zbool; lia.

(** Reduce the binds of the [res] monad in a hypothesis and drop the
    cases that raised. *)
Ltac rbind H :=
  cbn [mbind res_bind mret res_ret option_bind] in H; try discriminate H.

(** ** Python list primitives *)

Lemma list_pop_snoc {A : Type} (l : list A) (x : A) :
  list_pop (l ++ [x]) = Some (l, x).
Proof.
  induction l as [|a l IH]; simpl; [reflexivity|].
  rewrite IH. reflexivity.
Qed.

Lemma list_pop_Some {A : Type} (l l' : list A) (x : A) :
  list_pop l = Some (l', x) -> l = l' ++ [x].
Proof.
  revert l'. induction l as [|a l IH]; intros l' H; simpl in H; [discriminate|].
  destruct (list_pop l) as [[t y]|] eqn:E.
  - inversion H; subst. simpl. f_equal. apply IH. reflexivity.
  - inversion H; subst. destruct l; [reflexivity|].
    simpl in E. destruct (list_pop l); [destruct p|]; discriminate.
Qed.

Lemma list_pop_nil_inv {A : Type} (l : list A) : list_pop l = None -> l = [].
Proof.
  destruct l; [reflexivity|]. simpl.
  destruct (list_pop l) as [[? ?]|]; discriminate.
Qed.

(** ** The operand stack *)

Section StackProps.
Context {obj : Type} (id : obj -> Z).

#[local] Abbreviation occ := (occurrences id).
#[local] Abbreviation inv := (stack_inv id).

Lemma occurrences_nil k : occ k [] = 0.
Proof. reflexivity. Qed.

Lemma occurrences_app k (l1 l2 : list obj) :
  occ k (l1 ++ l2) = occ k l1 + occ k l2.
Proof.
  unfold occurrences. rewrite filter_app, length_app. lia.
Qed.

Lemma occurrences_one k (v : obj) :
  occ k [v] = if decide (id v = k) then 1 else 0.
Proof.
  unfold occurrences. rewrite filter_cons, filter_nil.
  destruct (decide (id v = k)); reflexivity.
Qed.

Lemma occurrences_nonneg k (l : list obj) : 0 <= occ k l.
Proof. unfold occurrences. lia. Qed.

Lemma occurrences_pos_iff k (l : list obj) :
  0 < occ k l <-> exists o, o ∈ l /\ id o = k.
Proof.
  induction l as [|a l IH].
  - rewrite occurrences_nil. split; [lia|]. intros (o & Ho & _). inversion Ho.
  - change (a :: l) with ([a] ++ l). rewrite occurrences_app, occurrences_one.
    pose proof (occurrences_nonneg k l) as Hn.
    destruct (decide (id a = k)) as [E|E].
    + split; [|lia]. intros _. exists a. split; [left|exact E].
    + rewrite Z.add_0_l, IH. split.
      * intros (o & Ho & Hk). exists o. split; [right; exact Ho|exact Hk].
      * intros (o & Ho & Hk). exists o. split; [|exact Hk].
        apply elem_of_cons in Ho as [->|Ho]; [contradiction|exact Ho].
Qed.

Lemma Stack_init_inv : inv (@Stack_init obj).
Proof. intros k. simpl. rewrite lookup_empty. reflexivity. Qed.

Lemma get_count_inv (s : Stack obj) (o : obj) :
  inv s -> get_count id s o = occ (id o) (_stack s).
Proof. intros H. apply H. Qed.

(** Pushing one value under the invariant. *)
Lemma push_one_inv (s : Stack obj) (v : obj) :
  inv s ->
  set_count id v (get_count id s v + 1) s
  = (Ok tt, mkStack (_stack s) (<[id v := get_count id s v + 1]> (_counts s)))
  /\ inv (mkStack (_stack s ++ [v]) (<[id v := get_count id s v + 1]> (_counts s))).
Proof.
  intros H. pose proof (occurrences_nonneg (id v) (_stack s)) as Hn.
  rewrite (get_count_inv s v H). split.
  - unfold set_count.
    destruct (occ (id v) (_stack s) + 1 =? 0) eqn:E; [lia|reflexivity].
  - intros k. simpl. rewrite occurrences_app, occurrences_one.
    destruct (decide (id v = k)) as [<-|Hne].
    + rewrite lookup_insert_eq. reflexivity.
    + rewrite lookup_insert_ne by exact Hne. rewrite (H k). lia.
Qed.

Lemma push_inv (args : list obj) (s : Stack obj) :
  inv s ->
  exists s', push id args s = (Ok tt, s') /\ inv s'
    /\ _stack s' = _stack s ++ args
    /\ forall o, get_count id s' o = get_count id s o + occ (id o) args.
Proof.
  revert s. induction args as [|v args IH]; intros s H.
  - exists s. simpl. rewrite app_nil_r. repeat split; try assumption.
    intros o. rewrite occurrences_nil. lia.
  - destruct (push_one_inv s v H) as [E H1]. simpl. rewrite E. simpl.
    destruct (IH _ H1) as (s' & Ep & Hs' & Hst & Hc).
    exists s'. repeat split; try assumption.
    + rewrite Hst. simpl. rewrite <- app_assoc. reflexivity.
    + intros o. rewrite Hc. rewrite (get_count_inv _ o H1), (get_count_inv s o H).
      simpl. change (v :: args) with ([v] ++ args).
      rewrite !occurrences_app. lia.
Qed.

Lemma pop1_inv (s : Stack obj) (l : list obj) (v : obj) :
  inv s -> _stack s = l ++ [v] ->
  exists s', pop1 id s = (Ok v, s') /\ inv s' /\ _stack s' = l
    /\ forall o, get_count id s' o = get_count id s o - occ (id o) [v].
Proof.
  intros H Hst. unfold pop1. rewrite Hst, list_pop_snoc.
  pose proof (H (id v)) as Hv. rewrite Hst, occurrences_app, occurrences_one in Hv.
  destruct (decide (id v = id v)) as [_|]; [|contradiction].
  pose proof (occurrences_nonneg (id v) l) as Hn.
  assert (Hg : get_count id (mkStack l (_counts s)) v = occ (id v) l + 1) by exact Hv.
  rewrite Hg. replace (occ (id v) l + 1 - 1) with (occ (id v) l) by lia.
  assert (Hrest : forall c', (forall k, default 0 (c' !! k)
             = if decide (id v = k) then occ k l else default 0 (_counts s !! k)) ->
          inv (mkStack l c') /\ forall o, get_count id (mkStack l c') o
             = get_count id s o - occ (id o) [v]).
  { intros c' Hc'. split.
    - intros k. simpl. rewrite Hc'. destruct (decide (id v = k)) as [<-|Hne]; [reflexivity|].
      rewrite (H k), Hst, occurrences_app, occurrences_one.
      destruct (decide (id v = k)); [contradiction|lia].
    - intros o. unfold get_count at 1. simpl. rewrite Hc'.
      rewrite (get_count_inv s o H), Hst, occurrences_app.
      destruct (decide (id v = id o)) as [E|Hne].
      + rewrite <- E. lia.
      + rewrite occurrences_one. destruct (decide (id v = id o)); [contradiction|].
        rewrite <- (Z.add_0_r (default 0 _)). rewrite (H (id o)), Hst, occurrences_app, occurrences_one.
        destruct (decide (id v = id o)); [contradiction|lia]. }
  unfold set_count. simpl.
  destruct (occ (id v) l =? 0) eqn:E; simpl.
  - apply Z.eqb_eq in E.
    destruct (_counts s !! id v) as [c|] eqn:Ec; [|simpl in Hv; lia].
    eexists. split; [reflexivity|].
    destruct (Hrest (delete (id v) (_counts s))) as [Hi Hc].
    { intros k. destruct (decide (id v = k)) as [<-|Hne].
      - rewrite lookup_delete_eq. simpl. lia.
      - rewrite lookup_delete_ne by exact Hne. reflexivity. }
    repeat split; assumption.
  - eexists. split; [reflexivity|].
    destruct (Hrest (<[id v := occ (id v) l]> (_counts s))) as [Hi Hc].
    { intros k. destruct (decide (id v = k)) as [<-|Hne].
      - rewrite lookup_insert_eq. reflexivity.
      - rewrite lookup_insert_ne by exact Hne. reflexivity. }
    repeat split; assumption.
Qed.

Lemma pop1_empty (s : Stack obj) :
  _stack s = [] -> pop1 id s = (Raise (Exception "Empty stack popped!"), s).
Proof. intros H. unfold pop1. rewrite H. reflexivity. Qed.

Lemma pop_range_inv (vs : list obj) : forall (l acc : list obj) (s : Stack obj),
  inv s -> _stack s = l ++ vs ->
  exists s', pop_range id (length vs) acc s = (Ok (acc ++ rev vs), s') /\ inv s'
    /\ _stack s' = l
    /\ forall o, get_count id s' o = get_count id s o - occ (id o) vs.
Proof.
  induction vs as [|v vs IH] using rev_ind; intros l acc s H Hst.
  - exists s. simpl. rewrite !app_nil_r in *. repeat split; try assumption.
    intros o. rewrite occurrences_nil. lia.
  - rewrite app_assoc in Hst.
    destruct (pop1_inv s _ v H Hst) as (s1 & E1 & H1 & Hst1 & Hc1).
    rewrite length_app, Nat.add_comm. simpl. rewrite E1.
    destruct (IH l (acc ++ [v]) s1 H1 Hst1) as (s' & E' & H' & Hst' & Hc').
    exists s'. rewrite E', rev_app_distr, <- app_assoc. simpl.
    repeat split; try assumption.
    intros o. rewrite Hc', Hc1, occurrences_app. lia.
Qed.

Lemma pop_range_underflow (n : nat) : forall (acc : list obj) (s : Stack obj),
  inv s -> (length (_stack s) < n)%nat ->
  exists s', pop_range id n acc s = (Raise (Exception "Empty stack popped!"), s')
    /\ inv s' /\ _stack s' = [].
Proof.
  induction n as [|n IH]; intros acc s H Hlen; [lia|].
  simpl. destruct (list_pop (_stack s)) as [[l v]|] eqn:E.
  - apply list_pop_Some in E.
    destruct (pop1_inv s l v H E) as (s1 & E1 & H1 & Hst1 & _).
    rewrite E1. apply IH; [exact H1|].
    rewrite Hst1. rewrite E, length_app in Hlen. simpl in Hlen. lia.
  - apply list_pop_nil_inv in E. rewrite (pop1_empty s E).
    exists s. repeat split; assumption.
Qed.

Lemma pop_many_inv (s : Stack obj) (l vs : list obj) :
  inv s -> _stack s = l ++ vs ->
  exists s', pop id (Some (Z.of_nat (length vs))) s = (Ok (Many vs), s') /\ inv s'
    /\ _stack s' = l
    /\ forall o, get_count id s' o = get_count id s o - occ (id o) vs.
Proof.
  intros H Hst. unfold pop. rewrite Nat2Z.id.
  destruct (pop_range_inv vs l [] s H Hst) as (s' & E & H' & Hst' & Hc).
  exists s'. rewrite E. simpl. rewrite rev_involutive. repeat split; assumption.
Qed.

Lemma call_state_inv (c : stack_call obj) (s : Stack obj) :
  inv s -> inv (call_state id c s).
Proof.
  intros H. destruct c as [args| |count|count]; simpl.
  - destruct (push_inv args s H) as (s' & E & H' & _). rewrite E. exact H'.
  - destruct (list_pop (_stack s)) as [[l v]|] eqn:E.
    + apply list_pop_Some in E.
      destruct (pop1_inv s l v H E) as (s' & E' & H' & _). rewrite E'. exact H'.
    + apply list_pop_nil_inv in E. rewrite (pop1_empty s E). exact H.
  - destruct count as [c|]; unfold pop.
    + destruct (le_lt_dec (Z.to_nat c) (length (_stack s))) as [Hle|Hlt].
      * pose proof (take_drop (length (_stack s) - Z.to_nat c) (_stack s)) as Hsplit.
        symmetry in Hsplit.
        destruct (pop_range_inv _ _ [] s H Hsplit) as (s' & E' & H' & _).
        rewrite length_drop in E'.
        replace (length (_stack s) - (length (_stack s) - Z.to_nat c))%nat
          with (Z.to_nat c) in E' by lia.
        rewrite E'. exact H'.
      * destruct (pop_range_underflow (Z.to_nat c) [] s H Hlt) as (s' & E' & H' & _).
        rewrite E'. exact H'.
    + destruct (list_pop (_stack s)) as [[l v]|] eqn:E.
      * apply list_pop_Some in E.
        destruct (pop1_inv s l v H E) as (s' & E' & H' & _). rewrite E'. exact H'.
      * apply list_pop_nil_inv in E. rewrite (pop1_empty s E). exact H.
  - destruct count as [c|]; simpl; [exact H|].
    destruct (py_index (_stack s) (-1)); exact H.
Qed.

Lemma calls_state_inv (cs : list (stack_call obj)) (s : Stack obj) :
  inv s -> inv (calls_state id cs s).
Proof.
  revert s. induction cs as [|c cs IH]; intros s H; [exact H|].
  simpl. apply IH, call_state_inv, H.
Qed.

Lemma peek_state (count : option Z) (s : Stack obj) : snd (peek count s) = s.
Proof.
  destruct count; simpl; [reflexivity|].
  destruct (py_index (_stack s) (-1)); reflexivity.
Qed.

(** C10.  In every state the stack can reach from [Stack()] by a
    sequence of [push], [pop1], [pop] and [peek] calls, the count
    recorded for an object is its number of occurrences in the stack;
    [push] raises the count of each pushed value by one per occurrence,
    [pop1] and [pop] return the top values and lower their counts by
    one per popped occurrence, [peek] changes nothing, [val in stack]
    holds exactly when the count is positive, that is when the object
    occurs in the stack, and popping the empty stack raises
    [Exception('Empty stack popped!')]. *)
Theorem Stack_counts_match_occurrences (cs : list (stack_call obj)) :
  let s := calls_state id cs Stack_init in
  (forall o, get_count id s o = occ (id o) (_stack s))
  /\ (forall args, exists s',
        push id args s = (Ok tt, s') /\ _stack s' = _stack s ++ args
        /\ (forall o, get_count id s' o = get_count id s o + occ (id o) args)
        /\ forall o, get_count id s' o = occ (id o) (_stack s'))
  /\ (forall l v, _stack s = l ++ [v] -> exists s',
        pop1 id s = (Ok v, s') /\ pop id None s = (Ok (One v), s')
        /\ _stack s' = l
        /\ get_count id s' v = get_count id s v - 1
        /\ (forall o, id o <> id v -> get_count id s' o = get_count id s o)
        /\ forall o, get_count id s' o = occ (id o) (_stack s'))
  /\ (forall l vs, _stack s = l ++ vs -> exists s',
        pop id (Some (Z.of_nat (length vs))) s = (Ok (Many vs), s')
        /\ _stack s' = l
        /\ (forall o, get_count id s' o = get_count id s o - occ (id o) vs)
        /\ forall o, get_count id s' o = occ (id o) (_stack s'))
  /\ (forall count, snd (peek count s) = s)
  /\ (forall val, Stack_contains id s val = true <-> 0 < get_count id s val)
  /\ (forall val, Stack_contains id s val = true
        <-> exists o, o ∈ _stack s /\ id o = id val)
  /\ (_stack s = [] ->
        pop1 id s = (Raise (Exception "Empty stack popped!"), s)
        /\ pop id None s = (Raise (Exception "Empty stack popped!"), s)
        /\ forall c, 0 < c ->
             pop id (Some c) s = (Raise (Exception "Empty stack popped!"), s)).
Proof.
  intros s.
  assert (H : inv s) by (apply calls_state_inv, Stack_init_inv).
  split; [exact (fun o => get_count_inv s o H)|].
  split.
  { intros args. destruct (push_inv args s H) as (s' & E & H' & Hst & Hc).
    exists s'. repeat split; try assumption. intros o. apply (get_count_inv s' o H'). }
  split.
  { intros l v Hst. destruct (pop1_inv s l v H Hst) as (s' & E & H' & Hst' & Hc).
    exists s'. unfold pop. rewrite E. repeat split; try assumption.
    - rewrite Hc, occurrences_one. destruct (decide (id v = id v)); [lia|contradiction].
    - intros o Hne. rewrite Hc, occurrences_one.
      destruct (decide (id v = id o)) as [E'|_]; [symmetry in E'; contradiction|lia].
    - intros o. apply (get_count_inv s' o H'). }
  split.
  { intros l vs Hst. destruct (pop_many_inv s l vs H Hst) as (s' & E & H' & Hst' & Hc).
    exists s'. repeat split; try assumption. intros o. apply (get_count_inv s' o H'). }
  split; [intros count; apply peek_state|].
  split.
  { intros val. unfold Stack_contains. rewrite Z.gtb_ltb, Z.ltb_lt. reflexivity. }
  split.
  { intros val. unfold Stack_contains.
    rewrite Z.gtb_ltb, Z.ltb_lt, (get_count_inv s val H). apply occurrences_pos_iff. }
  intros Hempty. pose proof (pop1_empty s Hempty) as E.
  split; [exact E|]. split; [unfold pop; rewrite E; reflexivity|].
  intros c Hc. unfold pop.
  destruct (Z.to_nat c) as [|n] eqn:En; [lia|].
  simpl. rewrite E. reflexivity.
Qed.

End StackProps.

(** ** The decode pass *)

Lemma py_index_drop {A : Type} (l : list A) (p : nat) :
  py_index l (Z.of_nat p)
  = match drop p l with x :: _ => Ok x | [] => Raise IndexError end.
Proof.
  unfold py_index.
  destruct (Z.of_nat p <? 0) eqn:E0; [zlia|].
  destruct (drop p l) as [|x r] eqn:Ed.
  - assert (length l <= p)%nat.
    { rewrite <- (take_drop p l) at 1. rewrite Ed, app_nil_r, length_take. lia. }
    destruct (Z.of_nat p <? Z.of_nat (length l)) eqn:E1; [zlia|].
    rewrite andb_false_r. reflexivity.
  - assert (Hl : l !! p = Some x).
    { rewrite <- (Nat.add_0_r p), <- lookup_drop, Ed. reflexivity. }
    pose proof (lookup_lt_Some _ _ _ Hl).
    destruct (0 <=? Z.of_nat p) eqn:E2; [|zlia].
    destruct (Z.of_nat p <? Z.of_nat (length l)) eqn:E1; [|zlia].
    simpl. rewrite Nat2Z.id, Hl. reflexivity.
Qed.

Lemma code_at_drop (code : list Byte.byte) (p : nat) (z : Z) :
  z = Z.of_nat p ->
  code_at code z
  = match drop p code with b :: _ => Ok (byte_val b) | [] => Raise IndexError end.
Proof.
  intros ->. unfold code_at. rewrite py_index_drop.
  destruct (drop p code); reflexivity.
Qed.

Lemma drop_cons_next {A : Type} (l r : list A) (x : A) (p : nat) :
  drop p l = x :: r -> drop (S p) l = r /\ (p < length l)%nat.
Proof.
  intros H. split.
  - rewrite <- (Nat.add_1_l p), Nat.add_comm, <- drop_drop, H. reflexivity.
  - destruct (le_lt_dec (length l) p) as [Hle|Hlt]; [|exact Hlt].
    rewrite drop_ge in H by exact Hle. discriminate.
Qed.

Lemma drop_nil_ge {A : Type} (l : list A) (p : nat) :
  drop p l = [] -> (length l <= p)%nat.
Proof.
  intros H. rewrite <- (take_drop p l) at 1.
  rewrite H, app_nil_r, length_take. lia.
Qed.

(** The two loops of [code_walker], at a position [p] of the array,
    compute what the contract says of the bytes from [p] on: the outer
    loop between instructions, the inner loop inside a run of prefixes
    that started at [start]. *)
Lemma walk_wordcode_refines (code : list Byte.byte) (n : nat) : forall p : nat,
  (length (drop p code) <= n)%nat ->
  (forall fuel, (length (drop p code) < fuel)%nat ->
     walk_wordcode fuel code (Z.of_nat p)
     = fold_prefixes (Z.of_nat p) None (drop p code))
  /\ (forall start acc fe fw,
        (length (drop p code) < fe)%nat -> (length (drop p code) < fw)%nat ->
        match extended_args fe code start EXTENDED_ARG acc (Z.of_nat p - start) with
        | Ok (op, oparg, offset) =>
            let '(rest, r) := walk_wordcode fw code (start + offset) in
            ((start, (op, oparg)) :: rest, r)
        | Raise e => ([], Raise e)
        | NotEmbedded o => ([], NotEmbedded o)
        | OutOfFuel => ([], OutOfFuel)
        end
        = fold_prefixes (Z.of_nat p) (Some (start, acc)) (drop p code)).
Proof.
  induction n as [|n IH]; intros p Hn.
  - destruct (drop p code) as [|x r] eqn:Ed; [|simpl in Hn; lia].
    pose proof (drop_nil_ge _ _ Ed) as Hge. split.
    + intros fuel _. destruct fuel; simpl;
        destruct (Z.of_nat p <? Z.of_nat (length code)) eqn:E; try zlia; reflexivity.
    + intros start acc fe fw Hfe _. destruct fe as [|fe]; [simpl in Hfe; lia|].
      simpl. rewrite (code_at_drop code p (start + (Z.of_nat p - start))) by lia. rewrite Ed. reflexivity.
  - destruct (drop p code) as [|op [|arg rest]] eqn:Ed.
    + pose proof (drop_nil_ge _ _ Ed) as Hge. split.
      * intros fuel _. destruct fuel; simpl;
          destruct (Z.of_nat p <? Z.of_nat (length code)) eqn:E; try zlia; reflexivity.
      * intros start acc fe fw Hfe _. destruct fe as [|fe]; [simpl in Hfe; lia|].
        simpl. rewrite (code_at_drop code p (start + (Z.of_nat p - start))) by lia. rewrite Ed. reflexivity.
    + destruct (drop_cons_next _ _ _ _ Ed) as [Ed1 Hlt]. split.
      * intros fuel Hf. destruct fuel as [|fuel]; [simpl in Hf; lia|].
        simpl. destruct (Z.of_nat p <? Z.of_nat (length code)) eqn:E; [|zlia].
        rewrite (code_at_drop code p (Z.of_nat p)) by lia. rewrite Ed. simpl.
        rewrite (code_at_drop code (S p) (Z.of_nat p + 1)) by lia. rewrite Ed1. reflexivity.
      * intros start acc fe fw Hfe _. destruct fe as [|fe]; [simpl in Hfe; lia|].
        simpl. rewrite (code_at_drop code p (start + (Z.of_nat p - start))) by lia. rewrite Ed. simpl.
        rewrite (code_at_drop code (S p) (start + (Z.of_nat p - start) + 1)) by lia. rewrite Ed1. reflexivity.
    + destruct (drop_cons_next _ _ _ _ Ed) as [Ed1 Hlt].
      destruct (drop_cons_next _ _ _ _ Ed1) as [Ed2 _].
      simpl in Hn.
      assert (Hn2 : (length (drop (S (S p)) code) <= n)%nat) by (rewrite Ed2; lia).
      destruct (IH (S (S p)) Hn2) as [IHw IHe]. rewrite Ed2 in IHw, IHe.
      split.
      * intros fuel Hf. destruct fuel as [|fuel]; [simpl in Hf; lia|]. simpl in Hf.
        cbn [walk_wordcode].
        destruct (Z.of_nat p <? Z.of_nat (length code)) eqn:E; [|zlia].
        rewrite (code_at_drop code p (Z.of_nat p)) by lia. rewrite Ed.
        cbn [mbind res_bind].
        rewrite (code_at_drop code (S p) (Z.of_nat p + 1)) by lia. rewrite Ed1.
        cbn [mbind res_bind fold_prefixes].
        rewrite Z.shiftl_0_l, Z.lor_0_l.
        destruct (byte_val op =? EXTENDED_ARG) eqn:Eop.
        -- apply Z.eqb_eq in Eop. rewrite Eop.
           specialize (IHe (Z.of_nat p) (byte_val arg) fuel fuel).
           replace (Z.of_nat (S (S p)) - Z.of_nat p) with 2 in IHe by lia.
           replace (Z.of_nat p + 2) with (Z.of_nat (S (S p))) by lia.
           apply IHe; lia.
        -- destruct fuel as [|fuel]; [zlia|].
           cbn [extended_args]. rewrite Eop.
           replace (Z.of_nat p + 2) with (Z.of_nat (S (S p))) by lia.
           rewrite IHw by lia. reflexivity.
      * intros start acc fe fw Hfe Hfw. destruct fe as [|fe]; [simpl in Hfe; lia|].
        simpl in Hfe, Hfw.
        cbn [extended_args]. rewrite Z.eqb_refl.
        rewrite (code_at_drop code p (start + (Z.of_nat p - start))) by lia. rewrite Ed.
        cbn [mbind res_bind].
        rewrite (code_at_drop code (S p) (start + (Z.of_nat p - start) + 1)) by lia. rewrite Ed1.
        cbn [mbind res_bind fold_prefixes].
        destruct (byte_val op =? EXTENDED_ARG) eqn:Eop.
        -- apply Z.eqb_eq in Eop. rewrite Eop.
           specialize (IHe start (Z.lor (Z.shiftl acc 8) (byte_val arg)) fe fw).
           replace (Z.of_nat (S (S p)) - start) with (Z.of_nat p - start + 2) in IHe by lia.
           replace (Z.of_nat p + 2) with (Z.of_nat (S (S p))) by lia.
           apply IHe; lia.
        -- destruct fe as [|fe]; cbn [extended_args]; rewrite Eop;
             replace (start + (Z.of_nat p - start + 2)) with (Z.of_nat (S (S p))) by lia;
             rewrite IHw by lia;
             replace (Z.of_nat p + 2) with (Z.of_nat (S (S p))) by lia; reflexivity.
Qed.

Lemma list_pair_ind {A : Type} (P : list A -> Prop) :
  P [] -> (forall x, P [x]) -> (forall x y l, P l -> P (x :: y :: l)) ->
  forall l, P l.
Proof.
  intros H0 H1 H2.
  assert (H : forall l, P l /\ forall x, P (x :: l)).
  { induction l as [|a l [IHa IHb]]; split; auto. }
  intros l. apply H.
Qed.

Lemma fold_prefixes_exposes_no_prefix (code : list Byte.byte) : forall pos run,
  Forall (fun ins : instr => fst (snd ins) <> EXTENDED_ARG)
         (fst (fold_prefixes pos run code)).
Proof.
  induction code as [|x|op arg rest IH] using list_pair_ind; intros pos run.
  - constructor.
  - constructor.
  - cbn [fold_prefixes].
    destruct (match run with None => (pos, 0) | Some r => r end) as [start acc].
    destruct (byte_val op =? EXTENDED_ARG) eqn:E; [apply IH|].
    destruct (fold_prefixes (pos + 2) None rest) as [ys r] eqn:Ef.
    simpl. constructor.
    + simpl. zlia.
    + specialize (IH (pos + 2) None). rewrite Ef in IH. exact IH.
Qed.

Lemma fold_prefixes_ends (code : list Byte.byte) : forall pos run,
  snd (fold_prefixes pos run code) = Ok tt
  \/ snd (fold_prefixes pos run code) = Raise IndexError.
Proof.
  induction code as [|x|op arg rest IH] using list_pair_ind; intros pos run.
  - destruct run; simpl; auto.
  - simpl. auto.
  - cbn [fold_prefixes].
    destruct (match run with None => (pos, 0) | Some r => r end) as [start acc].
    destruct (byte_val op =? EXTENDED_ARG) eqn:E; [apply IH|].
    destruct (fold_prefixes (pos + 2) None rest) as [ys r] eqn:Ef.
    specialize (IH (pos + 2) None). rewrite Ef in IH. exact IH.
Qed.

(** A run of prefixes followed by an instruction decodes to that one
    instruction, at the address of the first prefix, with the widened
    operand. *)
Lemma fold_prefixes_run (exts : list Byte.byte) : forall pos start acc op arg rest,
  byte_val op <> EXTENDED_ARG ->
  fold_prefixes pos (Some (start, acc)) (prefix_units exts ++ op :: arg :: rest)
  = ((start, (byte_val op, widen acc exts arg))
       :: fst (fold_prefixes (pos + 2 * Z.of_nat (length exts) + 2) None rest),
     snd (fold_prefixes (pos + 2 * Z.of_nat (length exts) + 2) None rest)).
Proof.
  induction exts as [|e exts IH]; intros pos start acc op arg rest Hop.
  - cbn [prefix_units flat_map app fold_prefixes length].
    destruct (byte_val op =? EXTENDED_ARG) eqn:E; [zlia|].
    replace (pos + 2 * Z.of_nat 0 + 2) with (pos + 2) by lia.
    destruct (fold_prefixes (pos + 2) None rest). reflexivity.
  - cbn [prefix_units flat_map app fold_prefixes].
    change (byte_val Byte.x90 =? EXTENDED_ARG) with true. cbn iota.
    change (flat_map (fun e0 => [Byte.x90; e0]) exts) with (prefix_units exts).
    rewrite IH by exact Hop.
    replace (pos + 2 + 2 * Z.of_nat (length exts) + 2)
      with (pos + 2 * Z.of_nat (length (e :: exts)) + 2) by (simpl length; lia).
    reflexivity.
Qed.

Lemma fold_prefixes_first (exts : list Byte.byte) pos op arg rest :
  byte_val op <> EXTENDED_ARG ->
  fold_prefixes pos None (prefix_units exts ++ op :: arg :: rest)
  = ((pos, (byte_val op, widen 0 exts arg))
       :: fst (fold_prefixes (pos + 2 * Z.of_nat (length exts) + 2) None rest),
     snd (fold_prefixes (pos + 2 * Z.of_nat (length exts) + 2) None rest)).
Proof.
  intros Hop. destruct exts as [|e exts].
  - cbn [prefix_units flat_map app fold_prefixes length].
    destruct (byte_val op =? EXTENDED_ARG) eqn:E; [zlia|].
    replace (pos + 2 * Z.of_nat 0 + 2) with (pos + 2) by lia.
    destruct (fold_prefixes (pos + 2) None rest). reflexivity.
  - cbn [prefix_units flat_map app fold_prefixes].
    change (byte_val Byte.x90 =? EXTENDED_ARG) with true. cbn iota.
    change (flat_map (fun e0 => [Byte.x90; e0]) exts) with (prefix_units exts).
    rewrite fold_prefixes_run by exact Hop.
    replace (pos + 2 + 2 * Z.of_nat (length exts) + 2)
      with (pos + 2 * Z.of_nat (length (e :: exts)) + 2) by (simpl length; lia).
    reflexivity.
Qed.

(** Decoding a concatenation: when the first part decodes completely,
    the second part is decoded on its own from where the first ends. *)
Lemma fold_prefixes_app (pre : list Byte.byte) : forall pos ys rest,
  fold_prefixes pos None pre = (ys, Ok tt) ->
  fold_prefixes pos None (pre ++ rest)
  = (ys ++ fst (fold_prefixes (pos + Z.of_nat (length pre)) None rest),
     snd (fold_prefixes (pos + Z.of_nat (length pre)) None rest)).
Proof.
  assert (G : forall pos run ys rest,
     fold_prefixes pos run pre = (ys, Ok tt) ->
     fold_prefixes pos run (pre ++ rest)
     = (ys ++ fst (fold_prefixes (pos + Z.of_nat (length pre)) None rest),
        snd (fold_prefixes (pos + Z.of_nat (length pre)) None rest))).
  { induction pre as [|x|op arg pre IH] using list_pair_ind; intros pos run ys rest H.
    - simpl in H. destruct run; inversion H; subst.
      simpl. rewrite Z.add_0_r. destruct (fold_prefixes pos None rest); reflexivity.
    - simpl in H. inversion H.
    - cbn [fold_prefixes app] in *.
      destruct (match run with None => (pos, 0) | Some r => r end) as [start acc].
      replace (pos + Z.of_nat (length (op :: arg :: pre)))
        with (pos + 2 + Z.of_nat (length pre)) by (simpl length; lia).
      destruct (byte_val op =? EXTENDED_ARG) eqn:E.
      + apply IH. exact H.
      + destruct (fold_prefixes (pos + 2) None pre) as [ys' r'] eqn:Ef.
        inversion H; subst. rewrite (IH _ _ _ rest Ef). reflexivity. }
  intros pos ys rest. apply G.
Qed.

(** C2.  Under an interpreter of version 3.6 or later (the module's
    first line, [from __future__ import annotations], rules out any
    interpreter before 3.7), [code_walker] decodes every byte array as
    the decode contract says.  It ends normally or with [IndexError] on
    a truncated array, never for lack of fuel; no instruction it yields
    is [EXTENDED_ARG]; and wherever a run of prefixes with operand
    bytes [exts] stands before an instruction [op arg], after bytes
    that decode completely, the instruction is yielded once, at the
    address of the first prefix, with [exts] and [arg] folded into its
    operand. *)
Theorem code_walker_folds_EXTENDED_ARG (version_info : Z * Z) (code : list Byte.byte) :
  version_ge version_info (3, 6) = true ->
  code_walker version_info code = fold_prefixes 0 None code
  /\ Forall (fun ins : instr => fst (snd ins) <> EXTENDED_ARG)
            (fst (code_walker version_info code))
  /\ (snd (code_walker version_info code) = Ok tt
      \/ snd (code_walker version_info code) = Raise IndexError)
  /\ forall pre ys exts op arg rest,
       code = pre ++ prefix_units exts ++ op :: arg :: rest ->
       fold_prefixes 0 None pre = (ys, Ok tt) ->
       byte_val op <> EXTENDED_ARG ->
       fst (code_walker version_info code)
       = ys ++ (Z.of_nat (length pre), (byte_val op, widen 0 exts arg))
               :: fst (fold_prefixes
                         (Z.of_nat (length pre) + 2 * Z.of_nat (length exts) + 2)
                         None rest).
Proof.
  intros Hv.
  assert (E : forall c, code_walker version_info c = fold_prefixes 0 None c).
  { intros c. unfold code_walker. rewrite Hv.
    destruct (walk_wordcode_refines c (length c) 0%nat) as [Hw _].
    { rewrite drop_0. lia. }
    specialize (Hw (S (length c))). rewrite drop_0 in Hw. apply Hw. lia. }
  rewrite !E. split; [reflexivity|].
  split; [apply fold_prefixes_exposes_no_prefix|].
  split; [apply fold_prefixes_ends|].
  intros pre ys exts op arg rest -> Hpre Hop.
  rewrite (fold_prefixes_app pre 0 ys _ Hpre).
  rewrite fold_prefixes_first by exact Hop. cbn [fst snd].
  rewrite Z.add_0_l. reflexivity.
Qed.

(** [EXTENDED_ARG 1; LOAD_CONST 2] decodes to the single instruction
    [LOAD_CONST 258] at address 0. *)
Lemma code_walker_folds_EXTENDED_ARG_witness :
  version_ge (3, 7) (3, 6) = true
  /\ code_walker (3, 7) [Byte.x90; Byte.x01; Byte.x64; Byte.x02]
     = ([(0, (LOAD_CONST, 258))], Ok tt).
Proof.
  split; [reflexivity|].
  destruct (code_walker_folds_EXTENDED_ARG
              (3, 7) [Byte.x90; Byte.x01; Byte.x64; Byte.x02] eq_refl) as [E _].
  rewrite E. reflexivity.
Defined.

(** The branch for interpreters before 3.6, which an interpreter able
    to import the module never takes, would yield the prefix as an
    instruction of its own. *)
Example code_walker_legacy_branch :
  code_walker (3, 5) [Byte.x90; Byte.x01; Byte.x00; Byte.x64; Byte.x02; Byte.x00]
  = ([(0, (EXTENDED_ARG, 1)); (3, (LOAD_CONST, 65538))], Ok tt).
Proof. reflexivity. Qed.

(** A truncated array ends the generator with [IndexError]. *)
Example code_walker_truncated :
  code_walker (3, 7) [Byte.x64; Byte.x02; Byte.x90]
  = ([(0, (LOAD_CONST, 2))], Raise IndexError).
Proof. reflexivity. Qed.

(** ** The renderer *)

Lemma string_length_app (s t : string) :
  String.length (s +:+ t) = (String.length s + String.length t)%nat.
Proof. induction s as [|c s IH]; simpl; [reflexivity|]. rewrite IH. reflexivity. Qed.

Lemma parenthesized_differs (e : PyExpr) : parenthesized e <> str e.
Proof.
  intros H. apply (f_equal String.length) in H.
  unfold parenthesized in H. rewrite !string_length_app in H.
  change (String.length "(") with 1%nat in H.
  change (String.length ")") with 1%nat in H.
  generalize dependent (String.length (str e)). intros n H. lia.
Qed.

Lemma wrap_rendered (e : PyExpr) (condition : bool) :
  wrap e condition = rendered_operand e (negb (is_tuple e) && condition).
Proof. destruct e, condition; reflexivity. Qed.

(** C6 as the code has it.  A node renders each operand either bare or
    in parentheses (the two differ).  The operand of a unary node and
    the left operand of a binary node, [and] and [or] included, are
    parenthesized exactly when their precedence is less than the
    node's; the right operand of a binary node exactly when its
    precedence is less than or equal to the node's, and never for the
    index of a subscript; of a ternary node, the condition and the true
    value exactly when their precedence is at most the node's, the
    false value exactly when it is less.  A tuple operand never gets
    parentheses beyond its own. *)
Theorem operand_parenthesization :
  (forall op x,
     str (PyUnaryOp op x)
     = format (unary_pattern op)
         [rendered_operand x
            (negb (is_tuple x) && (precedence x <? precedence (PyUnaryOp op x)))])
  /\ (forall op l r,
        str (PyBinaryOp op l r)
        = format (binary_pattern op)
            [rendered_operand l
               (negb (is_tuple l) && (precedence l <? precedence (PyBinaryOp op l r)));
             rendered_operand r
               (negb (is_tuple r)
                && (negb (is_subscript op)
                    && (precedence r <=? precedence (PyBinaryOp op l r))))])
  /\ (forall l r c,
        str (PyBooleanAnd l r c)
        = format "{} and {}"
            [rendered_operand l
               (negb (is_tuple l) && (precedence l <? precedence (PyBooleanAnd l r c)));
             rendered_operand r
               (negb (is_tuple r) && (precedence r <=? precedence (PyBooleanAnd l r c)))])
  /\ (forall l r c,
        str (PyBooleanOr l r c)
        = format "{} or {}"
            [rendered_operand l
               (negb (is_tuple l) && (precedence l <? precedence (PyBooleanOr l r c)));
             rendered_operand r
               (negb (is_tuple r) && (precedence r <=? precedence (PyBooleanOr l r c)))])
  /\ (forall c t f,
        str (PyIfElse c t f)
        = format "{} if {} else {}"
            [rendered_operand t
               (negb (is_tuple t) && (precedence t <=? precedence (PyIfElse c t f)));
             rendered_operand c
               (negb (is_tuple c) && (precedence c <=? precedence (PyIfElse c t f)));
             rendered_operand f
               (negb (is_tuple f) && (precedence f <? precedence (PyIfElse c t f)))])
  /\ (forall x, rendered_operand x true <> rendered_operand x false).
Proof.
  repeat split.
  - intros op x. cbn [str precedence]. f_equal. f_equal. apply wrap_rendered.
  - intros op l r. cbn [str precedence].
    rewrite <- !wrap_rendered.
    destruct op; cbn [is_subscript negb andb]; try reflexivity.
    destruct r; reflexivity.
  - intros l r c. cbn [str precedence]. rewrite <- !wrap_rendered. reflexivity.
  - intros l r c. cbn [str precedence]. rewrite <- !wrap_rendered. reflexivity.
  - intros c t f. cbn [str precedence]. rewrite <- !wrap_rendered. reflexivity.
  - intros x. apply parenthesized_differs.
Qed.

(** C6 as claimed fails: in [a - (b - c)] the right operand has the
    precedence of its parent, not less, and is parenthesized; so is the
    true value of a ternary inside a ternary. *)
Lemma right_operand_parenthesized_at_equal_precedence :
  let child := PyBinaryOp Subtract (PyName "b") (PyName "c") in
  let node := PyBinaryOp Subtract (PyName "a") child in
  str node = "a - (b - c)"
  /\ (precedence child <? precedence node) = false
  /\ str (PyIfElse (PyName "c") (PyIfElse (PyName "d") (PyName "x") (PyName "y"))
                   (PyName "z"))
     = "(x if d else y) if c else z".
Proof. repeat split. Qed.

(** ** Suites *)

(** C7.  An empty suite displays the one line [pass] at the indent of
    the writer, [(" " * step) * level], after the lines already
    written; as the body of a branch it is [pass] one level deeper than
    the [if] line; and the text of an empty suite is [pass]. *)
Theorem empty_Suite_displays_pass (indent : Indent) (lines : list string) :
  Suite_display (Suite_of []) indent lines
  = lines ++ [str_mul (spaces (step indent)) (level indent) +:+ "pass"]
  /\ (forall cond false_suite,
        (false_suite = None \/ false_suite = Some (Suite_of [])) ->
        display (IfStatement cond (Suite_of []) false_suite) indent false lines
        = lines ++ [str_mul (spaces (step indent)) (level indent)
                    +:+ "if " +:+ str cond +:+ ":";
                    str_mul (spaces (step indent)) (level indent + 1) +:+ "pass"])
  /\ Suite_str (Suite_of []) = "pass".
Proof.
  split; [reflexivity|]. split; [|reflexivity].
  intros cond false_suite [-> | ->]; cbn [display Suite_display];
    unfold Indent_write, Indent_indent, Indent_add; cbn [step level];
    rewrite <- app_assoc; reflexivity.
Qed.

(** ** Addresses *)

Lemma py_index_in_range {A : Type} (l : list A) (i : Z) :
  0 <= i < Z.of_nat (length l) ->
  exists x, py_index l i = Ok x /\ l !! Z.to_nat i = Some x.
Proof.
  intros H. unfold py_index.
  destruct (i <? 0) eqn:E0; [zlia|].
  destruct (0 <=? i) eqn:E1; [|zlia].
  destruct (i <? Z.of_nat (length l)) eqn:E2; [|zlia].
  simpl. destruct (l !! Z.to_nat i) as [x|] eqn:El.
  - exists x. split; reflexivity.
  - apply lookup_ge_None in El. lia.
Qed.

Lemma Address_init_in_range (code : Code) (i : Z) :
  0 <= i < Code_len code ->
  exists ad op ar,
    Address_init code i = Ok (mkAddress i ad op ar)
    /\ instr_seq code !! Z.to_nat i = Some (ad, (op, ar)).
Proof.
  intros H. unfold Address_init.
  destruct (py_index_in_range (instr_seq code) i H) as ([ad [op ar]] & E & El).
  rewrite E. exists ad, op, ar. split; [reflexivity|exact El].
Qed.

Lemma Code_getitem_cases (code : Code) (instr_index : Z) :
  (0 <= instr_index < Code_len code ->
     exists ad op ar,
       Code_getitem code instr_index = Ok (Some (mkAddress instr_index ad op ar))
       /\ instr_seq code !! Z.to_nat instr_index = Some (ad, (op, ar)))
  /\ (~ (0 <= instr_index < Code_len code) ->
        Code_getitem code instr_index = Ok None)
  /\ (exists r, Code_getitem code instr_index = Ok r)
  /\ (forall a delta,
        Address_getitem code a delta = Code_getitem code (index a + delta)).
Proof.
  assert (Hin : 0 <= instr_index < Code_len code ->
     exists ad op ar,
       Code_getitem code instr_index = Ok (Some (mkAddress instr_index ad op ar))
       /\ instr_seq code !! Z.to_nat instr_index = Some (ad, (op, ar))).
  { intros H. unfold Code_getitem.
    destruct (0 <=? instr_index) eqn:E1; [|zlia].
    destruct (instr_index <? Code_len code) eqn:E2; [|zlia].
    destruct (Address_init_in_range code instr_index H) as (ad & op & ar & E & El).
    simpl. rewrite E. exists ad, op, ar. split; [reflexivity|exact El]. }
  assert (Hout : ~ (0 <= instr_index < Code_len code) ->
     Code_getitem code instr_index = Ok None).
  { intros H. unfold Code_getitem.
    destruct (0 <=? instr_index) eqn:E1; [|reflexivity].
    destruct (instr_index <? Code_len code) eqn:E2; [|reflexivity].
    exfalso. apply H. zlia. }
  split; [exact Hin|]. split; [exact Hout|]. split; [|reflexivity].
  destruct (Z_le_dec 0 instr_index) as [H0|H0];
    [destruct (Z_lt_dec instr_index (Code_len code)) as [H1|H1]|].
  - destruct (Hin (conj H0 H1)) as (ad & op & ar & E & _). eauto.
  - exists None. apply Hout. lia.
  - exists None. apply Hout. lia.
Qed.

(** C9.  Indexing a code object with an integer never raises: inside
    the decoded sequence it returns the [Address] of that index, holding
    the address, opcode and operand of the instruction there; outside
    (negative indices included) it returns [None].  The neighbour lookup
    [a[delta]] is the same lookup at [a.index + delta]. *)
Theorem Code_getitem_total (code : Code) (instr_index : Z) :
  (0 <= instr_index < Code_len code ->
     exists ad op ar,
       Code_getitem code instr_index = Ok (Some (mkAddress instr_index ad op ar))
       /\ instr_seq code !! Z.to_nat instr_index = Some (ad, (op, ar)))
  /\ (~ (0 <= instr_index < Code_len code) ->
        Code_getitem code instr_index = Ok None)
  /\ (exists r, Code_getitem code instr_index = Ok r)
  /\ (forall a delta,
        Address_getitem code a delta = Code_getitem code (index a + delta)).
Proof.
  assert (Hin : 0 <= instr_index < Code_len code ->
     exists ad op ar,
       Code_getitem code instr_index = Ok (Some (mkAddress instr_index ad op ar))
       /\ instr_seq code !! Z.to_nat instr_index = Some (ad, (op, ar))).
  { intros H. unfold Code_getitem.
    destruct (0 <=? instr_index) eqn:E1; [|zlia].
    destruct (instr_index <? Code_len code) eqn:E2; [|zlia].
    destruct (Address_init_in_range code instr_index H) as (ad & op & ar & E & El).
    simpl. rewrite E. exists ad, op, ar. split; [reflexivity|exact El]. }
  assert (Hout : ~ (0 <= instr_index < Code_len code) ->
     Code_getitem code instr_index = Ok None).
  { intros H. unfold Code_getitem.
    destruct (0 <=? instr_index) eqn:E1; [|reflexivity].
    destruct (instr_index <? Code_len code) eqn:E2; [|reflexivity].
    exfalso. apply H. zlia. }
  split; [exact Hin|]. split; [exact Hout|]. split; [|reflexivity].
  destruct (Z_le_dec 0 instr_index) as [H0|H0];
    [destruct (Z_lt_dec instr_index (Code_len code)) as [H1|H1]|].
  - destruct (Hin (conj H0 H1)) as (ad & op & ar & E & _). eauto.
  - exists None. apply Hout. lia.
  - exists None. apply Hout. lia.
Qed.

(** ** The else-jump pass *)

Lemma mapM_res_Forall2 {A B : Type} (f : A -> res B) (l : list A) : forall ys,
  mapM f l = Ok ys -> Forall2 (fun x y => f x = Ok y) l ys.
Proof.
  induction l as [|x l IH]; intros ys H.
  - inversion H. constructor.
  - cbn in H. destruct (f x) as [y| | |] eqn:Ef; try discriminate.
    cbn in H. destruct (mapM f l) as [k| | |] eqn:Em; try discriminate.
    inversion H; subst. constructor; [exact Ef|]. apply IH. reflexivity.
Qed.

Lemma Code_iter_lookup (code : Code) (addrs : list Address) :
  Code_iter code = Ok addrs ->
  length addrs = length (instr_seq code)
  /\ forall (i : nat) a, addrs !! i = Some a -> Address_init code (Z.of_nat i) = Ok a.
Proof.
  intros H. apply mapM_res_Forall2 in H. split.
  - apply Forall2_length in H. rewrite length_seq in H. symmetry. exact H.
  - intros i a Ha.
    destruct (Forall2_lookup_r _ _ _ _ _ H Ha) as (x & Hx & Hf).
    apply lookup_seq in Hx as [-> _]. exact Hf.
Qed.

Lemma Address_init_index (code : Code) (i : Z) (a : Address) :
  Address_init code i = Ok a -> index a = i.
Proof.
  unfold Address_init. destruct (py_index (instr_seq code) i) as [[ad [op ar]]| | |];
    cbn; intros H; inversion H; reflexivity.
Qed.

Lemma Code_getitem_Some (code : Code) (i : Z) (a : Address) :
  Code_getitem code i = Ok (Some a) ->
  Address_init code i = Ok a /\ 0 <= i < Code_len code.
Proof.
  unfold Code_getitem.
  destruct (0 <=? i) eqn:E1; [|discriminate].
  destruct (i <? Code_len code) eqn:E2; [|discriminate].
  simpl. destruct (Address_init code i) as [b| | |]; cbn; intros H; inversion H.
  split; [reflexivity|zlia].
Qed.

Lemma Code_address_Some (code : Code) (ad : Z) (a : Address) :
  Code_address code ad = Ok (Some a) ->
  Address_init code (index a) = Ok a /\ 0 <= index a < Code_len code.
Proof.
  unfold Code_address. destruct (instr_map code !! ad) as [i|]; [|discriminate].
  intros H. apply Code_getitem_Some in H as [H1 H2].
  rewrite (Address_init_index _ _ _ H1). split; assumption.
Qed.

(** What one step of the loop does to the map. *)
Lemma find_else_step_cases (code : Code) (jumps jumps' : gmap Z Address) (a : Address) :
  find_else_step code jumps a = Ok jumps' ->
  (opcode_in (opcode a) pop_jump_if_opcodes = true
   /\ ((exists landing, else_landing code a = Some landing
                        /\ jumps' = <[index landing := a]> jumps)
       \/ (else_landing code a = None /\ jumps' = jumps)))
  \/ (opcode_in (opcode a) pop_jump_if_opcodes = false
      /\ (opcode a = JUMP_ABSOLUTE \/ opcode a = JUMP_FORWARD)
      /\ ((exists k b, jumps !! k = Some b /\ jumps' = <[index a := b]> jumps)
          \/ jumps' = jumps))
  \/ (opcode_in (opcode a) pop_jump_if_opcodes = false
      /\ opcode a <> JUMP_ABSOLUTE /\ opcode a <> JUMP_FORWARD
      /\ jumps' = jumps).
Proof.
  unfold find_else_step, else_landing.
  destruct (opcode_in (opcode a) pop_jump_if_opcodes) eqn:Ep.
  - intros H. left. split; [reflexivity|].
    destruct (Code_address code (arg a)) as [[j|]| | |]; unfold attr, subscriptable in H; rbind H.
    destruct (Address_getitem code j (-1)) as [[p|]| | |]; unfold attr, subscriptable in H; rbind H.
    destruct (opcode_in (opcode p) else_jump_opcodes || (opcode j =? FOR_ITER));
      inversion H; subst; [left; eauto|right; auto].
  - destruct (opcode a =? JUMP_ABSOLUTE) eqn:Ea.
    { intros H. right. left. split; [reflexivity|]. split; [left; zlia|].
      destruct (Code_address code (arg a)) as [j| | |]; unfold attr, subscriptable in H; rbind H.
      destruct j as [j|]; rbind H.
      - destruct (jumps !! index j) as [b|] eqn:Ej; inversion H; subst; eauto.
      - inversion H; subst. right. reflexivity. }
    destruct (opcode a =? JUMP_FORWARD) eqn:Ef.
    { intros H. right. left. split; [reflexivity|]. split; [right; zlia|].
      destruct (Address_getitem code a 1) as [[n|]| | |]; unfold attr, subscriptable in H; rbind H.
      destruct (Address_add code n (arg a)) as [j| | |]; unfold attr, subscriptable in H; rbind H.
      destruct j as [j|]; rbind H.
      - destruct (jumps !! index j) as [b|] eqn:Ej; inversion H; subst; eauto.
      - inversion H; subst. right. reflexivity. }
    intros H. inversion H; subst. right. right.
    repeat split; try reflexivity; zlia.
Qed.

(** Every value of the map is a recorded kind of branch taken from the
    addresses visited. *)
Lemma find_else_loop_sound (code : Code) (all : list Address) :
  forall (addrs : list Address) (jumps jumps' : gmap Z Address),
  (forall a, a ∈ addrs -> a ∈ all) ->
  (forall k b, jumps !! k = Some b -> b ∈ all /\ is_Some (else_landing code b)) ->
  find_else_loop code addrs jumps = Ok jumps' ->
  forall k b, jumps' !! k = Some b -> b ∈ all /\ is_Some (else_landing code b).
Proof.
  induction addrs as [|a addrs IH]; intros jumps jumps' Hall Hj H.
  - inversion H; subst. exact Hj.
  - cbn in H. destruct (find_else_step code jumps a) as [j1| | |] eqn:Es; try discriminate.
    cbn in H. apply (IH j1 jumps'); [|clear IH H|exact H].
    { intros x Hx. apply Hall. right. exact Hx. }
    assert (Ha : a ∈ all) by (apply Hall; left).
    apply find_else_step_cases in Es
      as [(_ & [(l & El & ->) | (_ & ->)])
         | [(_ & _ & [(k0 & b0 & Hb0 & ->) | ->]) | (_ & _ & _ & ->)]];
      try exact Hj.
    + intros k b Hk. destruct (decide (index l = k)) as [<-|Hne].
      * rewrite lookup_insert_eq in Hk. inversion Hk; subst.
        split; [exact Ha|]. rewrite El. eauto.
      * rewrite lookup_insert_ne in Hk by exact Hne. eapply Hj, Hk.
    + intros k b Hk. destruct (decide (index a = k)) as [<-|Hne].
      * rewrite lookup_insert_eq in Hk. inversion Hk; subst. eapply Hj, Hb0.
      * rewrite lookup_insert_ne in Hk by exact Hne. eapply Hj, Hk.
Qed.

Lemma else_landing_Some (code : Code) (b landing : Address) :
  else_landing code b = Some landing ->
  opcode_in (opcode b) pop_jump_if_opcodes = true
  /\ Code_address code (arg b) = Ok (Some landing)
  /\ Address_init code (index landing) = Ok landing
  /\ exists prev, Address_getitem code landing (-1) = Ok (Some prev)
       /\ (opcode_in (opcode prev) else_jump_opcodes = true
           \/ opcode landing = FOR_ITER).
Proof.
  unfold else_landing.
  destruct (opcode_in (opcode b) pop_jump_if_opcodes); [|discriminate].
  destruct (Code_address code (arg b)) as [[j|]| | |] eqn:Ej; try discriminate.
  destruct (Address_getitem code j (-1)) as [[p|]| | |] eqn:Ep; try discriminate.
  destruct (opcode_in (opcode p) else_jump_opcodes) eqn:E1;
    destruct (opcode j =? FOR_ITER) eqn:E2; cbn [orb]; intros H; inversion H; subst;
    (split; [reflexivity|]; split; [reflexivity|];
     split; [apply (Code_address_Some _ _ _ Ej)|];
     exists p; split; [exact Ep|]; first [left; exact E1 | right; zlia]).
Qed.

Lemma find_else_loop_complete (code : Code) (all : list Address) :
  (forall (i : nat) a, all !! i = Some a -> Address_init code (Z.of_nat i) = Ok a) ->
  forall (addrs : list Address) (k : nat) (jumps jumps' : gmap Z Address),
  drop k all = addrs ->
  last_branch_recorded code all k jumps ->
  find_else_loop code addrs jumps = Ok jumps' ->
  last_branch_recorded code all (length all) jumps'.
Proof.
  intros Hall. induction addrs as [|a addrs IH]; intros k jumps jumps' Hd Hinv H.
  - inversion H; subst.
    assert (length all <= k)%nat by (apply drop_nil_ge; exact Hd).
    intros i b landing Hi Hb Hl H1 H2 Hlater.
    apply (Hinv i b landing); try assumption.
    + apply lookup_lt_Some in Hb. lia.
    + intros j b' l' Hj Hb' Hl'. apply (Hlater j b' l'); [|exact Hb'|exact Hl'].
      apply lookup_lt_Some in Hb'. lia.
  - cbn in H. destruct (find_else_step code jumps a) as [j1| | |] eqn:Es; rbind H.
    destruct (drop_cons_next _ _ _ _ Hd) as [Hd' Hk].
    assert (Hka : all !! k = Some a).
    { rewrite <- (Nat.add_0_r k), <- lookup_drop, Hd. reflexivity. }
    pose proof (Address_init_index _ _ _ (Hall _ _ Hka)) as Hia.
    apply (IH (S k) j1 jumps' Hd'); [|exact H]. clear IH H.
    intros i b landing Hi Hb Hl H1 H2 Hlater.
    destruct (else_landing_Some _ _ _ Hl) as (Hpop & _ & Hlanding & _).
    assert (Hold : (i < k)%nat -> jumps !! index landing = Some b).
    { intros Hik. apply (Hinv i b landing); try assumption.
      intros j b' l' Hj. apply (Hlater j b' l'). lia. }
    assert (Hjump : (i < k)%nat -> opcode a = JUMP_ABSOLUTE \/ opcode a = JUMP_FORWARD ->
                    index a <> index landing).
    { intros _ Hop Heq. rewrite <- Heq, Hia in Hlanding.
      rewrite (Hall _ _ Hka) in Hlanding. inversion Hlanding; subst.
      destruct Hop; contradiction. }
    destruct (decide (i = k)) as [->|Hne].
    + rewrite Hka in Hb. inversion Hb; subst b.
      apply find_else_step_cases in Es
        as [(_ & [(l & El & ->) | (El & _)])
           | [(Hnp & _) | (Hnp & _)]]; try congruence.
      rewrite El in Hl. inversion Hl; subst. apply lookup_insert_eq.
    + assert (Hik : (i < k)%nat) by lia.
      apply find_else_step_cases in Es
        as [(_ & [(l & El & ->) | (_ & ->)])
           | [(_ & Hop & [(k0 & b0 & _ & ->) | ->]) | (_ & _ & _ & ->)]];
        try (apply Hold; exact Hik).
      * rewrite lookup_insert_ne; [apply Hold; exact Hik|].
        apply (Hlater k a l); [lia|exact Hka|exact El].
      * rewrite lookup_insert_ne; [apply Hold; exact Hik|].
        apply Hjump; assumption.
Qed.

Lemma Address_in_elem (b : Address) (l : list Address) :
  b ∈ l -> Address_in b l = true.
Proof.
  intros H. unfold Address_in. apply existsb_exists. exists b. split.
  - apply list_elem_of_In. exact H.
  - apply Z.eqb_refl.
Qed.

(** C8 as the code has it.  When [find_else] succeeds, every member of
    the else-jump set is a conditional branch of the code whose target
    follows an instruction of [else_jump_opcodes] ([JUMP_FORWARD],
    [RETURN_VALUE], [JUMP_ABSOLUTE], [SETUP_LOOP], [RAISE_VARARGS],
    [POP_TOP]) or is a [FOR_ITER]; and such a branch is in the set when
    no later such branch has the same landing instruction and the
    landing instruction is not an unconditional jump.  Nothing else of
    the code object changes. *)
Theorem find_else_records_last_branch (code code' : Code) :
  find_else code = Ok code' ->
  (forall b, b ∈ else_jumps code' ->
     Address_init code (index b) = Ok b /\ is_Some (else_landing code b))
  /\ (forall i b landing,
        Address_init code i = Ok b -> 0 <= i < Code_len code ->
        else_landing code b = Some landing ->
        opcode landing <> JUMP_ABSOLUTE -> opcode landing <> JUMP_FORWARD ->
        (forall j b' l', i < j < Code_len code -> Address_init code j = Ok b' ->
           else_landing code b' = Some l' -> index l' <> index landing) ->
        b ∈ else_jumps code' /\ Address_in b (else_jumps code') = true)
  /\ exists l, code' = set_else_jumps code l.
Proof.
  unfold find_else. intros H.
  destruct (Code_iter code) as [addrs| | |] eqn:Ei; rbind H.
  destruct (find_else_loop code addrs ∅) as [jumps| | |] eqn:El; rbind H.
  inversion H; subst code'. clear H. cbn [else_jumps set_else_jumps].
  destruct (Code_iter_lookup code addrs Ei) as [Hlen Hall].
  assert (Hval : forall b, b ∈ map snd (map_to_list jumps) <-> exists k, jumps !! k = Some b).
  { intros b. rewrite list_elem_of_fmap. split.
    - intros ([k b'] & -> & Hin). exists k. apply elem_of_map_to_list. exact Hin.
    - intros (k & Hk). exists (k, b). split; [reflexivity|].
      apply elem_of_map_to_list. exact Hk. }
  split; [|split; [|eauto]].
  - intros b Hb. apply Hval in Hb as (k & Hk).
    destruct (find_else_loop_sound code addrs addrs ∅ jumps (fun _ h => h)) with (k := k) (b := b)
      as [Hin Hsome]; try assumption.
    { intros k0 b0 Hk0. rewrite lookup_empty in Hk0. discriminate. }
    split; [|exact Hsome].
    apply list_elem_of_lookup in Hin as (i & Hi).
    pose proof (Hall i b Hi) as Ha. rewrite (Address_init_index _ _ _ Ha). exact Ha.
  - intros i b landing Hb Hi Hl H1 H2 Hlater.
    assert (Hget : addrs !! Z.to_nat i = Some b).
    { destruct (addrs !! Z.to_nat i) as [b0|] eqn:E0.
      - pose proof (Hall _ _ E0) as Hb0. rewrite Z2Nat.id in Hb0 by lia. congruence.
      - apply lookup_ge_None in E0. unfold Code_len in Hi. lia. }
    assert (Hrec : jumps !! index landing = Some b).
    { apply (find_else_loop_complete code addrs Hall addrs 0%nat ∅ jumps
               (drop_0 _)) with (i := Z.to_nat i); try assumption.
      - intros i0 b0 l0 Hi0. lia.
      - apply lookup_lt_Some in Hget. exact Hget.
      - intros j b' l' Hj Hb' Hl'. apply (Hlater (Z.of_nat j) b' l'); try assumption.
        + unfold Code_len. lia.
        + apply Hall. exact Hb'. }
    assert (Hin : b ∈ map snd (map_to_list jumps)) by (apply Hval; eauto).
    split; [exact Hin|apply Address_in_elem; exact Hin].
Qed.

(** On [if a and b: x else: y] the pass succeeds and records the
    branch at index 3. *)
Lemma find_else_records_last_branch_witness :
  find_else else_example_Code
  = Ok (set_else_jumps else_example_Code [mkAddress 3 6 POP_JUMP_IF_FALSE 14])
  /\ (forall b, b ∈ [mkAddress 3 6 POP_JUMP_IF_FALSE 14] ->
        Address_init else_example_Code (index b) = Ok b
        /\ is_Some (else_landing else_example_Code b)).
Proof.
  assert (E : find_else else_example_Code
              = Ok (set_else_jumps else_example_Code [mkAddress 3 6 POP_JUMP_IF_FALSE 14]))
    by (vm_compute; reflexivity).
  split; [exact E|].
  exact (proj1 (find_else_records_last_branch else_example_Code _ E)).
Defined.

(** C8 as claimed fails.  In [if a and b: x else: y] the branch at
    index 1 is a [POP_JUMP_IF_FALSE] whose target, index 7, comes
    immediately after the [JUMP_FORWARD] at index 6; the later branch at
    index 3 has the same target and takes its place in the map, so the
    set holds index 3 only. *)
Lemma find_else_drops_earlier_branch :
  find_else else_example_Code
  = Ok (set_else_jumps else_example_Code [mkAddress 3 6 POP_JUMP_IF_FALSE 14])
  /\ Address_init else_example_Code 1 = Ok (mkAddress 1 2 POP_JUMP_IF_FALSE 14)
  /\ Code_address else_example_Code 14 = Ok (Some (mkAddress 7 14 LOAD_NAME 3))
  /\ Address_getitem else_example_Code (mkAddress 7 14 LOAD_NAME 3) (-1)
     = Ok (Some (mkAddress 6 12 JUMP_FORWARD 4))
  /\ Address_in (mkAddress 1 2 POP_JUMP_IF_FALSE 14)
                [mkAddress 3 6 POP_JUMP_IF_FALSE 14] = false.
Proof. repeat split; vm_compute; reflexivity. Qed.

(** ** The executor *)

(** *** The operand stack of an executor *)

Lemma stack_push_inv (dec : SuiteDecompiler) (objs : list pyobj) :
  stack_inv obj_id (stack dec) ->
  exists s', stack_push objs dec = Ok (set_stack dec s')
    /\ stack_inv obj_id s' /\ _stack s' = _stack (stack dec) ++ objs.
Proof.
  intros H. destruct (push_inv obj_id objs (stack dec) H) as (s' & E & H' & Hst & _).
  exists s'. unfold stack_push, on_stack. rewrite E. cbn. repeat split; assumption.
Qed.

Lemma stack_pop_inv (dec : SuiteDecompiler) (l : list pyobj) (v : pyobj) :
  stack_inv obj_id (stack dec) -> _stack (stack dec) = l ++ [v] ->
  exists s', stack_pop dec = Ok (v, set_stack dec s')
    /\ stack_inv obj_id s' /\ _stack s' = l.
Proof.
  intros H Hst. destruct (pop1_inv obj_id (stack dec) l v H Hst) as (s' & E & H' & Hst' & _).
  exists s'. unfold stack_pop, on_stack. rewrite E. repeat split; assumption.
Qed.

Lemma stack_pop_empty (dec : SuiteDecompiler) :
  _stack (stack dec) = [] ->
  stack_pop dec = Raise (Exception "Empty stack popped!").
Proof.
  intros H. unfold stack_pop, on_stack. rewrite (pop1_empty obj_id _ H). reflexivity.
Qed.

Lemma stack_pop_count_empty (dec : SuiteDecompiler) (count : Z) :
  0 < count -> _stack (stack dec) = [] ->
  stack_pop_count count dec = Raise (Exception "Empty stack popped!").
Proof.
  intros Hc H. unfold stack_pop_count, on_stack, pop.
  destruct (Z.to_nat count) as [|n] eqn:En; [lia|].
  cbn [pop_range]. rewrite (pop1_empty obj_id _ H). reflexivity.
Qed.

(** *** Forward progress *)

Lemma Code_getitem_index (code : Code) (i : Z) (b : Address) :
  Code_getitem code i = Ok (Some b) -> index b = i /\ 0 <= i < Code_len code.
Proof.
  intros H. apply Code_getitem_Some in H as [H1 H2].
  split; [apply (Address_init_index _ _ _ H1)|exact H2].
Qed.

Lemma Code_getitem_never_raises (code : Code) (i : Z) :
  exists r, Code_getitem code i = Ok r.
Proof. apply (Code_getitem_cases code i). Qed.

Lemma forward_trace_sound (method_for : Code -> handler) (code : Code) (turns : nat) :
  forall dec a,
    forward_trace method_for turns code dec a = true ->
    forall d c, calls method_for code dec a d c -> forward_call method_for code d c.
Proof.
  induction turns as [|turns IH]; intros dec a Ht d c Hc; [discriminate Ht|].
  cbn [forward_trace] in Ht.
  inversion Hc as [dec0 a0 Hb | dec0 dec' a0 n r d0 c0 Hb Hm Hn Ha Hrest]; subst.
  - rewrite Hb in Ht. split.
    + intros E. rewrite E in Ht. discriminate Ht.
    + intros d' b E. rewrite E in Ht.
      apply andb_true_iff in Ht as [Ht _]. apply andb_true_iff in Ht as [H1 H2].
      apply Z.ltb_lt in H1. apply Z.ltb_lt in H2. split; assumption.
  - rewrite Hb, Hm in Ht. destruct r as [b|].
    + inversion Hn; subst n.
      apply andb_true_iff in Ht as [_ Ht]. rewrite Ha in Ht.
      apply (IH dec' b Ht d c Hrest).
    + rewrite Hn, Ha in Ht. apply (IH dec' n Ht d c Hrest).
Qed.

(** C1 as the code has it.  The loop of [run] goes on at the address
    the handler returns, or at the next instruction when it returns
    [None]; it checks nothing about that address.  When, at every
    handler call the loop makes, the call comes back and an address it
    returns lies after the instruction handled, inside the sequence,
    each turn moves the cursor to a greater index and the loop ends
    within [len(instr_seq) - index] turns of the cursor's index. *)
Theorem run_loop_forward_progress (method_for : Code -> handler) (code : Code)
        (fuel : nat) (dec : SuiteDecompiler) (a : Address) :
  (Z.to_nat (Code_len code - index a) < fuel)%nat ->
  (forall d c, calls method_for code dec a d c -> forward_call method_for code d c) ->
  run_loop method_for fuel code dec (Some a) <> OutOfFuel
  /\ forall d c b,
       calls method_for code dec a d c ->
       next_cursor method_for code d c = Ok (Some b) ->
       index c < index b < Code_len code.
Proof.
  intros Hfuel Hfwd. split.
  - revert dec a Hfuel Hfwd.
    induction fuel as [|fuel IH]; intros dec a Hfuel Hfwd; [lia|].
    cbn [run_loop].
    destruct (Address_lt a (end_addr dec)) eqn:Elt; cbn [negb]; [|discriminate].
    match goal with |- context [if ?c then Ok (dec, Some a) else _] =>
      destruct c eqn:Ebr; [discriminate|] end.
    assert (Hb : before_call code dec a = true).
    { unfold before_call. rewrite Elt, Ebr. reflexivity. }
    destruct (Hfwd dec a (calls_here _ _ _ _ Hb)) as [Hne Hret].
    destruct (method_for code a dec) as [[dec' r]| | |] eqn:Em;
      cbn [mbind res_bind]; try discriminate; [|contradiction].
    destruct r as [|new]; [discriminate|].
    assert (Hnext : exists n, match new with
                              | Some _ => Ok new
                              | None => Address_getitem code a 1
                              end = Ok n
                              /\ forall b, n = Some b -> index a < index b < Code_len code).
    { destruct new as [b|].
      - exists (Some b). split; [reflexivity|]. intros b' Hb'. inversion Hb'; subst.
        apply (Hret dec'). reflexivity.
      - unfold Address_getitem.
        destruct (Code_getitem_never_raises code (index a + 1)) as [n En].
        exists n. split; [exact En|]. intros b ->.
        apply Code_getitem_index in En. lia. }
    destruct Hnext as (n & En & Hn). rewrite En. cbn [mbind res_bind].
    destruct ((scan_for_else dec' || find_end_finally dec') && (opcode a =? RETURN_VALUE))
      eqn:Eflags; [discriminate|].
    assert (Hrec : forall b, n = Some b ->
              (expression_in_result dec' && (opcode b =? RETURN_VALUE)) = false ->
              run_loop method_for fuel code dec' (Some b) <> OutOfFuel).
    { intros b -> Eres. specialize (Hn b eq_refl). apply IH; [lia|].
      intros d c Hc. apply Hfwd.
      apply (calls_later _ _ dec dec' a b new d c Hb Em En); [|exact Hc].
      unfold after_call. rewrite Eflags, Eres. reflexivity. }
    destruct (expression_in_result dec') eqn:Eres.
    + destruct n as [b|]; cbn [attr mbind res_bind]; [|discriminate].
      destruct (opcode b =? RETURN_VALUE) eqn:Eret; [discriminate|].
      apply (Hrec b eq_refl). rewrite Eret. reflexivity.
    + destruct n as [b|]; [|destruct fuel; discriminate].
      apply (Hrec b eq_refl). reflexivity.
  - intros d c b Hc. unfold next_cursor.
    destruct (Hfwd d c Hc) as [_ Hret].
    destruct (method_for code c d) as [[d' r]| | |] eqn:Em;
      cbn [mbind res_bind]; try discriminate.
    destruct r as [|[b'|]]; try discriminate.
    + intros H. inversion H; subst. apply (Hret d'). reflexivity.
    + intros H. apply Code_getitem_index in H. lia.
Qed.

Section BackwardJump.

#[local] Abbreviation code := backward_jump_Code.
#[local] Abbreviation a1 := (mkAddress 1 2 LOAD_CONST 0).
#[local] Abbreviation a2 := (mkAddress 2 4 JUMP_IF_TRUE_OR_POP 2).
#[local] Abbreviation a3 := (mkAddress 3 6 RETURN_VALUE 0).

Lemma nested_run_empty_range (depth fuel : nat) (stk : Stack pyobj) (fresh : Z) :
  exists d, SuiteDecompiler_init code (Some a3) (Some a1) (Some stk) fresh = Ok d
    /\ stack d = stk /\ next_id d = fresh
    /\ (run depth fuel code d = OutOfFuel \/ run depth fuel code d = Ok (d, Some a3)).
Proof.
  eexists. split; [vm_compute; reflexivity|]. split; [reflexivity|]. split; [reflexivity|].
  destruct depth as [|depth]; [left; reflexivity|right].
  destruct fuel; reflexivity.
Qed.

Lemma turn_at_load (R : SuiteDecompiler -> res (SuiteDecompiler * option Address))
      (i ad : Z) (dec : SuiteDecompiler) :
  stack_inv obj_id (stack dec) ->
  exists s', dispatch code R (mkAddress i ad LOAD_CONST 0) dec = Ok (set_stack dec s', Goto None)
    /\ stack_inv obj_id s'
    /\ _stack s' = _stack (stack dec) ++ [mkObj 0 (PyConst VNone)].
Proof.
  intros H.
  destruct (stack_push_inv dec [mkObj 0 (PyConst VNone)] H) as (s' & E & H' & Hst').
  exists s'. split; [|split; [exact H'|exact Hst']].
  unfold dispatch. cbn [opcode].
  change (method_of code R LOAD_CONST) with (Some (LOAD_CONST_handler code)).
  unfold LOAD_CONST_handler. cbn [arg].
  change (py_index (consts code) 0) with (Ok (mkObj 0 (PyConst VNone)) : res pyobj).
  cbn [mbind res_bind obj_val]. rewrite E. reflexivity.
Qed.

Lemma collision_flag_const (v : pyval) (r : PyExpr) :
  exists b, collision_flag (PyConst v) r None = Ok b.
Proof.
  destruct r as [| | |[] ?| | | | |]; cbn; eauto.
Qed.

Lemma turn_at_2 (depth fuel : nat) (dec : SuiteDecompiler) (o : pyobj) :
  at_loop_head dec ->
  stack_inv obj_id (stack dec) -> 
  forall s1, stack_inv obj_id s1 -> _stack s1 = [o; mkObj 0 (PyConst VNone)] ->
  dispatch code (run depth fuel code) a2 (set_stack dec s1) = OutOfFuel
  \/ exists dec', dispatch code (run depth fuel code) a2 (set_stack dec s1)
                  = Ok (dec', Goto (Some a1))
                  /\ at_loop_head dec'.
Proof.
  intros (_ & _ & Hpj & Hend & Hsc & Hfe & Her) _ s1 H1 Hst1.
  unfold dispatch.
  change (method_of code (run depth fuel code) (opcode a2))
    with (Some (JUMP_IF_TRUE_OR_POP_handler code (run depth fuel code))).
  unfold JUMP_IF_TRUE_OR_POP_handler.
  change (jump code a2) with (Ok (Some a1) : res (option Address)).
  cbn [mbind res_bind].
  destruct (stack_pop_inv (set_stack dec s1) [o] (mkObj 0 (PyConst VNone)) H1 Hst1)
    as (s2 & E2 & H2 & Hst2).
  rewrite E2. cbn [mbind res_bind obj_val].
  unfold push_popjump.
  change (Address_in a2 (end_chained_jumps code)) with false. cbn iota.
  change (Address_getitem code a2 1) with (Ok (Some a3) : res (option Address)).
  cbn [mbind res_bind popjump_stack set_stack]. rewrite Hpj.
  cbn [rev merge_popjumps mbind res_bind app opcode].
  change (JUMP_IF_TRUE_OR_POP =? JUMP_IF_TRUE_OR_POP) with true. cbn iota.
  unfold pop_popjump. cbn [popjump_stack set_popjump_stack list_pop mbind res_bind negb].
  unfold run_on_shared_stack.
  cbn [stack next_id set_popjump_stack set_stack].
  destruct (nested_run_empty_range depth fuel s2 (next_id dec)) as (d & Ed & Hds & Hdn & Hrun).
  rewrite Ed. cbn [mbind res_bind].
  destruct Hrun as [-> | ->]; [left; reflexivity|right].
  cbn [mbind res_bind]. rewrite Hds, Hdn.
  match goal with |- context [stack_pop ?d0] =>
    destruct (stack_pop_inv d0 [] o) as (s3 & E3 & H3 & Hst3); [exact H2|exact Hst2|];
    rewrite E3 end.
  cbn [mbind res_bind]. unfold obj_maker_call.
  destruct (collision_flag_const VNone (obj_val o)) as (b & ->).
  cbn [mbind res_bind]. unfold push_new, new_object.
  match goal with |- context [stack_push ?l ?d0] =>
    destruct (stack_push_inv d0 l) as (s4 & E4 & H4 & Hst4); [exact H3|];
    rewrite E4 end.
  cbn [mbind res_bind]. eexists. split; [reflexivity|].
  unfold at_loop_head. cbn [stack set_stack set_next_id set_popjump_stack popjump_stack
    end_addr scan_for_else find_end_finally expression_in_result] in *.
  rewrite Hst3 in Hst4.
  repeat split; try assumption. eexists. exact Hst4.
Qed.

Lemma loop_head_diverges (depth fuel : nat) : forall (n : nat) (dec : SuiteDecompiler),
  at_loop_head dec ->
  run_loop (fun c => dispatch c (run depth fuel c)) n code dec (Some a1) = OutOfFuel.
Proof.
  induction n as [n IH] using lt_wf_ind. intros dec Hd.
  pose proof Hd as (Hinv & (o & Hst) & Hpj & Hend & Hsc & Hfe & Her).
  destruct n as [|n]; cbn [run_loop]; rewrite Hend, Hsc, Hfe;
    cbn [Address_lt negb andb orb]; cbn beta; [reflexivity|].
  destruct (turn_at_load (run depth fuel code) 1 2 dec Hinv) as (s1 & E1 & H1 & Hst1).
  rewrite E1. cbn [mbind res_bind].
  change (Address_getitem code a1 1) with (Ok (Some a2) : res (option Address)).
  cbn [mbind res_bind scan_for_else find_end_finally expression_in_result set_stack].
  rewrite Hsc, Hfe, Her. cbn [orb andb].
  destruct n as [|n]; cbn [run_loop end_addr set_stack scan_for_else find_end_finally];
    rewrite Hend, Hsc, Hfe; cbn [Address_lt negb andb orb]; cbn beta; [reflexivity|].
  rewrite Hst in Hst1.
  destruct (turn_at_2 depth fuel dec o Hd Hinv s1 H1 Hst1) as [-> | (dec' & -> & Hd')];
    [reflexivity|].
  cbn [mbind res_bind].
  pose proof Hd' as (_ & _ & _ & _ & Hsc' & Hfe' & Her').
  rewrite Hsc', Hfe', Her'. cbn [orb andb].
  apply IH; [lia|exact Hd'].
Qed.

(** C1 as claimed fails.  In [backward_jump_example] the handler of
    the [JUMP_IF_TRUE_OR_POP] at index 2 returns its target, the
    instruction at index 1, and [run] goes on there: the cursor moves
    back and the loop never ends, so no amount of fuel gives
    [decompile] a result. *)
Lemma run_loops_on_backward_jump :
  Code_init (3, 7) backward_jump_example = Ok backward_jump_Code
  /\ (d ← SuiteDecompiler_init code (Some (mkAddress 0 0 LOAD_CONST 0)) (Some a2) None (-2);
      '(d, _) ← run 1 2 code d;
      next_cursor (fun c => dispatch c (run 1 0 c)) code d a2) = Ok (Some a1)
  /\ (index a1 <? index a2) = true
  /\ forall depth fuel, decompile depth fuel (3, 7) backward_jump_example = OutOfFuel.
Proof.
  assert (E : Code_init (3, 7) backward_jump_example = Ok backward_jump_Code)
    by (vm_compute; reflexivity).
  split; [exact E|]. split; [vm_compute; reflexivity|]. split; [reflexivity|].
  intros depth fuel. unfold decompile. rewrite E. cbn [mbind res_bind].
  unfold get_suite.
  change (Code_getitem code 0) with (Ok (Some (mkAddress 0 0 LOAD_CONST 0)) : res (option Address)).
  cbn [mbind res_bind].
  change (SuiteDecompiler_init code (Some (mkAddress 0 0 LOAD_CONST 0)) None None (-2))
    with (Ok (mkDec (mkAddress 0 0 LOAD_CONST 0) None Stack_init Suite_init [] []
                    false false false (Some a3) (-2))).
  cbn [mbind res_bind].
  destruct depth as [|depth]; [reflexivity|]. cbn [run start_addr].
  destruct fuel as [|fuel]; [reflexivity|]. cbn [run_loop end_addr scan_for_else find_end_finally].
  cbn [Address_lt negb].
  match goal with |- context [dispatch code ?R ?a ?d] =>
    destruct (turn_at_load R 0 0 d) as (s1 & E1 & H1 & Hst1);
      [apply Stack_init_inv|rewrite E1] end.
  cbn [mbind res_bind].
  change (Address_getitem code (mkAddress 0 0 LOAD_CONST 0) 1)
    with (Ok (Some a1) : res (option Address)).
  cbn [mbind res_bind scan_for_else find_end_finally expression_in_result set_stack orb andb].
  rewrite loop_head_diverges; [reflexivity|].
  unfold at_loop_head. cbn. repeat split; try assumption. eexists. exact Hst1.
Qed.

End BackwardJump.

(** The run of the class's own handlers on the module
    [x = a < b < c]: every call comes back, the one address a handler
    returns (from the [JUMP_IF_FALSE_OR_POP] at index 5, the
    [STORE_NAME] at index 11) lies after it, and the loop ends with the
    assignment decompiled. *)
Lemma run_loop_forward_progress_witness :
  Code_init (3, 7) (chain_value_module "a" "b" "c" "x" 0 0) = Ok chain_value_Code
  /\ SuiteDecompiler_init chain_value_Code (Some (mkAddress 0 0 LOAD_NAME 0)) None None (-2)
     = Ok chain_value_dec
  /\ (Z.to_nat (Code_len chain_value_Code - 0) < 15)%nat
  /\ forward_trace (fun c => dispatch c (run 2 15 c)) 15 chain_value_Code
       chain_value_dec (mkAddress 0 0 LOAD_NAME 0) = true
  /\ (d ← SuiteDecompiler_init chain_value_Code (Some (mkAddress 0 0 LOAD_NAME 0))
            (Some (mkAddress 5 10 JUMP_IF_FALSE_OR_POP 18)) None (-2);
      '(d, _) ← run 1 15 chain_value_Code d;
      next_cursor (fun c => dispatch c (run 2 15 c)) chain_value_Code d
                  (mkAddress 5 10 JUMP_IF_FALSE_OR_POP 18))
     = Ok (Some (mkAddress 11 22 STORE_NAME 3))
  /\ run_loop (fun c => dispatch c (run 2 15 c)) 15 chain_value_Code chain_value_dec
       (Some (mkAddress 0 0 LOAD_NAME 0)) <> OutOfFuel
  /\ (r ← run_loop (fun c => dispatch c (run 2 15 c)) 15 chain_value_Code chain_value_dec
            (Some (mkAddress 0 0 LOAD_NAME 0));
      Ok (Suite_str (suite (fst r))))
     = Ok "x = a < b < c"%string.
Proof.
  assert (Hfuel : (Z.to_nat (Code_len chain_value_Code - 0) < 15)%nat)
    by (vm_compute; lia).
  assert (Htrace : forward_trace (fun c => dispatch c (run 2 15 c)) 15 chain_value_Code
                     chain_value_dec (mkAddress 0 0 LOAD_NAME 0) = true)
    by (vm_compute; reflexivity).
  split; [vm_compute; reflexivity|]. split; [vm_compute; reflexivity|].
  split; [exact Hfuel|]. split; [exact Htrace|].
  split; [vm_compute; reflexivity|].
  split; [|vm_compute; reflexivity].
  exact (proj1 (run_loop_forward_progress _ chain_value_Code 15 chain_value_dec
                  (mkAddress 0 0 LOAD_NAME 0) Hfuel
                  (forward_trace_sound _ _ 15 _ _ Htrace))).
Defined.

(** *** Stack underflow *)

Lemma dispatch_popping_underflow (code : Code)
      (R : SuiteDecompiler -> res (SuiteDecompiler * option Address))
      (a : Address) (dec : SuiteDecompiler) :
  _stack (stack dec) = [] -> opcode a ∈ popping_opcodes ->
  dispatch code R a dec = Raise (Exception "Empty stack popped!").
Proof.
  intros Hst Ho. unfold dispatch.
  pose proof (stack_pop_empty dec Hst) as E1.
  pose proof (stack_pop_count_empty dec 2 eq_refl Hst) as E2.
  unfold popping_opcodes in Ho.
  repeat (apply elem_of_cons in Ho as [-> | Ho]);
    try (unfold method_of;
         repeat match goal with
           | |- context [?x =? ?y] =>
               let b := eval vm_compute in (x =? y) in
               change (x =? y) with b; cbv iota
           end;
         repeat match goal with
           | |- context [unary_of_opcode ?o] =>
               let u := eval vm_compute in (unary_of_opcode o) in
               change (unary_of_opcode o) with u
           | |- context [binary_of_opcode ?o] =>
               let u := eval vm_compute in (binary_of_opcode o) in
               change (binary_of_opcode o) with u
           end;
         cbv beta iota;
         unfold PRINT_EXPR_handler, RETURN_VALUE_handler, COMPARE_OP_handler,
           unary_handler, binary_handler;
         first [rewrite E1 | rewrite E2]; reflexivity).
  inversion Ho.
Qed.

(** C5 as the code has it.  [POP_TOP] on an empty operand stack
    appends the diagnostic statement to the suite of the scope, leaves
    everything else as it is, and the loop of [run] goes on from the
    next instruction, as after any handler that returns [None].  The
    handlers of [popping_opcodes] begin by popping
    without a test: on an empty stack each of them raises
    [Exception('Empty stack popped!')]; [DUP_TOP] raises the
    [IndexError] of [Stack.peek].  The loop of [run] catches nothing:
    whatever a handler raises ends the run with that exception, so the
    scope gets no suite. *)
Theorem stack_underflow_handling (code : Code)
        (R : SuiteDecompiler -> res (SuiteDecompiler * option Address))
        (a : Address) (dec : SuiteDecompiler) :
  (_stack (stack dec) = [] -> opcode a = POP_TOP ->
     dispatch code R a dec
     = Ok (set_suite dec (add_statement (suite dec)
                            (SimpleStatement empty_stack_diagnostic)),
           Goto None)
     /\ forall fuel,
          Address_lt a (end_addr dec) = true ->
          run_loop (fun c => dispatch c R) (S fuel) code dec (Some a)
          = (next ← Address_getitem code a 1;
             if expression_in_result dec then
               n ← attr next;
               if opcode n =? RETURN_VALUE then
                 Ok (set_suite dec (add_statement (suite dec)
                                      (SimpleStatement empty_stack_diagnostic)),
                     next)
               else
                 run_loop (fun c => dispatch c R) fuel code
                   (set_suite dec (add_statement (suite dec)
                                     (SimpleStatement empty_stack_diagnostic)))
                   next
             else
               run_loop (fun c => dispatch c R) fuel code
                 (set_suite dec (add_statement (suite dec)
                                   (SimpleStatement empty_stack_diagnostic)))
                 next))
  /\ (_stack (stack dec) = [] -> opcode a ∈ popping_opcodes ->
        dispatch code R a dec = Raise (Exception "Empty stack popped!"))
  /\ (_stack (stack dec) = [] -> opcode a = DUP_TOP ->
        dispatch code R a dec = Raise IndexError)
  /\ (forall (method_for : Code -> handler) fuel e,
        before_call code dec a = true -> method_for code a dec = Raise e ->
        run_loop method_for (S fuel) code dec (Some a) = Raise e).
Proof.
  split; [|split; [|split]].
  - intros Hst Ho.
    assert (E : dispatch code R a dec
                = Ok (set_suite dec (add_statement (suite dec)
                                       (SimpleStatement empty_stack_diagnostic)),
                      Goto None)).
    { unfold dispatch. rewrite Ho.
      change (method_of code R POP_TOP) with (Some POP_TOP_handler).
      unfold POP_TOP_handler, Stack_len. rewrite Hst. reflexivity. }
    split; [exact E|].
    intros fuel Hlt.
    assert (E1 : (opcode a =? JUMP_ABSOLUTE) = false) by (rewrite Ho; reflexivity).
    assert (E2 : (opcode a =? JUMP_FORWARD) = false) by (rewrite Ho; reflexivity).
    assert (E3 : (opcode a =? END_FINALLY) = false) by (rewrite Ho; reflexivity).
    assert (E4 : (opcode a =? RETURN_VALUE) = false) by (rewrite Ho; reflexivity).
    cbn [run_loop]. rewrite Hlt, E1, E2, E3, E4, !andb_false_r. cbn [negb andb orb].
    destruct (scan_for_else dec); rewrite E; cbn [mbind res_bind];
      (destruct (Address_getitem code a 1) as [next| | |]; cbn [mbind res_bind];
       [|reflexivity..]);
      rewrite ?E4, ?andb_false_r; cbn [expression_in_result set_suite]; reflexivity.
  - apply dispatch_popping_underflow.
  - intros Hst Ho. unfold dispatch. rewrite Ho.
    change (method_of code R DUP_TOP) with (Some DUP_TOP_handler).
    unfold DUP_TOP_handler, on_stack, peek. rewrite Hst. reflexivity.
  - intros method_for fuel e Hb E. unfold before_call in Hb.
    apply andb_true_iff in Hb as [Hlt Hbr]. apply negb_true_iff in Hbr.
    cbn [run_loop]. rewrite Hlt, Hbr. cbn [negb]. rewrite E. reflexivity.
Qed.

(** C5 as claimed fails.  In [underflow_example] the [POP_TOP] at
    index 0 finds the stack empty and writes its diagnostic; the
    [COMPARE_OP] at index 2 then pops two values from a stack of one,
    and the exception of [Stack.pop1] ends [run] and [decompile]: the
    scope yields no suite, and the diagnostic already written is lost
    with it. *)
Lemma underflow_is_propagated :
  decompile 2 5 (3, 7) underflow_example = Raise (Exception "Empty stack popped!")
  /\ (code ← Code_init (3, 7) underflow_example;
      first ← Code_getitem code 0;
      last ← Code_getitem code 2;
      dec ← SuiteDecompiler_init code first last None (-2);
      '(dec, _) ← run 1 5 code dec;
      Ok (Suite_str (suite dec), length (_stack (stack dec))))
     = Ok (empty_stack_diagnostic, 1%nat).
Proof. split; vm_compute; reflexivity. Qed.

(** *** Boolean chains built outside [push_popjump] *)

(** C3, at the input on which the code departs from it: the expression
    statement [a and b and c] is decompiled to [a and (b and c)].  Each
    [JUMP_IF_FALSE_OR_POP] builds [PyBooleanAnd(left, right)] from the
    value left by the executor of the rest of the chain, without the
    merge of [push_popjump]. *)
Lemma and_chain_value_gets_parentheses :
  (s ← decompile 3 8 (3, 7) and_chain_example; Ok (statements s))
  = Ok [SimpleStatement "a and (b and c)"]
  /\ str (PyBooleanAnd (PyName "a")
            (PyBooleanAnd (PyName "b") (PyName "c") false) false)
     = "a and (b and c)".
Proof. split; vm_compute; reflexivity. Qed.

(** *** Chained comparisons *)

(** The lists of [proc_chained] are no part of the instruction
    sequence: reading an instruction, or following a jump, is the same
    before and after an append. *)
Lemma Code_getitem_append_start (code : Code) (a : Address) :
  Code_getitem (append_start code a) = Code_getitem code.
Proof. reflexivity. Qed.

Lemma jump_append_start (code : Code) (a : Address) :
  jump (append_start code a) = jump code.
Proof. reflexivity. Qed.

(** The scan of [proc_chained] walks over the instructions that are no
    conditional branch and stops at the first branch two instructions
    before the target of the first one. *)
Lemma proc_chained_scan_to_end (code : Code) (a : Address) (j c2 : option Address)
      (e : Z) (a_e q3 q2 : Address) :
  jump code a = Ok j ->
  Code_getitem code e = Ok (Some a_e) ->
  opcode_in (opcode a_e) pop_jump_if_opcodes = true ->
  Code_getitem code (e - 3) = Ok (Some q3) ->
  Code_getitem code (e - 2) = Ok (Some q2) ->
  (opcode q3 =? DUP_TOP) && (opcode q2 =? ROT_THREE) = false ->
  Code_getitem code (e + 2) = Ok c2 ->
  py_eq c2 j = true ->
  forall (n : nat) (i : Z) (x : Address) (fuel : nat),
    Z.of_nat n = e - i -> 0 <= i ->
    (forall k y, i <= k < e -> Code_getitem code k = Ok (Some y) ->
                 opcode_in (opcode y) pop_jump_if_opcodes = false) ->
    Code_getitem code i = Ok (Some x) ->
    (n < fuel)%nat ->
    proc_chained_scan fuel code a (Some x) = Ok (append_end code a_e, a_e).
Proof.
  intros Hj He Hpj Hq3 Hq2 Hno Hc2 Heq n.
  induction n as [|n IH]; intros i x fuel Hn Hi Hbetween Hx Hfuel.
  - assert (i = e) by lia. subst i. rewrite He in Hx. inversion Hx; subst x.
    destruct fuel as [|fuel]; [lia|]. cbn [proc_chained_scan attr mbind res_bind].
    rewrite Hpj. unfold Address_getitem.
    destruct (Code_getitem_index _ _ _ He) as [-> _].
    replace (e + -3) with (e - 3) by lia. replace (e + -2) with (e - 2) by lia.
    rewrite Hq3. cbn [attr mbind res_bind].
    assert (Ht : (if opcode q3 =? DUP_TOP
                  then p2 ← Code_getitem code (e - 2); p2 ← attr p2;
                       Ok (opcode p2 =? ROT_THREE)
                  else Ok false) = Ok false).
    { destruct (opcode q3 =? DUP_TOP); [|reflexivity].
      rewrite Hq2. cbn [attr mbind res_bind]. cbn [andb] in Hno. rewrite Hno. reflexivity. }
    rewrite Ht. cbn [mbind res_bind].
    rewrite Hc2. cbn [mbind res_bind]. rewrite Hj. cbn [mbind res_bind].
    rewrite Heq. reflexivity.
  - destruct fuel as [|fuel]; [lia|]. cbn [proc_chained_scan attr mbind res_bind].
    rewrite (Hbetween i x) by (try assumption; lia).
    unfold Address_getitem.
    destruct (Code_getitem_index _ _ _ Hx) as [-> Hr].
    destruct (Code_getitem_index _ _ _ He) as [_ Hre].
    destruct (proj1 (Code_getitem_cases code (i + 1))) as (ad & op & ar & Hy & _); [lia|].
    rewrite Hy. cbn [mbind res_bind].
    apply (IH (i + 1)); try assumption; try lia.
    intros k y Hk. apply Hbetween. lia.
Qed.

(** [proc_chained] at the first branch of a comparison chained once:
    the branch goes to the list of starts, the next branch to the list
    of ends, and the call returns the latter. *)
Lemma proc_chained_recognizes (code : Code) (s e : Z) (a_s a_e q3 q2 : Address)
      (j c2 : option Address) (fuel : nat) :
  Code_getitem code s = Ok (Some a_s) ->
  after_comparison_triplet code a_s = Ok true ->
  jump code a_s = Ok j ->
  s < e ->
  (forall k y, s < k < e -> Code_getitem code k = Ok (Some y) ->
               opcode_in (opcode y) pop_jump_if_opcodes = false) ->
  Code_getitem code e = Ok (Some a_e) ->
  opcode_in (opcode a_e) pop_jump_if_opcodes = true ->
  Code_getitem code (e - 3) = Ok (Some q3) ->
  Code_getitem code (e - 2) = Ok (Some q2) ->
  (opcode q3 =? DUP_TOP) && (opcode q2 =? ROT_THREE) = false ->
  Code_getitem code (e + 2) = Ok c2 ->
  py_eq c2 j = true ->
  (Z.to_nat (e - s) < fuel)%nat ->
  proc_chained fuel code a_s = Ok (append_end (append_start code a_s) a_e, a_e).
Proof.
  intros Hs Ht Hj Hse Hbetween He Hpj Hq3 Hq2 Hno Hc2 Heq Hfuel.
  destruct fuel as [|fuel]; [lia|]. cbn [proc_chained].
  rewrite Ht. cbn [mbind res_bind]. rewrite jump_append_start, Hj. cbn [mbind res_bind].
  unfold Address_getitem. rewrite Code_getitem_append_start.
  destruct (Code_getitem_index _ _ _ Hs) as [-> Hrs].
  destruct (Code_getitem_index _ _ _ He) as [_ Hre].
  destruct (proj1 (Code_getitem_cases code (s + 1))) as (ad & op & ar & Hy & _); [lia|].
  rewrite Hy. cbn [mbind res_bind].
  apply (proc_chained_scan_to_end (append_start code a_s) a_s j c2 e a_e q3 q2)
    with (n := Z.to_nat (e - (s + 1))) (i := s + 1);
    try assumption; try lia.
  intros k y Hk. apply Hbetween. lia.
Qed.

(** When the pending branch on top has another target, [push_popjump]
    merges nothing and pushes the condition as it is. *)
Lemma merge_popjumps_apart (pending : list popjump) (jtruthiness : bool)
      (jaddr next_addr : option Address) (jcond : PyExpr) (original_opcode : Z) :
  apart_from_pending pending jaddr next_addr = true ->
  merge_popjumps (rev pending) jtruthiness jaddr jcond next_addr original_opcode
  = Ok (rev pending, jtruthiness, jcond).
Proof.
  unfold apart_from_pending. intros H.
  destruct (list_pop pending) as [[rest [[[t target] c] o]]|] eqn:E.
  - apply list_pop_Some in E. subst pending.
    rewrite rev_app_distr. cbn [rev app merge_popjumps].
    apply andb_true_iff in H as [H1 H2].
    apply negb_true_iff in H1. apply negb_true_iff in H2.
    rewrite H1, H2. reflexivity.
  - apply list_pop_nil_inv in E. subst pending. reflexivity.
Qed.

Lemma push_popjump_apart (code : Code) (jtruthiness : bool) (jaddr next_addr : option Address)
      (jcond : PyExpr) (a : Address) (dec : SuiteDecompiler) :
  Address_in a (end_chained_jumps code) = false ->
  Address_getitem code a 1 = Ok next_addr ->
  apart_from_pending (popjump_stack dec) jaddr next_addr = true ->
  opcode_in (opcode a) pop_jump_if_opcodes = true ->
  push_popjump code jtruthiness jaddr jcond a dec
  = Ok (set_popjump_stack dec (popjump_stack dec ++ [(jtruthiness, jaddr, jcond, a)])).
Proof.
  intros Hend Hnext Hap Hop. unfold push_popjump.
  rewrite Hend, Hnext. cbn [mbind res_bind].
  rewrite (merge_popjumps_apart _ _ _ _ _ _ Hap). cbn [mbind res_bind].
  rewrite rev_involutive.
  assert (Hne : (opcode a =? JUMP_IF_TRUE_OR_POP) = false).
  { unfold opcode_in, pop_jump_if_opcodes in Hop. cbn [existsb] in Hop.
    rewrite orb_false_r in Hop. apply orb_true_iff in Hop as [Hop|Hop];
      apply Z.eqb_eq in Hop; rewrite Hop; reflexivity. }
  rewrite Hne. reflexivity.
Qed.

(** The branch that starts a chained comparison leaves its comparison
    on the pending-branch stack. *)
Lemma chained_branch_start (code : Code) (truthiness : bool)
      (jump_addr next_addr : option Address) (a : Address) (dec : SuiteDecompiler)
      (below : list pyobj) (o : pyobj) :
  Address_in a (start_chained_jumps code) = true ->
  Address_in a (end_chained_jumps code) = false ->
  opcode_in (opcode a) pop_jump_if_opcodes = true ->
  Address_getitem code a 1 = Ok next_addr ->
  apart_from_pending (popjump_stack dec) jump_addr next_addr = true ->
  stack_inv obj_id (stack dec) -> _stack (stack dec) = below ++ [o] ->
  exists dec',
    chained_branch code truthiness jump_addr a dec = Ok (inl dec')
    /\ popjump_stack dec'
       = popjump_stack dec ++ [(truthiness, jump_addr, obj_val o, a)]
    /\ stack_inv obj_id (stack dec') /\ _stack (stack dec') = below.
Proof.
  intros Hs Hend Hop Hnext Hap Hinv Hst.
  destruct (stack_pop_inv dec below o Hinv Hst) as (s' & Hpop & Hinv' & Hst').
  unfold chained_branch. rewrite Hpop. cbn [mbind res_bind]. rewrite Hs.
  rewrite (push_popjump_apart code truthiness jump_addr next_addr (obj_val o) a
             (set_stack dec s') Hend Hnext Hap Hop).
  cbn [mbind res_bind]. eexists. split; [reflexivity|].
  split; [reflexivity|]. split; assumption.
Qed.

(** A branch inside a chained comparison takes the pending comparison,
    chains its own to it, and leaves the chain pending. *)
Lemma chained_branch_inner (code : Code) (truthiness : bool)
      (jump_addr next_addr j0 : option Address) (a a0 : Address) (dec : SuiteDecompiler)
      (below : list pyobj) (o : pyobj) (pending : list popjump)
      (l1 l2 : list (PyExpr + string)) :
  Address_in a (start_chained_jumps code) = false ->
  Address_in a (inner_chained_jumps code) = true ->
  Address_in a (end_chained_jumps code) = false ->
  opcode_in (opcode a) pop_jump_if_opcodes = true ->
  Address_getitem code a 1 = Ok next_addr ->
  popjump_stack dec = pending ++ [(false, j0, PyCompare l1, a0)] ->
  apart_from_pending pending jump_addr next_addr = true ->
  stack_inv obj_id (stack dec) -> _stack (stack dec) = below ++ [o] ->
  obj_val o = PyCompare l2 ->
  exists dec',
    chained_branch code truthiness jump_addr a dec = Ok (inl dec')
    /\ popjump_stack dec'
       = pending ++ [(false, jump_addr, PyCompare (l1 ++ py_slice_from l2 1), a)]
    /\ stack_inv obj_id (stack dec') /\ _stack (stack dec') = below.
Proof.
  intros Hs Hin Hend Hop Hnext Hpend Hap Hinv Hst Hval.
  destruct (stack_pop_inv dec below o Hinv Hst) as (s' & Hpop & Hinv' & Hst').
  unfold chained_branch. rewrite Hpop. cbn [mbind res_bind]. rewrite Hs, Hin.
  unfold pop_popjump. cbn [popjump_stack set_stack]. rewrite Hpend, list_pop_snoc.
  cbn [mbind res_bind]. rewrite Hval. cbn [chain mbind res_bind].
  rewrite (push_popjump_apart code false jump_addr next_addr _ a
             (set_popjump_stack (set_stack dec s') pending) Hend Hnext Hap Hop).
  cbn [mbind res_bind]. eexists. split; [reflexivity|].
  split; [reflexivity|]. split; assumption.
Qed.

(** The branch that ends a chained comparison takes the pending
    comparison and chains its own to it: the handler goes on with the
    chain as the condition of the branch. *)
Lemma chained_branch_end (code : Code) (truthiness : bool)
      (jump_addr j0 : option Address) (a a0 : Address) (dec : SuiteDecompiler)
      (below : list pyobj) (o : pyobj) (pending : list popjump)
      (l1 l2 : list (PyExpr + string)) :
  Address_in a (start_chained_jumps code) = false ->
  Address_in a (inner_chained_jumps code) = false ->
  Address_in a (end_chained_jumps code) = true ->
  popjump_stack dec = pending ++ [(false, j0, PyCompare l1, a0)] ->
  stack_inv obj_id (stack dec) -> _stack (stack dec) = below ++ [o] ->
  obj_val o = PyCompare l2 ->
  exists dec',
    chained_branch code truthiness jump_addr a dec
    = Ok (inr (PyCompare (l1 ++ py_slice_from l2 1), dec'))
    /\ popjump_stack dec' = pending
    /\ stack_inv obj_id (stack dec') /\ _stack (stack dec') = below.
Proof.
  intros Hs Hin Hend Hpend Hinv Hst Hval.
  destruct (stack_pop_inv dec below o Hinv Hst) as (s' & Hpop & Hinv' & Hst').
  unfold chained_branch. rewrite Hpop. cbn [mbind res_bind]. rewrite Hs, Hin, Hend.
  unfold pop_popjump. cbn [popjump_stack set_stack]. rewrite Hpend, list_pop_snoc.
  cbn [mbind res_bind]. rewrite Hval. cbn [chain mbind res_bind].
  eexists. split; [reflexivity|].
  split; [reflexivity|]. split; assumption.
Qed.

(** The handler of a branch that starts a chained comparison returns
    [None]: the loop of [run] goes on at the next instruction, with the
    first comparison pending. *)
Lemma POP_JUMP_IF_start (code : Code)
      (R : SuiteDecompiler -> res (SuiteDecompiler * option Address))
      (truthiness : bool) (jump_addr next_addr : option Address) (a : Address)
      (dec : SuiteDecompiler) (below : list pyobj) (o : pyobj) :
  jump code a = Ok jump_addr ->
  Address_getitem code a 1 = Ok next_addr ->
  py_eq jump_addr next_addr = false ->
  is_continue_jump code a = Ok false ->
  Address_in a (start_chained_jumps code) = true ->
  Address_in a (end_chained_jumps code) = false ->
  opcode_in (opcode a) pop_jump_if_opcodes = true ->
  apart_from_pending (popjump_stack dec) jump_addr next_addr = true ->
  stack_inv obj_id (stack dec) -> _stack (stack dec) = below ++ [o] ->
  exists dec',
    POP_JUMP_IF code truthiness a dec = Ok (dec', Goto None)
    /\ popjump_stack dec'
       = popjump_stack dec ++ [(truthiness, jump_addr, obj_val o, a)]
    /\ stack_inv obj_id (stack dec') /\ _stack (stack dec') = below.
Proof.
  intros Hj Hnext Hne Hcj Hs Hend Hop Hap Hinv Hst.
  destruct (chained_branch_start code truthiness jump_addr next_addr a dec below o
              Hs Hend Hop Hnext Hap Hinv Hst) as (dec' & E & Hp & Hi & Hb).
  exists dec'. split; [|repeat split; assumption].
  unfold POP_JUMP_IF. rewrite Hj. cbn [mbind res_bind]. rewrite Hnext.
  cbn [mbind res_bind]. rewrite Hne.
  unfold continue_jump_target. rewrite Hcj. cbn [mbind res_bind].
  rewrite E. reflexivity.
Qed.

Lemma Address_in_snoc (a : Address) (l : list Address) : Address_in a (l ++ [a]) = true.
Proof.
  unfold Address_in. rewrite existsb_app. cbn [existsb].
  rewrite Z.eqb_refl. cbn [orb]. apply orb_true_r.
Qed.

(** [proc_chained] on a comparison chained once.  Called with enough
    fuel on the branch at index [s] that follows [DUP_TOP; ROT_THREE;
    COMPARE_OP] and whose jump resolves, when no instruction strictly
    between [s] and [e] is a conditional branch, the instruction at [e]
    is a conditional branch that does not follow [DUP_TOP; ROT_THREE],
    and the instruction two after it is the target of the first
    branch: the call returns the branch at [e], having appended the
    first branch to the list of chain starts and the second to the list
    of chain ends, and changed nothing else. *)
Theorem proc_chained_lists_chain (code : Code) (s e : Z) (a_s a_e q3 q2 : Address)
        (j c2 : option Address) (fuel : nat) :
  Code_getitem code s = Ok (Some a_s) ->
  after_comparison_triplet code a_s = Ok true ->
  jump code a_s = Ok j ->
  s < e ->
  (forall k y, s < k < e -> Code_getitem code k = Ok (Some y) ->
               opcode_in (opcode y) pop_jump_if_opcodes = false) ->
  Code_getitem code e = Ok (Some a_e) ->
  opcode_in (opcode a_e) pop_jump_if_opcodes = true ->
  Code_getitem code (e - 3) = Ok (Some q3) ->
  Code_getitem code (e - 2) = Ok (Some q2) ->
  (opcode q3 =? DUP_TOP) && (opcode q2 =? ROT_THREE) = false ->
  Code_getitem code (e + 2) = Ok c2 ->
  py_eq c2 j = true ->
  (Z.to_nat (e - s) < fuel)%nat ->
  exists code',
    proc_chained fuel code a_s = Ok (code', a_e)
    /\ code' = set_chained_jumps code (start_chained_jumps code ++ [a_s])
                  (inner_chained_jumps code) (end_chained_jumps code ++ [a_e])
                  (ternaryop_jumps code)
    /\ Address_in a_s (start_chained_jumps code') = true
    /\ Address_in a_e (end_chained_jumps code') = true.
Proof.
  intros Hs Ht Hj Hse Hbetween He Hpj Hq3 Hq2 Hno Hc2 Heq Hfuel.
  exists (append_end (append_start code a_s) a_e).
  split; [|split; [reflexivity|split; apply Address_in_snoc]].
  exact (proc_chained_recognizes code s e a_s a_e q3 q2 j c2 fuel
           Hs Ht Hj Hse Hbetween He Hpj Hq3 Hq2 Hno Hc2 Heq Hfuel).
Qed.

(** In the code object of [if a < b < c: x] the branches are the
    instructions 5 and 8. *)
Lemma proc_chained_lists_chain_witness :
  proc_chained 10 if_chain_Code (mkAddress 5 10 POP_JUMP_IF_FALSE 20)
  = Ok (set_chained_jumps if_chain_Code
          (start_chained_jumps if_chain_Code ++ [mkAddress 5 10 POP_JUMP_IF_FALSE 20])
          (inner_chained_jumps if_chain_Code)
          (end_chained_jumps if_chain_Code ++ [mkAddress 8 16 POP_JUMP_IF_FALSE 28])
          (ternaryop_jumps if_chain_Code),
        mkAddress 8 16 POP_JUMP_IF_FALSE 28).
Proof.
  assert (Hbetween : forall k y, 5 < k < 8 ->
            Code_getitem if_chain_Code k = Ok (Some y) ->
            opcode_in (opcode y) pop_jump_if_opcodes = false).
  { intros k y Hk Hy.
    assert (Hk' : k = 6 \/ k = 7) by lia.
    destruct Hk' as [-> | ->]; vm_compute in Hy; inversion Hy; reflexivity. }
  assert (Hse : 5 < 8) by lia.
  assert (Hfuel : (Z.to_nat (8 - 5) < 10)%nat) by lia.
  destruct (proc_chained_lists_chain if_chain_Code 5 8
              (mkAddress 5 10 POP_JUMP_IF_FALSE 20) (mkAddress 8 16 POP_JUMP_IF_FALSE 28)
              (mkAddress 5 10 POP_JUMP_IF_FALSE 20) (mkAddress 6 12 LOAD_NAME 2)
              (Some (mkAddress 10 20 POP_TOP 0)) (Some (mkAddress 10 20 POP_TOP 0)) 10%nat
              eq_refl eq_refl eq_refl Hse Hbetween eq_refl eq_refl eq_refl eq_refl
              eq_refl eq_refl eq_refl Hfuel)
    as (code' & E & Ec & _).
  rewrite <- Ec. exact E.
Defined.

(** What [POP_JUMP_IF] does at the branches of a chained comparison,
    as the code object lists them.  The branch is a conditional branch
    whose jump resolves, elsewhere than to the next instruction, and is
    no continue jump; the operand stack holds a value on top and its
    counts match its entries, as on every stack the methods of [Stack]
    build; and the pending entry under the ones named, if any, has
    neither the target of the branch nor the next instruction as its
    target, so that [push_popjump] merges nothing.
    - A branch on the list of starts (and not of ends): the handler
      pops the comparison, leaves it pending with the sense and the
      target of the branch, and returns [None].
    - A branch on the list of inner branches only, with a comparison
      pending on false on top: the handler pops both, chains the popped
      comparison to the pending one, leaves the chain pending on false
      in one entry, and returns [None].
    - A branch on the list of ends only, with a comparison pending on
      false on top: past the tests on the three lists, the condition the
      handler goes on with is the popped comparison chained to the
      pending one, one comparison node, and the pending entry is
      gone. *)
Theorem POP_JUMP_IF_chained_branches (code : Code)
        (R : SuiteDecompiler -> res (SuiteDecompiler * option Address))
        (truthiness : bool) (a : Address) (jump_addr next_addr : option Address)
        (dec : SuiteDecompiler) (below : list pyobj) (o : pyobj) :
  opcode a = (if truthiness then POP_JUMP_IF_TRUE else POP_JUMP_IF_FALSE) ->
  jump code a = Ok jump_addr ->
  Address_getitem code a 1 = Ok next_addr ->
  py_eq jump_addr next_addr = false ->
  is_continue_jump code a = Ok false ->
  stack_inv obj_id (stack dec) ->
  _stack (stack dec) = below ++ [o] ->
  (Address_in a (start_chained_jumps code) = true ->
   Address_in a (end_chained_jumps code) = false ->
   apart_from_pending (popjump_stack dec) jump_addr next_addr = true ->
   exists dec',
     dispatch code R a dec = Ok (dec', Goto None)
     /\ popjump_stack dec'
        = popjump_stack dec ++ [(truthiness, jump_addr, obj_val o, a)]
     /\ _stack (stack dec') = below)
  /\ (forall pending j0 a0 l1 l2,
        Address_in a (start_chained_jumps code) = false ->
        Address_in a (inner_chained_jumps code) = true ->
        Address_in a (end_chained_jumps code) = false ->
        popjump_stack dec = pending ++ [(false, j0, PyCompare l1, a0)] ->
        apart_from_pending pending jump_addr next_addr = true ->
        obj_val o = PyCompare l2 ->
        exists dec',
          dispatch code R a dec = Ok (dec', Goto None)
          /\ popjump_stack dec'
             = pending ++ [(false, jump_addr, PyCompare (l1 ++ py_slice_from l2 1), a)]
          /\ _stack (stack dec') = below)
  /\ (forall pending j0 a0 l1 l2,
        Address_in a (start_chained_jumps code) = false ->
        Address_in a (inner_chained_jumps code) = false ->
        Address_in a (end_chained_jumps code) = true ->
        popjump_stack dec = pending ++ [(false, j0, PyCompare l1, a0)] ->
        obj_val o = PyCompare l2 ->
        exists dec',
          (j ← continue_jump_target code truthiness a jump_addr dec;
           chained_branch code truthiness j a dec)
          = Ok (inr (PyCompare (l1 ++ py_slice_from l2 1), dec'))
          /\ popjump_stack dec' = pending
          /\ _stack (stack dec') = below).
Proof.
  intros Ho Hj Hnext Hne Hcj Hinv Hst.
  assert (Hop : opcode_in (opcode a) pop_jump_if_opcodes = true)
    by (rewrite Ho; destruct truthiness; reflexivity).
  assert (Hd : dispatch code R a dec = POP_JUMP_IF code truthiness a dec).
  { unfold dispatch. rewrite Ho. unfold method_of.
    destruct truthiness;
      repeat match goal with
             | |- context [?x =? ?y] =>
                 let v := eval vm_compute in (x =? y) in
                 change (x =? y) with v; cbv iota
             end;
      reflexivity. }
  assert (Hct : continue_jump_target code truthiness a jump_addr dec = Ok jump_addr)
    by (unfold continue_jump_target; rewrite Hcj; reflexivity).
  split; [|split].
  - intros Hs Hend Hap.
    destruct (POP_JUMP_IF_start code R truthiness jump_addr next_addr a dec below o
                Hj Hnext Hne Hcj Hs Hend Hop Hap Hinv Hst) as (dec' & E & Hp & _ & Hb).
    exists dec'. rewrite Hd. repeat split; assumption.
  - intros pending j0 a0 l1 l2 Hs Hin Hend Hpend Hap Hval.
    destruct (chained_branch_inner code truthiness jump_addr next_addr j0 a a0 dec below o
                pending l1 l2 Hs Hin Hend Hop Hnext Hpend Hap Hinv Hst Hval)
      as (dec' & E & Hp & _ & Hb).
    exists dec'. split; [|split; assumption].
    rewrite Hd. unfold POP_JUMP_IF. rewrite Hj. cbn [mbind res_bind]. rewrite Hnext.
    cbn [mbind res_bind]. rewrite Hne, Hct. cbn [mbind res_bind].
    rewrite E. reflexivity.
  - intros pending j0 a0 l1 l2 Hs Hin Hend Hpend Hval.
    destruct (chained_branch_end code truthiness jump_addr j0 a a0 dec below o
                pending l1 l2 Hs Hin Hend Hpend Hinv Hst Hval)
      as (dec' & E & Hp & _ & Hb).
    exists dec'. rewrite Hct. cbn [mbind res_bind]. repeat split; assumption.
Qed.

(** At the module [if a < b < c: x], on the code object
    [proc_chained] returns: the branch at index 5, handled with [b] and
    [a < b] on the operand stack, leaves [a < b] pending. *)
Lemma POP_JUMP_IF_chained_branches_witness :
  let a_s := mkAddress 5 10 POP_JUMP_IF_FALSE 20 in
  let a_e := mkAddress 8 16 POP_JUMP_IF_FALSE 28 in
  let code1 := append_end (append_start if_chain_Code a_s) a_e in
  let cmp1 := PyCompare [inl (PyName "a"); inr "<"%string; inl (PyName "b")] in
  let dec_s := mkDec (mkAddress 0 0 LOAD_NAME 0) None
                     (calls_state obj_id [CallPush [mkObj 4 (PyName "b"); mkObj (-2) cmp1]]
                                  Stack_init)
                     Suite_init [] [] false false false None (-3) in
  exists dec_s',
    dispatch code1 (run 1 20 code1) a_s dec_s = Ok (dec_s', Goto None)
    /\ popjump_stack dec_s' = [(false, Some (mkAddress 10 20 POP_TOP 0), cmp1, a_s)]
    /\ _stack (stack dec_s') = [mkObj 4 (PyName "b")].
Proof.
  intros a_s a_e code1 cmp1 dec_s.
  destruct (POP_JUMP_IF_chained_branches code1 (run 1 20 code1) false a_s
              (Some (mkAddress 10 20 POP_TOP 0)) (Some (mkAddress 6 12 LOAD_NAME 2))
              dec_s [mkObj 4 (PyName "b")] (mkObj (-2) cmp1))
    as (Hstart & _); try (vm_compute; reflexivity).
  { apply calls_state_inv, Stack_init_inv. }
  destruct Hstart as (dec_s' & E & Hp & Hb); try (vm_compute; reflexivity).
  exists dec_s'. split; [exact E|]. split; [exact Hp|exact Hb].
Defined.

(** Chained comparisons as values.  For all names and all comparison
    operators, the module [x = a OP1 b OP2 c], where the branch of the
    chain is a [JUMP_IF_FALSE_OR_POP], is decompiled to the one
    assignment of the one comparison node of the three operands,
    displayed as [x = a OP1 b OP2 c]; and the module
    [x = a OP1 b OP2 c OP3 d] to the assignment of the one node of the
    four. *)
Theorem chained_comparison_value_decompiles (na nb nc nd nx : string) :
  Forall (fun i =>
    Forall (fun j =>
      ((s ← decompile 3 30 (3, 7) (chain_value_module na nb nc nx i j);
        Ok (statements s))
       = Ok [AssignStatement
               [PyName nx;
                PyCompare [inl (PyName na); inr (cmp_op_name i); inl (PyName nb);
                           inr (cmp_op_name j); inl (PyName nc)]]]
       /\ (s ← decompile 3 30 (3, 7) (chain_value_module na nb nc nx i j);
           Ok (Suite_str s))
          = Ok (nx +:+ " = " +:+ na +:+ " " +:+ cmp_op_name i +:+ " " +:+ nb
                +:+ " " +:+ cmp_op_name j +:+ " " +:+ nc))
      /\ Forall (fun k =>
           (s ← decompile 3 40 (3, 7) (chain_of_three_module na nb nc nd nx i j k);
            Ok (statements s))
           = Ok [AssignStatement
                   [PyName nx;
                    PyCompare [inl (PyName na); inr (cmp_op_name i); inl (PyName nb);
                               inr (cmp_op_name j); inl (PyName nc);
                               inr (cmp_op_name k); inl (PyName nd)]]])
           comparison_operands)
      comparison_operands)
    comparison_operands.
Proof.
  unfold comparison_operands.
  repeat match goal with
         | |- Forall _ (_ :: _) => apply List.Forall_cons
         | |- Forall _ [] => apply List.Forall_nil
         | |- _ /\ _ => split
         end;
    vm_compute; reflexivity.
Qed.

(** The merge of [push_popjump] opens a clause that is already a node
    of the operator it merges with, and puts the pending condition in
    front of its left operand: the chain nests on the left and is
    displayed without parentheses. *)
Theorem push_popjump_merge_is_left_nested
        (cond jleft jright : PyExpr) (flag allow_collision : bool) :
  merge_node MakeAnd cond (PyBooleanAnd jleft jright flag) allow_collision
  = Ok (PyBooleanAnd (PyBooleanAnd cond jleft allow_collision) jright allow_collision)
  /\ merge_node MakeOr cond (PyBooleanOr jleft jright flag) allow_collision
     = Ok (PyBooleanOr (PyBooleanOr cond jleft allow_collision) jright allow_collision)
  /\ str (PyBooleanAnd (PyBooleanAnd (PyName "a") (PyName "b") false) (PyName "c") false)
     = "a and b and c"%string
  /\ str (PyBooleanOr (PyBooleanOr (PyName "a") (PyName "b") false) (PyName "c") false)
     = "a or b or c"%string.
Proof. repeat split. Qed.

(** * Further properties of the modelled code *)

(** ** The operand stack: round trip and edge cases *)

Section StackEdges.
Context {obj : Type} (id : obj -> Z).

Lemma py_slice_from_suffix {A : Type} (l vs : list A) :
  vs <> [] -> py_slice_from (l ++ vs) (- Z.of_nat (length vs)) = vs.
Proof.
  intros Hne. unfold py_slice_from. rewrite length_app.
  assert (0 < length vs)%nat by (destruct vs; [contradiction|simpl; lia]).
  destruct (- Z.of_nat (length vs) <? 0) eqn:E; [|zlia].
  replace (Z.to_nat (Z.max 0 (- Z.of_nat (length vs)
                              + Z.of_nat (length l + length vs)))) with (length l) by lia.
  rewrite drop_app_length. reflexivity.
Qed.

Lemma py_slice_from_beyond {A : Type} (l : list A) (c : Z) :
  Z.of_nat (length l) <= c -> py_slice_from l (- c) = l.
Proof.
  intros Hc. unfold py_slice_from.
  destruct (- c <? 0) eqn:E.
  - replace (Z.to_nat (Z.max 0 (- c + Z.of_nat (length l)))) with 0%nat by lia.
    reflexivity.
  - assert (c = 0) by zlia. subst c. assert (length l = 0%nat) by lia.
    destruct l; [reflexivity|discriminate].
Qed.

(** Pushing values and popping as many gives the values back in the
    order they were pushed, and a stack with the entries and the counts
    it had before. *)
Theorem Stack_push_pop_round_trip (cs : list (stack_call obj)) (args : list obj) :
  let s := calls_state id cs Stack_init in
  exists s1 s2,
    push id args s = (Ok tt, s1)
    /\ pop id (Some (Z.of_nat (length args))) s1 = (Ok (Many args), s2)
    /\ _stack s2 = _stack s
    /\ (forall o, get_count id s2 o = get_count id s o)
    /\ (forall o, Stack_contains id s2 o = Stack_contains id s o).
Proof.
  intros s.
  assert (H : stack_inv id s) by (apply calls_state_inv, Stack_init_inv).
  destruct (push_inv id args s H) as (s1 & E1 & H1 & Hst1 & Hc1).
  destruct (pop_many_inv id s1 (_stack s) args H1 Hst1) as (s2 & E2 & H2 & Hst2 & Hc2).
  exists s1, s2. split; [exact E1|]. split; [exact E2|]. split; [exact Hst2|].
  assert (Hc : forall o, get_count id s2 o = get_count id s o).
  { intros o. rewrite Hc2, Hc1. lia. }
  split; [exact Hc|]. intros o. unfold Stack_contains. rewrite Hc. reflexivity.
Qed.

(** [peek(count)] and [pop(count)] return the same values when the
    stack holds at least [count] of them and [count] is positive.  At
    the edges they part: [peek(0)] is the whole stack while [pop(0)] is
    the empty list; with fewer than [count] values [peek(count)] is the
    whole stack, while [pop(count)] raises after it has removed every
    value, and the stack is left empty; on the empty stack [peek()]
    raises [IndexError] and [pop()] the exception of [pop1]. *)
Theorem Stack_peek_pop_edges (cs : list (stack_call obj)) :
  let s := calls_state id cs Stack_init in
  (forall l vs, _stack s = l ++ vs -> vs <> [] ->
     peek (Some (Z.of_nat (length vs))) s = (Ok (Many vs), s)
     /\ exists s', pop id (Some (Z.of_nat (length vs))) s = (Ok (Many vs), s')
                   /\ _stack s' = l)
  /\ (forall l v, _stack s = l ++ [v] ->
        peek None s = (Ok (One v), s)
        /\ exists s', pop id None s = (Ok (One v), s') /\ _stack s' = l)
  /\ peek (Some 0) s = (Ok (Many (_stack s)), s)
  /\ pop id (Some 0) s = (Ok (Many []), s)
  /\ (forall c, Z.of_nat (length (_stack s)) < c ->
        peek (Some c) s = (Ok (Many (_stack s)), s)
        /\ exists s', pop id (Some c) s = (Raise (Exception "Empty stack popped!"), s')
                      /\ _stack s' = []
                      /\ forall o, get_count id s' o = 0)
  /\ (_stack s = [] ->
        peek None s = (Raise IndexError, s)
        /\ pop id None s = (Raise (Exception "Empty stack popped!"), s)).
Proof.
  intros s.
  assert (H : stack_inv id s) by (apply calls_state_inv, Stack_init_inv).
  split; [|split; [|split; [|split; [|split]]]].
  - intros l vs Hst Hne. split.
    + unfold peek. rewrite Hst, py_slice_from_suffix by exact Hne. reflexivity.
    + destruct (pop_many_inv id s l vs H Hst) as (s' & E & _ & Hst' & _).
      exists s'. split; assumption.
  - intros l v Hst. split.
    + unfold peek, py_index. rewrite Hst, length_app. cbn [length].
      destruct (-1 <? 0) eqn:E; [|discriminate].
      replace (-1 + Z.of_nat (length l + 1)) with (Z.of_nat (length l)) by lia.
      destruct ((0 <=? Z.of_nat (length l))
                && (Z.of_nat (length l) <? Z.of_nat (length l + 1))) eqn:E2;
        [|apply andb_false_iff in E2 as [E2|E2]; zlia].
      rewrite Nat2Z.id, lookup_app_r, Nat.sub_diag by lia. reflexivity.
    + destruct (pop1_inv id s l v H Hst) as (s' & E & _ & Hst' & _).
      exists s'. unfold pop. rewrite E. split; [reflexivity|exact Hst'].
  - unfold peek, py_slice_from. change (- 0 <? 0) with false. cbv iota.
    replace (Z.to_nat (Z.min (- 0) (Z.of_nat (length (_stack s))))) with 0%nat by lia.
    reflexivity.
  - reflexivity.
  - intros c Hc. split.
    + unfold peek. rewrite py_slice_from_beyond by lia. reflexivity.
    + destruct (pop_range_underflow id (Z.to_nat c) [] s H) as (s' & E & H' & Hst'); [lia|].
      exists s'. unfold pop. rewrite E. split; [reflexivity|]. split; [exact Hst'|].
      intros o. rewrite (get_count_inv id s' o H'), Hst'. reflexivity.
  - intros Hst. split.
    + unfold peek, py_index. rewrite Hst. reflexivity.
    + unfold pop. rewrite (pop1_empty id s Hst). reflexivity.
Qed.

End StackEdges.

(** ** The decode pass: addresses and the end of the walk *)

Lemma code_walker_wordcode (version_info : Z * Z) (code : list Byte.byte) :
  version_ge version_info (3, 6) = true ->
  code_walker version_info code = fold_prefixes 0 None code.
Proof.
  intros Hv. unfold code_walker. rewrite Hv.
  destruct (walk_wordcode_refines code (length code) 0%nat) as [Hw _].
  { rewrite drop_0. lia. }
  specialize (Hw (S (length code))). rewrite drop_0 in Hw. apply Hw. lia.
Qed.

(** The instructions start at the address of their first unit: the
    addresses lie in the array, two bytes before its end at most, keep
    the parity of the start, and increase strictly. *)
Lemma fold_prefixes_addresses (code : list Byte.byte) :
  forall (pos : Z) (run : option (Z * Z)) (lo m : Z),
    lo = match run with None => pos | Some r => fst r end ->
    0 <= m -> pos = lo + 2 * m ->
    Forall (fun ins : instr =>
              lo <= fst ins /\ fst ins + 2 <= pos + Z.of_nat (length code)
              /\ exists k, 0 <= k /\ fst ins = lo + 2 * k)
           (fst (fold_prefixes pos run code))
    /\ StronglySorted (fun x y : instr => fst x < fst y)
                      (fst (fold_prefixes pos run code))
    /\ (2 * length (fst (fold_prefixes pos run code)) <= length code)%nat.
Proof.
  induction code as [|x|op arg rest IH] using list_pair_ind; intros pos run lo m Hlo Hm Hpos.
  - cbn. repeat split; constructor.
  - cbn. repeat split; try constructor. lia.
  - cbn [fold_prefixes].
    destruct run as [[start acc]|]; cbn [fst] in Hlo; subst lo.
    + destruct (byte_val op =? EXTENDED_ARG) eqn:E.
      * destruct (IH (pos + 2) (Some (start, Z.lor (Z.shiftl acc 8) (byte_val arg)))
                    start (m + 1) eq_refl) as (H1 & H2 & H3); [lia|lia|].
        split; [|split; [exact H2|cbn [length]; lia]].
        eapply Forall_impl; [exact H1|].
        intros ins (Ha & Hb & Hc). cbn [length]. repeat split; [lia|lia|exact Hc].
      * destruct (IH (pos + 2) None (pos + 2) 0 eq_refl) as (H1 & H2 & H3); [lia|lia|].
        destruct (fold_prefixes (pos + 2) None rest) as [ys r]. cbn [fst] in *.
        split; [|split].
        -- constructor.
           ++ cbn [fst length]. repeat split; [lia|lia|]. exists 0. lia.
           ++ eapply Forall_impl; [exact H1|].
              intros ins (Ha & Hb & (k & Hk & Hc)). cbn [length].
              repeat split; [lia|lia|]. exists (m + 1 + k). lia.
        -- constructor; [exact H2|].
           eapply Forall_impl; [exact H1|]. intros ins (Ha & _). cbn [fst]. lia.
        -- cbn [length]. lia.
    + destruct (byte_val op =? EXTENDED_ARG) eqn:E.
      * destruct (IH (pos + 2) (Some (pos, Z.lor (Z.shiftl 0 8) (byte_val arg)))
                    pos 1 eq_refl) as (H1 & H2 & H3); [lia|lia|].
        split; [|split; [exact H2|cbn [length]; lia]].
        eapply Forall_impl; [exact H1|].
        intros ins (Ha & Hb & Hc). cbn [length]. repeat split; [lia|lia|exact Hc].
      * destruct (IH (pos + 2) None (pos + 2) 0 eq_refl) as (H1 & H2 & H3); [lia|lia|].
        destruct (fold_prefixes (pos + 2) None rest) as [ys r]. cbn [fst] in *.
        split; [|split].
        -- constructor.
           ++ cbn [fst length]. repeat split; [lia|lia|]. exists 0. lia.
           ++ eapply Forall_impl; [exact H1|].
              intros ins (Ha & Hb & (k & Hk & Hc)). cbn [length].
              repeat split; [lia|lia|]. exists (1 + k). lia.
        -- constructor; [exact H2|].
           eapply Forall_impl; [exact H1|]. intros ins (Ha & _). cbn [fst]. lia.
        -- cbn [length]. lia.
Qed.

(** The walk ends without an exception exactly when the array is made
    of whole units and the last unit is no widening prefix. *)
Lemma fold_prefixes_ends_well (code : list Byte.byte) :
  forall (pos : Z) (run : option (Z * Z)),
    snd (fold_prefixes pos run code) = Ok tt
    <-> Nat.even (length code) = true
        /\ (code = [] -> run = None)
        /\ forall b, code !! (length code - 2)%nat = Some b -> byte_val b <> EXTENDED_ARG.
Proof.
  induction code as [|x|op arg rest IH] using list_pair_ind; intros pos run.
  - cbn. split.
    + intros H. destruct run; [discriminate|]. repeat split; intros; discriminate.
    + intros (_ & H & _). rewrite (H eq_refl). reflexivity.
  - cbn. split; [discriminate|]. intros (H & _). discriminate.
  - cbn [fold_prefixes].
    destruct (match run with None => (pos, 0) | Some r => r end) as [start acc].
    assert (Hlast : (op :: arg :: rest) !! (length (op :: arg :: rest) - 2)%nat
                    = match rest with
                      | [] => Some op
                      | [_] => Some arg
                      | _ => rest !! (length rest - 2)%nat
                      end).
    { cbn [length]. replace (S (S (length rest)) - 2)%nat with (length rest) by lia.
      destruct rest as [|y [|z rest']]; [reflexivity|reflexivity|].
      cbn [length]. replace (S (S (length rest')) - 2)%nat with (length rest') by lia.
      reflexivity. }
    rewrite Hlast.
    assert (Heven : Nat.even (length (op :: arg :: rest)) = Nat.even (length rest))
      by reflexivity.
    rewrite Heven.
    destruct (byte_val op =? EXTENDED_ARG) eqn:E.
    + rewrite IH. split.
      * intros (He & Hne & Hl). split; [exact He|]. split; [discriminate|].
        destruct rest as [|y [|z rest']].
        -- specialize (Hne eq_refl). discriminate.
        -- discriminate He.
        -- exact Hl.
      * intros (He & _ & Hl). split; [exact He|].
        destruct rest as [|y [|z rest']].
        -- exfalso. apply (Hl op eq_refl). zlia.
        -- discriminate He.
        -- split; [discriminate|exact Hl].
    + destruct (fold_prefixes (pos + 2) None rest) as [ys r] eqn:Ef. cbn [snd].
      specialize (IH (pos + 2) None). rewrite Ef in IH. cbn [snd] in IH.
      rewrite IH. split.
      * intros (He & _ & Hl). split; [exact He|]. split; [discriminate|].
        destruct rest as [|y [|z rest']].
        -- intros b Hb. inversion Hb; subst b. zlia.
        -- discriminate He.
        -- exact Hl.
      * intros (He & _ & Hl). split; [exact He|]. split; [reflexivity|].
        destruct rest as [|y [|z rest']].
        -- intros b Hb. discriminate Hb.
        -- discriminate He.
        -- exact Hl.
Qed.

Lemma code_walker_address_facts (version_info : Z * Z) (code : list Byte.byte) :
  version_ge version_info (3, 6) = true ->
  Forall (fun ins : instr =>
            0 <= fst ins /\ fst ins + 2 <= Z.of_nat (length code)
            /\ fst ins mod 2 = 0)
         (fst (code_walker version_info code))
  /\ StronglySorted (fun x y : instr => fst x < fst y) (fst (code_walker version_info code))
  /\ NoDup (map fst (fst (code_walker version_info code)))
  /\ (2 * length (fst (code_walker version_info code)) <= length code)%nat
  /\ (snd (code_walker version_info code) = Ok tt
      <-> Nat.even (length code) = true
          /\ forall b, code !! (length code - 2)%nat = Some b ->
                       byte_val b <> EXTENDED_ARG)
  /\ (snd (code_walker version_info code) <> Ok tt ->
      snd (code_walker version_info code) = Raise IndexError).
Proof.
  intros Hv. rewrite (code_walker_wordcode version_info code Hv).
  destruct (fold_prefixes_addresses code 0 None 0 0 eq_refl) as (H1 & H2 & H3); [lia|lia|].
  split; [|split; [exact H2|split; [|split; [exact H3|split]]]].
  - eapply Forall_impl; [exact H1|].
    intros ins (Ha & Hb & (k & Hk & Hc)). repeat split; [lia|lia|].
    rewrite Hc. replace (0 + 2 * k) with (k * 2) by lia. apply Z.mod_mul. lia.
  - clear H1 H3. induction H2 as [|x l Hs IH Hx]; [constructor|].
    cbn [map]. constructor; [|exact IH].
    intros Hin. change (map fst l) with (fst <$> l) in Hin.
    apply list_elem_of_fmap in Hin as (y & Hy & Hin).
    rewrite Forall_forall in Hx. specialize (Hx y Hin). lia.
  - rewrite fold_prefixes_ends_well. split.
    + intros (He & _ & Hl). split; assumption.
    + intros (He & Hl). split; [exact He|]. split; [reflexivity|exact Hl].
  - intros Hne. destruct (fold_prefixes_ends code 0 None) as [E|E]; [contradiction|exact E].
Qed.

(** Under an interpreter of version 3.6 or later, the addresses
    [code_walker] yields are even offsets into the array, at least two
    bytes before its end, and increase strictly from one instruction to
    the next; there is at most one instruction for two bytes.  The walk
    ends normally exactly when the array has an even length and its
    last unit is no [EXTENDED_ARG] prefix; otherwise it raises
    [IndexError], after the instructions decoded so far. *)
Theorem code_walker_addresses (version_info : Z * Z) (code : list Byte.byte) :
  version_ge version_info (3, 6) = true ->
  Forall (fun ins : instr =>
            0 <= fst ins /\ fst ins + 2 <= Z.of_nat (length code)
            /\ fst ins mod 2 = 0)
         (fst (code_walker version_info code))
  /\ StronglySorted (fun x y : instr => fst x < fst y) (fst (code_walker version_info code))
  /\ NoDup (map fst (fst (code_walker version_info code)))
  /\ (2 * length (fst (code_walker version_info code)) <= length code)%nat
  /\ (snd (code_walker version_info code) = Ok tt
      <-> Nat.even (length code) = true
          /\ forall b, code !! (length code - 2)%nat = Some b ->
                       byte_val b <> EXTENDED_ARG)
  /\ (snd (code_walker version_info code) <> Ok tt ->
      snd (code_walker version_info code) = Raise IndexError).
Proof.
  intros Hv. rewrite (code_walker_wordcode version_info code Hv).
  destruct (fold_prefixes_addresses code 0 None 0 0 eq_refl) as (H1 & H2 & H3); [lia|lia|].
  split; [|split; [exact H2|split; [|split; [exact H3|split]]]].
  - eapply Forall_impl; [exact H1|].
    intros ins (Ha & Hb & (k & Hk & Hc)). repeat split; [lia|lia|].
    rewrite Hc. replace (0 + 2 * k) with (k * 2) by lia. apply Z.mod_mul. lia.
  - clear H1 H3. induction H2 as [|x l Hs IH Hx]; [constructor|].
    cbn [map]. constructor; [|exact IH].
    intros Hin. change (map fst l) with (fst <$> l) in Hin.
    apply list_elem_of_fmap in Hin as (y & Hy & Hin).
    rewrite Forall_forall in Hx. specialize (Hx y Hin). lia.
  - rewrite fold_prefixes_ends_well. split.
    + intros (He & _ & Hl). split; assumption.
    + intros (He & Hl). split; [exact He|]. split; [reflexivity|exact Hl].
  - intros Hne. destruct (fold_prefixes_ends code 0 None) as [E|E]; [contradiction|exact E].
Qed.

(** [LOAD_CONST 2] followed by a lone [EXTENDED_ARG] byte: an odd
    length, one instruction, then [IndexError]. *)
Lemma code_walker_addresses_witness :
  version_ge (3, 7) (3, 6) = true
  /\ NoDup (map fst (fst (code_walker (3, 7) [Byte.x64; Byte.x02; Byte.x90])))
  /\ snd (code_walker (3, 7) [Byte.x64; Byte.x02; Byte.x90]) = Raise IndexError.
Proof.
  split; [reflexivity|].
  destruct (code_walker_addresses (3, 7) [Byte.x64; Byte.x02; Byte.x90] eq_refl)
    as (_ & _ & Hnd & _ & Hend & Hraise).
  split; [exact Hnd|].
  apply Hraise. intros H. apply Hend in H as [He _]. discriminate He.
Defined.

(** ** The address map ([instr_map], [Code.address], [Address.jump]) *)

Lemma make_instr_map_snoc (seq : list instr) (y : instr) :
  make_instr_map (seq ++ [y])
  = <[fst y := Z.of_nat (length seq)]> (make_instr_map seq).
Proof.
  unfold make_instr_map. rewrite imap_app, fold_left_app. cbn [imap fold_left fst snd].
  rewrite Nat.add_0_r. reflexivity.
Qed.

(** The dict comprehension maps an address to the index of the last
    instruction that has it. *)
Lemma make_instr_map_Some (seq : list instr) : forall (ad i : Z),
  make_instr_map seq !! ad = Some i ->
  0 <= i /\ exists x, seq !! Z.to_nat i = Some (ad, x).
Proof.
  induction seq as [|y seq IH] using rev_ind; intros ad i H.
  - unfold make_instr_map in H. cbn in H. rewrite lookup_empty in H. discriminate.
  - rewrite make_instr_map_snoc in H.
    destruct (decide (fst y = ad)) as [<-|Hne].
    + rewrite lookup_insert_eq in H. inversion H; subst i.
      split; [apply Nat2Z.is_nonneg|].
      exists (snd y). rewrite Nat2Z.id. rewrite lookup_app_r; [|reflexivity].
      rewrite Nat.sub_diag. destruct y; reflexivity.
    + rewrite lookup_insert_ne in H by exact Hne.
      destruct (IH ad i H) as (Hi & x & Hx). split; [exact Hi|].
      exists x. rewrite lookup_app_l; [exact Hx|]. apply lookup_lt_Some in Hx. exact Hx.
Qed.

Lemma make_instr_map_None (seq : list instr) (ad : Z) :
  make_instr_map seq !! ad = None <-> ad ∉ map fst seq.
Proof.
  induction seq as [|y seq IH] using rev_ind.
  - unfold make_instr_map. cbn. rewrite lookup_empty. split; [|reflexivity].
    intros _ H. inversion H.
  - rewrite make_instr_map_snoc, map_app. cbn [map].
    rewrite not_elem_of_app, list_elem_of_singleton.
    destruct (decide (fst y = ad)) as [<-|Hne].
    + rewrite lookup_insert_eq. split; [discriminate|]. intros [_ H]. contradiction.
    + rewrite lookup_insert_ne by exact Hne. rewrite IH. split.
      * intros H. split; [exact H|]. intros E. apply Hne. symmetry. exact E.
      * intros [H _]. exact H.
Qed.

Lemma make_instr_map_NoDup (seq : list instr) :
  NoDup (map fst seq) ->
  forall (i : nat) (ad : Z) (x : Z * Z),
    seq !! i = Some (ad, x) -> make_instr_map seq !! ad = Some (Z.of_nat i).
Proof.
  induction seq as [|y seq IH] using rev_ind; intros Hnd i ad x H.
  - discriminate.
  - rewrite make_instr_map_snoc. rewrite map_app in Hnd. cbn [map] in Hnd.
    apply NoDup_app in Hnd as (Hnd & Hdis & _).
    destruct (decide (i < length seq)%nat) as [Hlt|Hge].
    + rewrite lookup_app_l in H by exact Hlt.
      assert (Hin : ad ∈ map fst seq).
      { change (map fst seq) with (fst <$> seq). apply list_elem_of_fmap.
        exists (ad, x). split; [reflexivity|]. apply list_elem_of_lookup. exists i. exact H. }
      assert (Hne : fst y <> ad).
      { intros E. apply (Hdis ad Hin). rewrite <- E. apply list_elem_of_singleton. reflexivity. }
      rewrite lookup_insert_ne by exact Hne. apply (IH Hnd i ad x H).
    + assert (Hi : i = length seq).
      { apply lookup_lt_Some in H. rewrite length_app in H. cbn in H. lia. }
      subst i. rewrite lookup_app_r in H; [|reflexivity].
      rewrite Nat.sub_diag in H. inversion H; subst y.
      cbn [fst]. rewrite lookup_insert_eq. reflexivity.
Qed.

Lemma Code_new_decoded (version_info : Z * Z) (co : code_obj) (code : Code) :
  Code_new version_info co = Ok code -> decoded_from version_info co code.
Proof. intros H. exists code. repeat split. exact H. Qed.

Lemma decoded_from_sequence (version_info : Z * Z) (co : code_obj) (code : Code) :
  decoded_from version_info co code ->
  snd (code_walker version_info (co_code co)) = Ok tt
  /\ instr_seq code = fst (code_walker version_info (co_code co))
  /\ instr_map code = make_instr_map (instr_seq code).
Proof.
  intros (code0 & Hnew & Hs & Hm). unfold Code_new, list_code_walker in Hnew.
  destruct (code_walker version_info (co_code co)) as [seq r].
  destruct r as [[]| | |]; try discriminate. cbn in Hnew. inversion Hnew; subst code0.
  cbn in Hs, Hm. rewrite Hs, Hm. repeat split.
Qed.

Lemma Code_address_facts (version_info : Z * Z) (co : code_obj) (code : Code) :
  version_ge version_info (3, 6) = true ->
  decoded_from version_info co code ->
  (forall i a, Code_getitem code i = Ok (Some a) ->
               Code_address code (addr a) = Ok (Some a))
  /\ (forall ad a, Code_address code ad = Ok (Some a) ->
                   addr a = ad /\ Code_getitem code (index a) = Ok (Some a))
  /\ (forall ad, (forall i a, Code_getitem code i = Ok (Some a) -> addr a <> ad) ->
                 Code_address code ad = Raise KeyError)
  /\ (forall ad, ad mod 2 <> 0 -> Code_address code ad = Raise KeyError)
  /\ (forall ad, Code_address code ad <> Ok None).
Proof.
  intros Hv Hdec.
  destruct (decoded_from_sequence _ _ _ Hdec) as (_ & Hseq & Hmap).
  destruct (code_walker_address_facts version_info (co_code co) Hv)
    as (Hall & _ & Hnd & _). rewrite <- Hseq in Hall, Hnd.
  assert (Hget : forall i a, Code_getitem code i = Ok (Some a) ->
            0 <= i < Code_len code
            /\ instr_seq code !! Z.to_nat i = Some (addr a, (opcode a, arg a))
            /\ index a = i).
  { intros i a Ha. destruct (Code_getitem_index _ _ _ Ha) as [Hi Hr].
    split; [exact Hr|]. split; [|exact Hi].
    destruct (proj1 (Code_getitem_cases code i) Hr) as (ad & op & ar & E & Hl).
    rewrite E in Ha. inversion Ha; subst a. exact Hl. }
  assert (Hback : forall ad i, instr_map code !! ad = Some i ->
            exists a, Code_getitem code i = Ok (Some a) /\ addr a = ad /\ index a = i).
  { intros ad i Hi. rewrite Hmap in Hi.
    destruct (make_instr_map_Some _ _ _ Hi) as (Hi0 & x & Hx).
    assert (Hr : 0 <= i < Code_len code).
    { apply lookup_lt_Some in Hx. unfold Code_len, instr in *. lia. }
    destruct (proj1 (Code_getitem_cases code i) Hr) as (ad' & op & ar & E & Hl).
    rewrite Hx in Hl. inversion Hl; subst.
    eexists. split; [exact E|]. split; reflexivity. }
  split; [|split; [|split; [|split]]].
  - intros i a Ha. destruct (Hget i a Ha) as (Hr & Hl & Hi).
    unfold Code_address. rewrite Hmap.
    rewrite (make_instr_map_NoDup _ Hnd _ _ _ Hl), Z2Nat.id by lia. exact Ha.
  - intros ad a Ha. unfold Code_address in Ha.
    destruct (instr_map code !! ad) as [i|] eqn:Ei; [|discriminate].
    destruct (Hback ad i Ei) as (a' & Ea' & Had & Hidx).
    rewrite Ea' in Ha. inversion Ha; subst a'. split; [exact Had|].
    rewrite Hidx. exact Ea'.
  - intros ad Hno. unfold Code_address.
    destruct (instr_map code !! ad) as [i|] eqn:Ei; [|reflexivity].
    destruct (Hback ad i Ei) as (a' & Ea' & Had & _).
    exfalso. exact (Hno i a' Ea' Had).
  - intros ad Hodd. unfold Code_address.
    destruct (instr_map code !! ad) as [i|] eqn:Ei; [|reflexivity].
    destruct (Hback ad i Ei) as (a' & Ea' & Had & _).
    destruct (Hget i a' Ea') as (_ & Hl & _).
    rewrite Forall_forall in Hall.
    assert (Hin : (addr a', (opcode a', arg a')) ∈ instr_seq code)
      by (apply list_elem_of_lookup; eexists; exact Hl).
    destruct (Hall _ Hin) as (_ & _ & Hm). cbn [fst] in Hm. rewrite Had in Hm. contradiction.
  - intros ad Ha. unfold Code_address in Ha.
    destruct (instr_map code !! ad) as [i|] eqn:Ei; [|discriminate].
    destruct (Hback ad i Ei) as (a' & Ea' & _). rewrite Ea' in Ha. discriminate.
Qed.

(** [Code.address] is the inverse of reading the address of an
    instruction: the address of the instruction at any index leads back
    to that instruction, an address [Code.address] accepts is the
    address of the instruction it returns, and an address at which no
    instruction starts (every odd one, for instance) raises [KeyError].
    [Code.address] never returns [None]. *)
Theorem Code_address_round_trip (version_info : Z * Z) (co : code_obj) (code : Code) :
  version_ge version_info (3, 6) = true ->
  decoded_from version_info co code ->
  (forall i a, Code_getitem code i = Ok (Some a) ->
               Code_address code (addr a) = Ok (Some a))
  /\ (forall ad a, Code_address code ad = Ok (Some a) ->
                   addr a = ad /\ Code_getitem code (index a) = Ok (Some a))
  /\ (forall ad, (forall i a, Code_getitem code i = Ok (Some a) -> addr a <> ad) ->
                 Code_address code ad = Raise KeyError)
  /\ (forall ad, ad mod 2 <> 0 -> Code_address code ad = Raise KeyError)
  /\ (forall ad, Code_address code ad <> Ok None).
Proof.
  intros Hv Hdec.
  destruct (decoded_from_sequence _ _ _ Hdec) as (_ & Hseq & Hmap).
  destruct (code_walker_address_facts version_info (co_code co) Hv)
    as (Hall & _ & Hnd & _). rewrite <- Hseq in Hall, Hnd.
  assert (Hget : forall i a, Code_getitem code i = Ok (Some a) ->
            0 <= i < Code_len code
            /\ instr_seq code !! Z.to_nat i = Some (addr a, (opcode a, arg a))
            /\ index a = i).
  { intros i a Ha. destruct (Code_getitem_index _ _ _ Ha) as [Hi Hr].
    split; [exact Hr|]. split; [|exact Hi].
    destruct (proj1 (Code_getitem_cases code i) Hr) as (ad & op & ar & E & Hl).
    rewrite E in Ha. inversion Ha; subst a. exact Hl. }
  assert (Hback : forall ad i, instr_map code !! ad = Some i ->
            exists a, Code_getitem code i = Ok (Some a) /\ addr a = ad /\ index a = i).
  { intros ad i Hi. rewrite Hmap in Hi.
    destruct (make_instr_map_Some _ _ _ Hi) as (Hi0 & x & Hx).
    assert (Hr : 0 <= i < Code_len code).
    { apply lookup_lt_Some in Hx. unfold Code_len, instr in *. lia. }
    destruct (proj1 (Code_getitem_cases code i) Hr) as (ad' & op & ar & E & Hl).
    rewrite Hx in Hl. inversion Hl; subst.
    eexists. split; [exact E|]. split; reflexivity. }
  split; [|split; [|split; [|split]]].
  - intros i a Ha. destruct (Hget i a Ha) as (Hr & Hl & Hi).
    unfold Code_address. rewrite Hmap.
    rewrite (make_instr_map_NoDup _ Hnd _ _ _ Hl), Z2Nat.id by lia. exact Ha.
  - intros ad a Ha. unfold Code_address in Ha.
    destruct (instr_map code !! ad) as [i|] eqn:Ei; [|discriminate].
    destruct (Hback ad i Ei) as (a' & Ea' & Had & Hidx).
    rewrite Ea' in Ha. inversion Ha; subst a'. split; [exact Had|].
    rewrite Hidx. exact Ea'.
  - intros ad Hno. unfold Code_address.
    destruct (instr_map code !! ad) as [i|] eqn:Ei; [|reflexivity].
    destruct (Hback ad i Ei) as (a' & Ea' & Had & _).
    exfalso. exact (Hno i a' Ea' Had).
  - intros ad Hodd. unfold Code_address.
    destruct (instr_map code !! ad) as [i|] eqn:Ei; [|reflexivity].
    destruct (Hback ad i Ei) as (a' & Ea' & Had & _).
    destruct (Hget i a' Ea') as (_ & Hl & _).
    rewrite Forall_forall in Hall.
    assert (Hin : (addr a', (opcode a', arg a')) ∈ instr_seq code)
      by (apply list_elem_of_lookup; eexists; exact Hl).
    destruct (Hall _ Hin) as (_ & _ & Hm). cbn [fst] in Hm. rewrite Had in Hm. contradiction.
  - intros ad Ha. unfold Code_address in Ha.
    destruct (instr_map code !! ad) as [i|] eqn:Ei; [|discriminate].
    destruct (Hback ad i Ei) as (a' & Ea' & _). rewrite Ea' in Ha. discriminate.
Qed.

(** The code object of [if a < b < c: x]: the address 20 leads to the
    instruction of index 10, the odd address 21 to [KeyError]. *)
Lemma Code_address_round_trip_witness :
  version_ge (3, 7) (3, 6) = true
  /\ decoded_from (3, 7) if_chain_example if_chain_Code
  /\ Code_address if_chain_Code 20 = Ok (Some (mkAddress 10 20 POP_TOP 0))
  /\ Code_address if_chain_Code 21 = Raise KeyError.
Proof.
  assert (Hdec : decoded_from (3, 7) if_chain_example if_chain_Code).
  { exists if_chain_Code. split; [vm_compute; reflexivity|split; reflexivity]. }
  split; [reflexivity|]. split; [exact Hdec|].
  destruct (Code_address_round_trip (3, 7) if_chain_example if_chain_Code eq_refl Hdec)
    as (H1 & _ & _ & H4 & _).
  split.
  - apply (H1 10 (mkAddress 10 20 POP_TOP 0)). vm_compute. reflexivity.
  - apply H4. vm_compute. discriminate.
Defined.

(** The code object [Code.__init__] returns holds the sequence and the
    map made before the analysis passes. *)
Lemma Code_init_decoded (version_info : Z * Z) (co : code_obj) (code : Code) :
  Code_init version_info co = Ok code -> decoded_from version_info co code.
Proof.
  unfold Code_init. intros H.
  destruct (Code_new version_info co) as [c0| | |] eqn:E0; rbind H.
  exists c0. split; [exact E0|].
  unfold find_else in H.
  destruct (Code_iter c0) as [addrs| | |]; rbind H.
  destruct (find_else_loop c0 addrs ∅) as [jumps| | |]; rbind H.
  destruct (make_linemap co) as [[lm ln]| | |]; rbind H.
  unfold find_jumps in H.
  match type of H with context [Code_iter ?c] =>
    destruct (Code_iter c) as [addrs2| | |]; rbind H end.
  match type of H with context [find_jumps_loop ?c ?a ?l] =>
    destruct (find_jumps_loop c a l) as [sj| | |]; rbind H end.
  match type of H with context [Code_iter ?c] =>
    destruct (Code_iter c) as [addrs3| | |]; rbind H end.
  match type of H with context [implicit_continuation_lines_loop ?c ?a] =>
    destruct (implicit_continuation_lines_loop c a) as [u| | |]; rbind H end.
  inversion H; subst code. split; reflexivity.
Qed.

(** [Address.jump] returns an instruction of the code object or
    [None], never an address outside it: an absolute jump lands on the
    instruction that starts at its operand, a relative jump on the one
    that starts that many bytes after the next instruction; where no
    instruction starts there the call raises [KeyError]; a relative
    jump in the last instruction raises [TypeError]; an opcode that is
    no jump gives [None], and only such an opcode does. *)
Theorem jump_lands_on_instruction (version_info : Z * Z) (co : code_obj) (code : Code)
        (a : Address) :
  version_ge version_info (3, 6) = true ->
  decoded_from version_info co code ->
  (forall b, jump code a = Ok (Some b) ->
             Code_getitem code (index b) = Ok (Some b)
             /\ (opcode_in (opcode a) hasjrel = false -> addr b = arg a)
             /\ (opcode_in (opcode a) hasjrel = true ->
                 exists n, Address_getitem code a 1 = Ok (Some n)
                           /\ addr b = addr n + arg a))
  /\ (opcode_in (opcode a) hasjrel = false -> opcode_in (opcode a) hasjabs = true ->
      (forall i b, Code_getitem code i = Ok (Some b) -> addr b = arg a ->
                   jump code a = Ok (Some b))
      /\ ((forall i b, Code_getitem code i = Ok (Some b) -> addr b <> arg a) ->
          jump code a = Raise KeyError))
  /\ (opcode_in (opcode a) hasjrel = true ->
      (forall n i b, Address_getitem code a 1 = Ok (Some n) ->
                     Code_getitem code i = Ok (Some b) -> addr b = addr n + arg a ->
                     jump code a = Ok (Some b))
      /\ (forall n, Address_getitem code a 1 = Ok (Some n) ->
                    (forall i b, Code_getitem code i = Ok (Some b) ->
                                 addr b <> addr n + arg a) ->
                    jump code a = Raise KeyError)
      /\ (Address_getitem code a 1 = Ok None -> jump code a = Raise TypeError))
  /\ (jump code a = Ok None
      <-> opcode_in (opcode a) hasjrel = false /\ opcode_in (opcode a) hasjabs = false).
Proof.
  intros Hv Hdec.
  destruct (Code_address_facts version_info co code Hv Hdec)
    as (Hfwd & Hback & Hkey & _ & Hnone).
  unfold jump. split; [|split; [|split]].
  - intros b Hb.
    destruct (opcode_in (opcode a) hasjrel) eqn:Er.
    + destruct (Address_getitem code a 1) as [[n|]| | |] eqn:En; rbind Hb.
      unfold Address_add in Hb. destruct (Hback _ _ Hb) as [Had Hg].
      split; [exact Hg|]. split; [discriminate|]. intros _. exists n. split; [reflexivity|exact Had].
    + destruct (opcode_in (opcode a) hasjabs) eqn:Ea; [|discriminate].
      destruct (Hback _ _ Hb) as [Had Hg].
      split; [exact Hg|]. split; [intros _; exact Had|discriminate].
  - intros Er Ea. rewrite Er, Ea. split.
    + intros i b Hb Had. rewrite <- Had. apply (Hfwd i b Hb).
    + intros Hno. apply Hkey. exact Hno.
  - intros Er. rewrite Er. split; [|split].
    + intros n i b En Hb Had. rewrite En. cbn [mbind res_bind]. unfold Address_add.
      rewrite <- Had. apply (Hfwd i b Hb).
    + intros n En Hno. rewrite En. cbn [mbind res_bind]. unfold Address_add.
      apply Hkey. exact Hno.
    + intros En. rewrite En. reflexivity.
  - destruct (opcode_in (opcode a) hasjrel) eqn:Er.
    + split; [|intros [H _]; discriminate].
      intros H. exfalso.
      destruct (Address_getitem code a 1) as [[n|]| | |] eqn:En; rbind H.
      exact (Hnone _ H).
    + destruct (opcode_in (opcode a) hasjabs) eqn:Ea.
      * split; [|intros [_ H]; discriminate]. intros H. exfalso. exact (Hnone _ H).
      * split; [intros _; split; reflexivity|reflexivity].
Qed.

(** In the code object of [if a < b < c: x] the branch at index 5
    jumps to the instruction at address 20, and the [JUMP_FORWARD 4]
    at index 9 to the one at address 24. *)
Lemma jump_lands_on_instruction_witness :
  version_ge (3, 7) (3, 6) = true
  /\ decoded_from (3, 7) if_chain_example if_chain_Code
  /\ jump if_chain_Code (mkAddress 5 10 POP_JUMP_IF_FALSE 20)
     = Ok (Some (mkAddress 10 20 POP_TOP 0))
  /\ jump if_chain_Code (mkAddress 9 18 JUMP_FORWARD 4)
     = Ok (Some (mkAddress 12 24 LOAD_NAME 3)).
Proof.
  assert (Hdec : decoded_from (3, 7) if_chain_example if_chain_Code).
  { exists if_chain_Code. split; [vm_compute; reflexivity|split; reflexivity]. }
  split; [reflexivity|]. split; [exact Hdec|]. split.
  - destruct (jump_lands_on_instruction (3, 7) if_chain_example if_chain_Code
                (mkAddress 5 10 POP_JUMP_IF_FALSE 20) eq_refl Hdec) as (_ & Habs & _).
    destruct (Habs eq_refl eq_refl) as [H _].
    apply (H 10); vm_compute; reflexivity.
  - destruct (jump_lands_on_instruction (3, 7) if_chain_example if_chain_Code
                (mkAddress 9 18 JUMP_FORWARD 4) eq_refl Hdec) as (_ & _ & Hrel & _).
    destruct (Hrel eq_refl) as [H _].
    apply (H (mkAddress 10 20 POP_TOP 0) 12); vm_compute; reflexivity.
Defined.

(** ** The meaning of the folded conditions *)

Lemma SPyNot_truth (atom : PyExpr -> bool) (o : PyExpr) :
  truth atom (SPyNot o) = negb (truth atom o).
Proof.
  induction o as [val|nm|vals|op operand IH|op lhs IHl rhs IHr|complist
                  |lhs IHl rhs IHr flag|lhs IHl rhs IHr flag|c IHc t IHt f IHf];
    try reflexivity.
  - destruct op; cbn [SPyNot truth]; try reflexivity.
    rewrite negb_involutive. reflexivity.
  - destruct flag; cbn [SPyNot truth]; [|reflexivity].
    rewrite IHl, IHr, negb_andb. reflexivity.
  - destruct flag; cbn [SPyNot truth]; [|reflexivity].
    rewrite IHl, IHr, negb_orb. reflexivity.
Qed.

(** [SPyNot] negates: whatever the truth values of the atoms, its
    result is true exactly when its argument is false.  It does so
    without a second [not] on a negation, and by De Morgan's laws on
    the nodes that allow it. *)
Theorem SPyNot_negates (atom : PyExpr -> bool) (o : PyExpr) :
  truth atom (SPyNot o) = negb (truth atom o).
Proof.
  induction o as [val|nm|vals|op operand IH|op lhs IHl rhs IHr|complist
                  |lhs IHl rhs IHr flag|lhs IHl rhs IHr flag|c IHc t IHt f IHf];
    try reflexivity.
  - destruct op; cbn [SPyNot truth]; try reflexivity.
    rewrite negb_involutive. reflexivity.
  - destruct flag; cbn [SPyNot truth]; [|reflexivity].
    rewrite IHl, IHr, negb_andb. reflexivity.
  - destruct flag; cbn [SPyNot truth]; [|reflexivity].
    rewrite IHl, IHr, negb_orb. reflexivity.
Qed.

(** The node built at the end of a merge has the meaning of its
    operator on the two conditions, also when the clause is opened to
    put the pending condition in front. *)
Lemma merge_node_meaning (m : bool_maker) (cond jcond : PyExpr) (allow_collision : bool) :
  exists node,
    merge_node m cond jcond allow_collision = Ok node
    /\ is_compare_is node = Ok false
    /\ forall atom, truth atom node = connective m (truth atom cond) (truth atom jcond).
Proof.
  unfold merge_node.
  destruct (instance_of m jcond) as [[jleft jright]|] eqn:E.
  - destruct m, jcond; try discriminate E; inversion E; subst;
      cbn [obj_maker_call collision_flag mbind res_bind];
      eexists; (split; [reflexivity|]); (split; [reflexivity|]);
      intros atom; cbn [truth connective].
    + rewrite andb_assoc. reflexivity.
    + rewrite orb_assoc. reflexivity.
  - destruct m; cbn [obj_maker_call collision_flag mbind res_bind];
      eexists; (split; [reflexivity|]); (split; [reflexivity|]);
      intros atom; reflexivity.
Qed.

(** Two branches to the same target: the merged branch is taken when
    one of them is. *)
Lemma merge_same_target_meaning (truthiness jtruthiness : bool) (cond jcond : PyExpr) :
  (exists b, is_compare_is cond = Ok b) -> (exists b, is_compare_is jcond = Ok b) ->
  exists m cond' jcond' jt' ac,
    merge_same_target truthiness jtruthiness cond jcond = Ok (m, cond', jcond', jt', ac)
    /\ forall atom,
         Bool.eqb (connective m (truth atom cond') (truth atom jcond')) jt'
         = taken atom truthiness cond || taken atom jtruthiness jcond.
Proof.
  intros [b1 E1] [b2 E2]. unfold merge_same_target, taken.
  destruct truthiness, jtruthiness; cbn [andb negb].
  - do 5 eexists. split; [reflexivity|]. intros atom. cbn [connective].
    destruct (truth atom cond), (truth atom jcond); reflexivity.
  - rewrite E1. cbn [mbind res_bind]. destruct b1;
      do 5 eexists; (split; [reflexivity|]); intros atom; cbn [connective];
      rewrite SPyNot_truth;
      destruct (truth atom cond), (truth atom jcond); reflexivity.
  - rewrite E2. cbn [mbind res_bind]. destruct b2;
      do 5 eexists; (split; [reflexivity|]); intros atom; cbn [connective];
      rewrite SPyNot_truth;
      destruct (truth atom cond), (truth atom jcond); reflexivity.
  - do 5 eexists. split; [reflexivity|]. intros atom. cbn [connective].
    destruct (truth atom cond), (truth atom jcond); reflexivity.
Qed.

(** A pending branch whose target is the instruction after the new
    branch: the merged branch is taken when the pending one is not and
    the new one is. *)
Lemma merge_fallthrough_meaning (truthiness jtruthiness : bool) (cond jcond : PyExpr)
      (original_opcode : Z) :
  (exists b, is_compare_is cond = Ok b) -> (exists b, is_compare_is jcond = Ok b) ->
  exists m cond' jcond' jt' ac,
    merge_fallthrough truthiness jtruthiness cond jcond original_opcode
    = Ok (m, cond', jcond', jt', ac)
    /\ forall atom,
         Bool.eqb (connective m (truth atom cond') (truth atom jcond')) jt'
         = negb (taken atom truthiness cond) && taken atom jtruthiness jcond.
Proof.
  intros [b1 E1] [b2 E2]. unfold merge_fallthrough, taken.
  destruct truthiness, jtruthiness; cbn [andb negb].
  - rewrite E2. cbn [mbind res_bind].
    destruct (b2 || (original_opcode =? JUMP_IF_TRUE_OR_POP));
      do 5 eexists; (split; [reflexivity|]); intros atom; cbn [connective];
      rewrite SPyNot_truth;
      destruct (truth atom cond), (truth atom jcond); reflexivity.
  - do 5 eexists. split; [reflexivity|]. intros atom. cbn [connective].
    destruct (truth atom cond), (truth atom jcond); reflexivity.
  - do 5 eexists. split; [reflexivity|]. intros atom. cbn [connective].
    destruct (truth atom cond), (truth atom jcond); reflexivity.
  - rewrite E1. cbn [mbind res_bind]. destruct b1;
      do 5 eexists; (split; [reflexivity|]); intros atom; cbn [connective];
      rewrite SPyNot_truth;
      destruct (truth atom cond), (truth atom jcond); reflexivity.
Qed.

(** The loop of [push_popjump]: it merges the entries from the top
    down to the first one that matches neither way, and the branch it
    makes is taken exactly when [merged_branch] says. *)
Lemma merge_popjumps_meaning (top_first : list popjump) :
  forall (jtruthiness : bool) (jaddr : option Address) (jcond : PyExpr)
         (next_addr : option Address) (original_opcode : Z),
    conditions_readable top_first ->
    (exists b, is_compare_is jcond = Ok b) ->
    exists merged rest jt' jcond',
      merge_popjumps top_first jtruthiness jaddr jcond next_addr original_opcode
      = Ok (rest, jt', jcond')
      /\ top_first = merged ++ rest
      /\ forallb (merges_with jaddr next_addr) merged = true
      /\ match rest with
         | [] => True
         | entry :: _ => merges_with jaddr next_addr entry = false
         end
      /\ (exists b, is_compare_is jcond' = Ok b)
      /\ forall atom,
           taken atom jt' jcond'
           = merged_branch atom merged jaddr (taken atom jtruthiness jcond).
Proof.
  induction top_first as [|[[[t target] cond] oa] below IH];
    intros jt jaddr jcond next_addr op Hread Hj.
  - exists [], [], jt, jcond. repeat split; try reflexivity; assumption.
  - apply Forall_cons in Hread as [Hc Hread]. cbn [merge_popjumps].
    destruct (py_eq jaddr target) eqn:E1.
    + destruct (merge_same_target_meaning t jt cond jcond Hc Hj)
        as (m & c' & j' & jt1 & ac & Em & Hm).
      rewrite Em. cbn [mbind res_bind].
      destruct (merge_node_meaning m c' j' ac) as (node & En & Hcmp & Hn).
      rewrite En. cbn [mbind res_bind].
      destruct (IH jt1 jaddr node next_addr op Hread (ex_intro _ false Hcmp))
        as (merged & rest & jt' & jcond' & E & Hsplit & Hall & Hrest & Hj' & Hmean).
      exists ((t, target, cond, oa) :: merged), rest, jt', jcond'.
      split; [exact E|]. split; [rewrite Hsplit; reflexivity|].
      split; [cbn [forallb merges_with]; rewrite E1, Hall; reflexivity|].
      split; [exact Hrest|]. split; [exact Hj'|].
      intros atom. rewrite Hmean. cbn [merged_branch]. rewrite E1.
      f_equal. unfold taken at 1. rewrite Hn. apply Hm.
    + destruct (py_eq target next_addr) eqn:E2.
      * destruct (merge_fallthrough_meaning t jt cond jcond op Hc Hj)
          as (m & c' & j' & jt1 & ac & Em & Hm).
        rewrite Em. cbn [mbind res_bind].
        destruct (merge_node_meaning m c' j' ac) as (node & En & Hcmp & Hn).
        rewrite En. cbn [mbind res_bind].
        destruct (IH jt1 jaddr node next_addr op Hread (ex_intro _ false Hcmp))
          as (merged & rest & jt' & jcond' & E & Hsplit & Hall & Hrest & Hj' & Hmean).
        exists ((t, target, cond, oa) :: merged), rest, jt', jcond'.
        split; [exact E|]. split; [rewrite Hsplit; reflexivity|].
        split; [cbn [forallb merges_with]; rewrite E1, E2, Hall; reflexivity|].
        split; [exact Hrest|]. split; [exact Hj'|].
        intros atom. rewrite Hmean. cbn [merged_branch]. rewrite E1.
        f_equal. unfold taken at 1. rewrite Hn. apply Hm.
      * exists [], ((t, target, cond, oa) :: below), jt, jcond.
        split; [reflexivity|]. split; [reflexivity|]. split; [reflexivity|].
        split; [cbn [merges_with]; rewrite E1, E2; reflexivity|].
        split; [exact Hj|]. intros atom. reflexivity.
Qed.

(** [push_popjump] keeps the meaning of the branches it folds, when
    every comparison node among the pending conditions and the new
    condition has an operator in second place (as the nodes the
    handlers build have; the tests for [is] read it).  It takes from the
    top of the pending stack the entries that have the target of the
    new branch or the instruction after it as their own target, down to
    the first entry that has neither, leaves the entries below as they
    are, and computes a sense and a condition in their place: a branch
    of that sense on that condition is taken exactly when control would
    have reached the target through the merged entries and the new
    branch.  The entry pushed holds that condition with that sense,
    except for a [JUMP_IF_TRUE_OR_POP], for which the sense stored is
    the opposite one. *)
Theorem push_popjump_preserves_branch_meaning
        (code : Code) (jtruthiness : bool) (jaddr : option Address) (jcond : PyExpr)
        (original_jaddr : Address) (dec : SuiteDecompiler) :
  conditions_readable (popjump_stack dec) ->
  (exists b, is_compare_is jcond = Ok b) ->
  exists next_addr below merged jt' jcond',
    (if Address_in original_jaddr (end_chained_jumps code) then
       if jtruthiness then Address_getitem code original_jaddr 3
       else Address_getitem code original_jaddr 4
     else Address_getitem code original_jaddr 1) = Ok next_addr
    /\ push_popjump code jtruthiness jaddr jcond original_jaddr dec
       = Ok (set_popjump_stack dec
               (below ++ [(if opcode original_jaddr =? JUMP_IF_TRUE_OR_POP
                           then negb jt' else jt',
                           jaddr, jcond', original_jaddr)]))
    /\ popjump_stack dec = below ++ merged
    /\ forallb (merges_with jaddr next_addr) merged = true
    /\ match list_pop below with
       | None => True
       | Some (_, entry) => merges_with jaddr next_addr entry = false
       end
    /\ conditions_readable (below ++ [(jt', jaddr, jcond', original_jaddr)])
    /\ forall atom,
         taken atom jt' jcond'
         = merged_branch atom (rev merged) jaddr (taken atom jtruthiness jcond).
Proof.
  intros Hread Hj. unfold push_popjump.
  assert (Hnext : exists next_addr,
            (if Address_in original_jaddr (end_chained_jumps code) then
               if jtruthiness then Address_getitem code original_jaddr 3
               else Address_getitem code original_jaddr 4
             else Address_getitem code original_jaddr 1) = Ok next_addr).
  { unfold Address_getitem.
    destruct (Address_in original_jaddr (end_chained_jumps code)); [destruct jtruthiness|];
      apply Code_getitem_never_raises. }
  destruct Hnext as (next_addr & Hnext). rewrite Hnext. cbn [mbind res_bind].
  assert (Hread' : conditions_readable (rev (popjump_stack dec))).
  { unfold conditions_readable in *. apply Forall_rev. exact Hread. }
  destruct (merge_popjumps_meaning (rev (popjump_stack dec)) jtruthiness jaddr jcond
              next_addr (opcode original_jaddr) Hread' Hj)
    as (merged & rest & jt' & jcond' & E & Hsplit & Hall & Hrest & Hj' & Hmean).
  rewrite E. cbn [mbind res_bind].
  exists next_addr, (rev rest), (rev merged), jt', jcond'.
  split; [reflexivity|]. split; [reflexivity|].
  assert (Hst : popjump_stack dec = rev rest ++ rev merged).
  { rewrite <- rev_app_distr, <- Hsplit, rev_involutive. reflexivity. }
  split; [exact Hst|].
  split.
  { rewrite forallb_forall in *. intros x Hx. apply Hall. apply in_rev. exact Hx. }
  split.
  { destruct rest as [|entry rest']; [reflexivity|].
    cbn [rev]. rewrite list_pop_snoc. exact Hrest. }
  split.
  { unfold conditions_readable in *. apply Forall_app. split.
    - rewrite Hst in Hread. apply Forall_app in Hread as [H _]. exact H.
    - constructor; [exact Hj'|constructor]. }
  intros atom. rewrite rev_involutive. apply Hmean.
Qed.

(** Two branches on false to the instruction at address 20, pushed on
    the code object of [if a < b < c: x]: one pending entry with the
    conjunction; the merged branch is taken when one of the two is. *)
Lemma push_popjump_preserves_branch_meaning_witness :
  let target := Some (mkAddress 10 20 POP_TOP 0) in
  let first := mkAddress 1 2 POP_JUMP_IF_FALSE 20 in
  let second := mkAddress 5 10 POP_JUMP_IF_FALSE 20 in
  let dec := mkDec (mkAddress 0 0 LOAD_NAME 0) None Stack_init Suite_init []
                   [(false, target, PyName "a", first)] false false false None (-2) in
  conditions_readable (popjump_stack dec)
  /\ (exists b, is_compare_is (PyName "b") = Ok b)
  /\ push_popjump if_chain_Code false target (PyName "b") second dec
     = Ok (set_popjump_stack dec
             [(false, target, PyBooleanAnd (PyName "a") (PyName "b") false, second)])
  /\ exists jt' jcond',
       (forall atom,
          taken atom jt' jcond'
          = taken atom false (PyName "a") || taken atom false (PyName "b"))
       /\ jcond' = PyBooleanAnd (PyName "a") (PyName "b") false.
Proof.
  intros target first second dec.
  assert (H1 : conditions_readable (popjump_stack dec)).
  { constructor; [exists false; reflexivity|constructor]. }
  assert (H2 : exists b, is_compare_is (PyName "b") = Ok b) by (exists false; reflexivity).
  split; [exact H1|]. split; [exact H2|]. split; [vm_compute; reflexivity|].
  destruct (push_popjump_preserves_branch_meaning if_chain_Code false target (PyName "b")
              second dec H1 H2)
    as (next_addr & below & merged & jt' & jcond' & _ & Hpush & Hst & _ & _ & _ & Hmean).
  assert (E : push_popjump if_chain_Code false target (PyName "b") second dec
              = Ok (set_popjump_stack dec
                      [(false, target, PyBooleanAnd (PyName "a") (PyName "b") false, second)]))
    by (vm_compute; reflexivity).
  rewrite E in Hpush. inversion Hpush as [Hl].
  change [(false, target, PyBooleanAnd (PyName "a") (PyName "b") false, second)]
    with ([] ++ [(false, target, PyBooleanAnd (PyName "a") (PyName "b") false, second)])
    in Hl.
  apply app_inj_tail in Hl as [Hb He]. subst below. inversion He; subst.
  cbn [app popjump_stack] in Hst. subst merged.
  exists false, (PyBooleanAnd (PyName "a") (PyName "b") false). split; [|reflexivity].
  intros atom. rewrite Hmean. reflexivity.
Defined.

(** [pop_popjump] gives the condition under which the branch on top
    of the pending stack is not taken, the condition of the code that
    follows the branch: the pending condition itself for a branch on
    false, its negation by [SPyNot] for a branch on true.  The entry is
    removed and nothing else changes; on an empty pending stack the
    call raises.  A [push_popjump] that merges nothing (the entry on
    top, if any, has neither the target of the new branch nor the
    instruction [push_popjump] takes as the one after the branch as its
    target), followed by [pop_popjump], gives the executor back as it
    was, with the condition under which the new branch is not taken;
    for a [JUMP_IF_TRUE_OR_POP], whose sense is stored reversed, with
    the condition under which it is taken. *)
Theorem pop_popjump_is_fall_through (dec : SuiteDecompiler) :
  (popjump_stack dec = [] ->
     pop_popjump dec = Raise (Exception "Attempted to pop an empty popjump stack."))
  /\ (forall rest truthiness target cond a,
        popjump_stack dec = rest ++ [(truthiness, target, cond, a)] ->
        exists cond',
          pop_popjump dec = Ok (cond', set_popjump_stack dec rest)
          /\ cond' = (if truthiness then SPyNot cond else cond)
          /\ forall atom, truth atom cond' = negb (taken atom truthiness cond))
  /\ (forall code (jtruthiness : bool) jaddr jcond original_jaddr next_addr,
        (if Address_in original_jaddr (end_chained_jumps code) then
           if jtruthiness then Address_getitem code original_jaddr 3
           else Address_getitem code original_jaddr 4
         else Address_getitem code original_jaddr 1) = Ok next_addr ->
        apart_from_pending (popjump_stack dec) jaddr next_addr = true ->
        exists dec' cond',
          push_popjump code jtruthiness jaddr jcond original_jaddr dec = Ok dec'
          /\ pop_popjump dec' = Ok (cond', dec)
          /\ forall atom,
               truth atom cond'
               = (if opcode original_jaddr =? JUMP_IF_TRUE_OR_POP
                  then taken atom jtruthiness jcond
                  else negb (taken atom jtruthiness jcond))).
Proof.
  split; [|split].
  - intros H. unfold pop_popjump. rewrite H. reflexivity.
  - intros rest t target cond a H. unfold pop_popjump. rewrite H, list_pop_snoc.
    eexists. split; [reflexivity|]. split; [reflexivity|].
    intros atom. unfold taken. destruct t.
    + rewrite SPyNot_truth. destruct (truth atom cond); reflexivity.
    + destruct (truth atom cond); reflexivity.
  - intros code jt jaddr jcond a next_addr Hnext Hap.
    unfold push_popjump. rewrite Hnext. cbn [mbind res_bind].
    rewrite (merge_popjumps_apart _ _ _ _ _ _ Hap). cbn [mbind res_bind].
    rewrite rev_involutive.
    eexists. eexists. split; [reflexivity|].
    unfold pop_popjump. cbn [popjump_stack set_popjump_stack]. rewrite list_pop_snoc.
    split.
    + destruct dec; reflexivity.
    + intros atom. unfold taken.
      destruct (opcode a =? JUMP_IF_TRUE_OR_POP); destruct jt; cbn [negb];
        try rewrite SPyNot_truth; destruct (truth atom jcond); reflexivity.
Qed.

(** ** Chains of one operator on the pending stack *)

Lemma string_app_nil_r (s : string) : s +:+ "" = s.
Proof.
  induction s as [|c s IH]; [reflexivity|].
  change (String c (s +:+ "") = String c s). f_equal. exact IH.
Qed.

Lemma string_app_assoc (s t u : string) : (s +:+ t) +:+ u = s +:+ (t +:+ u).
Proof.
  induction s as [|c s IH]; [reflexivity|].
  change (String c ((s +:+ t) +:+ u) = String c (s +:+ (t +:+ u))). f_equal. exact IH.
Qed.

Lemma join_snoc (sep : string) (l : list string) (x y : string) :
  join sep ((x :: l) ++ [y]) = join sep (x :: l) +:+ sep +:+ y.
Proof.
  revert x. induction l as [|z l IH]; intros x.
  - reflexivity.
  - change (join sep ((x :: z :: l) ++ [y]))
      with (x +:+ sep +:+ join sep ((z :: l) ++ [y])).
    rewrite IH.
    change (join sep (x :: z :: l)) with (x +:+ sep +:+ join sep (z :: l)).
    rewrite !string_app_assoc. reflexivity.
Qed.

Lemma py_eq_refl (x : option Address) : py_eq x x = true.
Proof. destruct x as [a|]; [|reflexivity]. cbn. apply Z.eqb_refl. Qed.

(** The text of a left-nested chain of one operator. *)
Lemma str_chain_node (m : bool_maker) (acc c : PyExpr) :
  precedence acc = connective_precedence m \/ connective_precedence m < precedence acc ->
  connective_precedence m < precedence c ->
  str (chain_node m acc c) = str acc +:+ connective_word m +:+ str c.
Proof.
  intros Hacc Hc.
  assert (Hl : wrap acc (precedence acc <? connective_precedence m) = str acc).
  { unfold wrap, wrap_str. destruct (precedence acc <? connective_precedence m) eqn:E; [zlia|].
    destruct acc; reflexivity. }
  assert (Hr : wrap c (precedence c <=? connective_precedence m) = str c).
  { unfold wrap, wrap_str. destruct (precedence c <=? connective_precedence m) eqn:E; [zlia|].
    destruct c; reflexivity. }
  destruct m; cbn [chain_node connective_precedence connective_word] in *.
  - change (str (PyBooleanAnd acc c false))
      with (format "{} and {}" [wrap acc (precedence acc <? 4); wrap c (precedence c <=? 4)]).
    rewrite Hl, Hr. cbn [format]. rewrite string_app_nil_r. reflexivity.
  - change (str (PyBooleanOr acc c false))
      with (format "{} or {}" [wrap acc (precedence acc <? 3); wrap c (precedence c <=? 3)]).
    rewrite Hl, Hr. cbn [format]. rewrite string_app_nil_r. reflexivity.
Qed.

Lemma str_chain (m : bool_maker) (cs : list PyExpr) : forall c0 : PyExpr,
  Forall (fun c => connective_precedence m < precedence c) (c0 :: cs) ->
  str (fold_left (chain_node m) cs c0) = join (connective_word m) (map str (c0 :: cs))
  /\ (cs <> [] -> precedence (fold_left (chain_node m) cs c0) = connective_precedence m).
Proof.
  induction cs as [|c cs IH] using rev_ind; intros c0 H.
  - split; [reflexivity|]. intros Hne. contradiction.
  - rewrite app_comm_cons in H. apply Forall_app in H as [H Hc].
    apply Forall_cons in Hc as [Hc _].
    destruct (IH c0 H) as [IHs IHp].
    rewrite fold_left_app. cbn [fold_left]. split.
    + rewrite str_chain_node; [| |exact Hc].
      * rewrite IHs. cbn [map]. rewrite map_app. cbn [map].
        change (str c0 :: map str cs ++ [str c]) with ((str c0 :: map str cs) ++ [str c]).
        rewrite join_snoc. reflexivity.
      * destruct cs as [|c' cs']; [right; apply Forall_cons in H as [H0 _]; exact H0|].
        left. apply IHp. discriminate.
    + intros _. destruct m; reflexivity.
Qed.

Lemma push_branches_chain (code : Code) (truthiness : bool) (jaddr : option Address)
      (branches : list (PyExpr * Address)) :
  let m := if truthiness then MakeOr else MakeAnd in
  forall (dec : SuiteDecompiler) (acc : PyExpr) (a0 : Address),
    Forall (fun b : PyExpr * Address =>
              instance_of m (fst b) = None
              /\ opcode_in (opcode (snd b)) pop_jump_if_opcodes = true) branches ->
    popjump_stack dec = [(truthiness, jaddr, acc, a0)] ->
    push_branches code truthiness jaddr branches dec
    = Ok (set_popjump_stack dec
            [(truthiness, jaddr, fold_left (chain_node m) (map fst branches) acc,
              List.last (map snd branches) a0)]).
Proof.
  intros m. induction branches as [|[c a] branches IH]; intros dec acc a0 Hall Hst.
  - cbn. rewrite <- Hst. destruct dec; reflexivity.
  - apply Forall_cons in Hall as [[Hc Ha] Hall]. cbn [fst snd] in Hc, Ha.
    cbn [push_branches].
    assert (Hpush : push_popjump code truthiness jaddr c a dec
                    = Ok (set_popjump_stack dec [(truthiness, jaddr, chain_node m acc c, a)])).
    { unfold push_popjump.
      assert (Hnext : exists next_addr,
                (if Address_in a (end_chained_jumps code) then
                   if truthiness then Address_getitem code a 3
                   else Address_getitem code a 4
                 else Address_getitem code a 1) = Ok next_addr).
      { unfold Address_getitem.
        destruct (Address_in a (end_chained_jumps code)); [destruct truthiness|];
          apply Code_getitem_never_raises. }
      destruct Hnext as (next_addr & ->). cbn [mbind res_bind].
      rewrite Hst. cbn [rev app merge_popjumps]. rewrite py_eq_refl.
      assert (Hm : merge_same_target truthiness truthiness acc c
                   = Ok (m, acc, c, truthiness, false)).
      { subst m. destruct truthiness; reflexivity. }
      rewrite Hm. cbn [mbind res_bind]. unfold merge_node. rewrite Hc.
      assert (Ho : obj_maker_call m acc c (Some false) = Ok (chain_node m acc c)).
      { subst m. destruct truthiness; reflexivity. }
      rewrite Ho. cbn [mbind res_bind rev app].
      assert (Hne : (opcode a =? JUMP_IF_TRUE_OR_POP) = false).
      { unfold opcode_in, pop_jump_if_opcodes in Ha. cbn [existsb] in Ha.
        rewrite orb_false_r in Ha. apply orb_true_iff in Ha as [Ha|Ha];
          apply Z.eqb_eq in Ha; rewrite Ha; reflexivity. }
      rewrite Hne. reflexivity. }
    rewrite Hpush. cbn [mbind res_bind].
    rewrite (IH (set_popjump_stack dec [(truthiness, jaddr, chain_node m acc c, a)])
                (chain_node m acc c) a Hall eq_refl).
    assert (Hlast : forall (l : list Address) (x d : Address),
              List.last (x :: l) d = List.last l x).
    { induction l as [|y l IHl]; intros x d; [reflexivity|].
      change (List.last (x :: y :: l) d) with (List.last (y :: l) d).
      rewrite !IHl. reflexivity. }
    cbn [map fst snd fold_left]. rewrite Hlast. reflexivity.
Qed.

(** Branches of [POP_JUMP_IF_TRUE] or [POP_JUMP_IF_FALSE]
    instructions, of one sense to one target, none of whose conditions
    is itself a node of the operator of the chain, pushed on an empty
    pending stack, are folded into a single pending entry whose
    condition is the chain nested on the left: a conjunction for
    branches on false, a disjunction for branches on true.  When every
    operand binds tighter than the operator, the chain is displayed as
    the operands joined by the operator, without any parenthesis. *)
Theorem pending_chain_is_flat (code : Code) (truthiness : bool) (jaddr : option Address)
        (c0 : PyExpr) (a0 : Address) (branches : list (PyExpr * Address))
        (dec : SuiteDecompiler) :
  let m := if truthiness then MakeOr else MakeAnd in
  popjump_stack dec = [] ->
  Forall (fun b : PyExpr * Address =>
            instance_of m (fst b) = None
            /\ opcode_in (opcode (snd b)) pop_jump_if_opcodes = true)
         ((c0, a0) :: branches) ->
  push_branches code truthiness jaddr ((c0, a0) :: branches) dec
  = Ok (set_popjump_stack dec
          [(truthiness, jaddr, fold_left (chain_node m) (map fst branches) c0,
            List.last (map snd branches) a0)])
  /\ (forall atom,
        truth atom (fold_left (chain_node m) (map fst branches) c0)
        = fold_left (connective m) (map (truth atom) (map fst branches)) (truth atom c0))
  /\ (Forall (fun c => connective_precedence m < precedence c) (c0 :: map fst branches) ->
      str (fold_left (chain_node m) (map fst branches) c0)
      = join (connective_word m) (map str (c0 :: map fst branches))).
Proof.
  intros m Hst Hall. apply Forall_cons in Hall as [[Hc Ha] Hall]. cbn [fst snd] in Hc, Ha.
  split; [|split].
  - cbn [push_branches].
    assert (Hpush : push_popjump code truthiness jaddr c0 a0 dec
                    = Ok (set_popjump_stack dec [(truthiness, jaddr, c0, a0)])).
    { assert (Hnext : exists next_addr,
                (if Address_in a0 (end_chained_jumps code) then
                   if truthiness then Address_getitem code a0 3
                   else Address_getitem code a0 4
                 else Address_getitem code a0 1) = Ok next_addr).
      { unfold Address_getitem.
        destruct (Address_in a0 (end_chained_jumps code)); [destruct truthiness|];
          apply Code_getitem_never_raises. }
      destruct Hnext as (next_addr & Hn). unfold push_popjump. rewrite Hn.
      cbn [mbind res_bind]. rewrite Hst. cbn [rev merge_popjumps mbind res_bind app].
      assert (Hne : (opcode a0 =? JUMP_IF_TRUE_OR_POP) = false).
      { unfold opcode_in, pop_jump_if_opcodes in Ha. cbn [existsb] in Ha.
        rewrite orb_false_r in Ha. apply orb_true_iff in Ha as [Ha|Ha];
          apply Z.eqb_eq in Ha; rewrite Ha; reflexivity. }
      rewrite Hne. reflexivity. }
    rewrite Hpush. cbn [mbind res_bind].
    rewrite (push_branches_chain code truthiness jaddr branches
               (set_popjump_stack dec [(truthiness, jaddr, c0, a0)]) c0 a0 Hall eq_refl).
    reflexivity.
  - intros atom. clear Hall Hc Ha. generalize c0.
    induction (map fst branches) as [|c cs IH]; intros acc; [reflexivity|].
    cbn [fold_left map]. rewrite IH. f_equal. subst m. destruct truthiness; reflexivity.
  - intros Hp. apply (proj1 (str_chain m (map fst branches) c0 Hp)).
Qed.

(** Three branches on false to one target with the conditions [a],
    [b] and [c]: the pending condition is [(a and b) and c], displayed
    as [a and b and c]. *)
Lemma pending_chain_is_flat_witness :
  let target := Some (mkAddress 10 20 POP_TOP 0) in
  let b1 := mkAddress 1 2 POP_JUMP_IF_FALSE 20 in
  let b2 := mkAddress 3 6 POP_JUMP_IF_FALSE 20 in
  let b3 := mkAddress 5 10 POP_JUMP_IF_FALSE 20 in
  let dec := mkDec (mkAddress 0 0 LOAD_NAME 0) None Stack_init Suite_init []
                   [] false false false None (-2) in
  push_branches if_chain_Code false target
                [(PyName "a", b1); (PyName "b", b2); (PyName "c", b3)] dec
  = Ok (set_popjump_stack dec
          [(false, target,
            PyBooleanAnd (PyBooleanAnd (PyName "a") (PyName "b") false) (PyName "c") false,
            b3)])
  /\ str (PyBooleanAnd (PyBooleanAnd (PyName "a") (PyName "b") false) (PyName "c") false)
     = "a and b and c"%string.
Proof.
  intros target b1 b2 b3 dec.
  destruct (pending_chain_is_flat if_chain_Code false target (PyName "a") b1
              [(PyName "b", b2); (PyName "c", b3)] dec eq_refl) as (H1 & _ & H3).
  { repeat constructor. }
  split; [exact H1|]. apply H3. repeat constructor.
Defined.

(** ** The line map ([Code.__init__], the loop over [co_lnotab]) *)

Lemma byte_val_nonneg (b : Byte.byte) : 0 <= byte_val b.
Proof. unfold byte_val. lia. Qed.

Lemma StronglySorted_snoc (l : list Z) (x : Z) :
  StronglySorted Z.le l -> Forall (fun y => y <= x) l -> StronglySorted Z.le (l ++ [x]).
Proof.
  induction l as [|y l IH]; intros Hs Hx.
  - repeat constructor.
  - apply StronglySorted_inv in Hs as [Hs Hy]. apply Forall_cons in Hx as [Hyx Hx].
    cbn [app]. constructor; [apply IH; assumption|].
    apply Forall_app. split; [exact Hy|]. constructor; [exact Hyx|constructor].
Qed.

Lemma linemap_loop_shape (lnotab : list Byte.byte) :
  forall (curinstr curlineno : Z) (lm ln : list Z),
    length lm = length ln ->
    StronglySorted Z.le lm -> Forall (fun y => y <= curinstr) lm ->
    StronglySorted Z.le ln -> Forall (fun y => y <= curlineno) ln ->
    (Nat.even (length lnotab) = true ->
     exists lm' ln' more_lm more_ln,
       linemap_loop lnotab curinstr curlineno lm ln = Ok (lm', ln')
       /\ lm' = lm ++ more_lm /\ ln' = ln ++ more_ln
       /\ length lm' = length ln'
       /\ (2 * length more_lm <= length lnotab)%nat
       /\ StronglySorted Z.le lm' /\ StronglySorted Z.le ln')
    /\ (Nat.even (length lnotab) = false ->
        linemap_loop lnotab curinstr curlineno lm ln = Raise IndexError).
Proof.
  induction lnotab as [|x|a b rest IH] using list_pair_ind;
    intros curinstr curlineno lm ln Hlen Hs1 Hb1 Hs2 Hb2.
  - split; [|discriminate]. intros _. exists lm, ln, [], [].
    rewrite !app_nil_r. repeat split; try assumption. cbn. lia.
  - split; [discriminate|]. reflexivity.
  - cbn [linemap_loop].
    pose proof (byte_val_nonneg a) as Ha. pose proof (byte_val_nonneg b) as Hb.
    change (Nat.even (length (a :: b :: rest))) with (Nat.even (length rest)).
    destruct (negb (byte_val a =? 127) && negb (byte_val b =? 127)).
    + destruct (IH (curinstr + byte_val a) (curlineno + byte_val b)
                   (lm ++ [curinstr + byte_val a]) (ln ++ [curlineno + byte_val b]))
        as [Hev Hodd].
      * rewrite !length_app. cbn. lia.
      * apply StronglySorted_snoc; [exact Hs1|].
        eapply Forall_impl; [exact Hb1|]. intros y Hy. cbn in Hy. lia.
      * apply Forall_app. split; [|constructor; [lia|constructor]].
        eapply Forall_impl; [exact Hb1|]. intros y Hy. cbn in Hy. lia.
      * apply StronglySorted_snoc; [exact Hs2|].
        eapply Forall_impl; [exact Hb2|]. intros y Hy. cbn in Hy. lia.
      * apply Forall_app. split; [|constructor; [lia|constructor]].
        eapply Forall_impl; [exact Hb2|]. intros y Hy. cbn in Hy. lia.
      * split; [|exact Hodd]. intros He.
        destruct (Hev He) as (lm' & ln' & m1 & m2 & E & -> & -> & Hl & Hn & Hsa & Hsb).
        exists ((lm ++ [curinstr + byte_val a]) ++ m1),
               ((ln ++ [curlineno + byte_val b]) ++ m2),
               ((curinstr + byte_val a) :: m1), ((curlineno + byte_val b) :: m2).
        split; [exact E|].
        split; [rewrite <- app_assoc; reflexivity|].
        split; [rewrite <- app_assoc; reflexivity|].
        split; [exact Hl|]. split; [cbn [length]; lia|]. split; assumption.
    + destruct (IH (curinstr + byte_val a) (curlineno + byte_val b) lm ln Hlen Hs1)
        as [Hev Hodd].
      * eapply Forall_impl; [exact Hb1|]. intros y Hy. cbn in Hy. lia.
      * exact Hs2.
      * eapply Forall_impl; [exact Hb2|]. intros y Hy. cbn in Hy. lia.
      * split; [|exact Hodd]. intros He.
        destruct (Hev He) as (lm' & ln' & m1 & m2 & E & -> & -> & Hl & Hn & Hsa & Hsb).
        exists (lm ++ m1), (ln ++ m2), m1, m2.
        split; [exact E|]. split; [reflexivity|]. split; [reflexivity|].
        split; [exact Hl|]. split; [cbn [length]; lia|]. split; assumption.
Qed.

(** The line map of a code object.  A line table of even length gives
    two lists of one length, the instruction addresses and the line
    numbers of the recorded lines: the first address is 0, the
    addresses and the line numbers never decrease, and there is at most
    one entry more than pairs in the table.  A table of odd length
    raises [IndexError]. *)
Theorem make_linemap_shape (co : code_obj) :
  (Nat.even (length (co_lnotab co)) = true ->
   exists lm ln,
     make_linemap co = Ok (lm, ln)
     /\ length lm = length ln
     /\ head lm = Some 0
     /\ (exists first, head ln = Some first /\ co_firstlineno co <= first)
     /\ (2 * length lm <= length (co_lnotab co) + 2)%nat
     /\ StronglySorted Z.le lm /\ StronglySorted Z.le ln)
  /\ (Nat.even (length (co_lnotab co)) = false -> make_linemap co = Raise IndexError).
Proof.
  unfold make_linemap.
  assert (Hinit : forall z : Z, StronglySorted Z.le [z]) by (intros z; repeat constructor).
  destruct (co_lnotab co) as [|a rest] eqn:El.
  - split; [|discriminate]. intros _. exists [0], [co_firstlineno co].
    repeat split; try apply Hinit; try (cbn; lia).
    exists (co_firstlineno co). split; [reflexivity|lia].
  - destruct (byte_val a =? 0) eqn:Ea.
    + destruct rest as [|b rest'].
      * split; [discriminate|reflexivity].
      * pose proof (byte_val_nonneg b) as Hb.
        destruct (linemap_loop_shape rest' 0 (co_firstlineno co + byte_val b)
                    [0] [co_firstlineno co + byte_val b] eq_refl (Hinit _))
          as [Hev Hodd]; try apply Hinit; try (constructor; [lia|constructor]).
        change (Nat.even (length (a :: b :: rest'))) with (Nat.even (length rest')).
        split; [|exact Hodd]. intros He.
        destruct (Hev He) as (lm' & ln' & m1 & m2 & E & -> & -> & Hl & Hn & Hsa & Hsb).
        exists ([0] ++ m1), ([co_firstlineno co + byte_val b] ++ m2).
        split; [exact E|]. split; [exact Hl|]. split; [reflexivity|].
        split; [exists (co_firstlineno co + byte_val b); split; [reflexivity|lia]|].
        split; [cbn [length app]; lia|]. split; assumption.
    + destruct (linemap_loop_shape (a :: rest) 0 (co_firstlineno co)
                  [0] [co_firstlineno co] eq_refl (Hinit _))
        as [Hev Hodd]; try apply Hinit; try (constructor; [lia|constructor]).
      split; [|exact Hodd]. intros He.
      destruct (Hev He) as (lm' & ln' & m1 & m2 & E & -> & -> & Hl & Hn & Hsa & Hsb).
      exists ([0] ++ m1), ([co_firstlineno co] ++ m2).
      split; [exact E|]. split; [exact Hl|]. split; [reflexivity|].
      split; [exists (co_firstlineno co); split; [reflexivity|lia]|].
      split; [cbn [length app] in *; lia|]. split; assumption.
Qed.

(** ** The indented display of statements and suites *)

(** Induction on a statement together with the suites it holds. *)
Lemma PyStatement_Suite_ind (P : PyStatement -> Prop) (Q : Suite -> Prop) :
  (forall val, P (SimpleStatement val)) ->
  (forall chain, P (AssignStatement chain)) ->
  (forall cond true_suite false_suite,
     Q true_suite ->
     (forall fs, false_suite = Some fs -> Q fs /\ Forall P (statements fs)) ->
     P (IfStatement cond true_suite false_suite)) ->
  (forall stmts, Forall P stmts -> Q (Suite_of stmts)) ->
  (forall stmt, P stmt) /\ (forall s, Q s).
Proof.
  intros H1 H2 H3 H4.
  assert (HP : forall stmt, P stmt).
  { fix F 1. intros [val|chain|cond [tl] false_suite].
    - apply H1.
    - apply H2.
    - assert (Htl : Forall P tl)
        by (induction tl as [|x tl IHl]; constructor; [apply F|exact IHl]).
      destruct false_suite as [[fl]|].
      + assert (Hfl : Forall P fl)
          by (induction fl as [|x fl IHl]; constructor; [apply F|exact IHl]).
        apply H3; [apply H4; exact Htl|].
        intros fs E. inversion E; subst fs. split; [apply H4; exact Hfl|exact Hfl].
      + apply H3; [apply H4; exact Htl|]. intros fs E. discriminate E. }
  split; [exact HP|].
  intros [l]. apply H4. apply Forall_forall. intros x _. apply HP.
Qed.

Lemma Suite_display_fold (stmts : list PyStatement) (indent : Indent) (lines : list string) :
  stmts <> [] ->
  Suite_display (Suite_of stmts) indent lines
  = fold_left (fun ls stmt => display stmt indent false ls) stmts lines.
Proof.
  intros Hne. destruct stmts as [|s0 rest]; [contradiction|].
  change (Suite_display (Suite_of (s0 :: rest)) indent lines)
    with ((fix each (l : list PyStatement) (lines : list string) : list string :=
             match l with
             | [] => lines
             | stmt :: rest => each rest (display stmt indent false lines)
             end) (s0 :: rest) lines).
  generalize (s0 :: rest). clear.
  intros l. revert lines. induction l as [|x l IH]; intros lines; [reflexivity|].
  cbn [fold_left]. apply IH.
Qed.

(** The display of an [if] statement as the steps it is made of. *)
Lemma display_IfStatement (cond : PyExpr) (t : Suite) (f : option Suite)
      (indent : Indent) (is_elif : bool) (lines : list string) :
  display (IfStatement cond t f) indent is_elif lines
  = let head := Indent_write indent (if is_elif then "elif {}:" else "if {}:") [str cond] in
    let body := Suite_display t (Indent_add indent 1) in
    match f with
    | None => body (head lines)
    | Some (Suite_of []) => body (head lines)
    | Some (Suite_of [IfStatement c2 t2 f2]) =>
        display (IfStatement c2 t2 f2) indent true (body (head lines))
    | Some fs =>
        Suite_display fs (Indent_add indent 1)
                      (Indent_write indent "else:" [] (body (head lines)))
    end.
Proof.
  cbn [display]. destruct f as [[[|[v|c|c2 t2 f2] [|f1 rest]]]|]; reflexivity.
Qed.

Lemma appends_compose (f g : list string -> list string) :
  appends f -> appends g -> appends (fun lines => g (f lines)).
Proof.
  intros Hf Hg lines. cbn beta. rewrite (Hg (f lines)), (Hf lines), (Hg (f [])).
  rewrite app_assoc. reflexivity.
Qed.

Lemma appends_nonempty (g : list string -> list string) (lines : list string) :
  appends g -> lines <> [] -> g lines <> [].
Proof.
  intros Hg Hl H. rewrite (Hg lines) in H. apply app_eq_nil in H as [H _]. contradiction.
Qed.

Lemma Indent_write_appends (indent : Indent) (pattern : string) (args : list string) :
  appends (Indent_write indent pattern args)
  /\ Indent_write indent pattern args [] <> [].
Proof. split; [intros lines; reflexivity|discriminate]. Qed.

Lemma fold_display_appends (stmts : list PyStatement) (indent : Indent) :
  Forall (fun stmt => forall indent is_elif,
            appends (display stmt indent is_elif)
            /\ display stmt indent is_elif [] <> []) stmts ->
  appends (fold_left (fun ls stmt => display stmt indent false ls) stmts)
  /\ (stmts <> [] ->
      fold_left (fun ls stmt => display stmt indent false ls) stmts [] <> []).
Proof.
  induction stmts as [|x l IH] using rev_ind; intros H.
  - split; [intros lines; cbn; rewrite app_nil_r; reflexivity|]. intros Hne. contradiction.
  - apply Forall_app in H as [Hl Hx]. apply Forall_cons in Hx as [Hx _].
    destruct (IH Hl) as [IHa IHn]. destruct (Hx indent false) as [Hxa Hxn].
    split.
    + intros lines. rewrite !fold_left_app. cbn [fold_left].
      apply (appends_compose _ _ IHa Hxa lines).
    + intros _. rewrite fold_left_app. cbn [fold_left].
      intros E. rewrite (Hxa _) in E. apply app_eq_nil in E as [_ E]. contradiction.
Qed.

(** A display appends to the lines written so far, what it appends
    does not depend on them, and it is never nothing. *)
Lemma display_appends :
  (forall stmt indent is_elif,
     appends (display stmt indent is_elif) /\ display stmt indent is_elif [] <> [])
  /\ (forall s indent,
        appends (Suite_display s indent) /\ Suite_display s indent [] <> []).
Proof.
  apply PyStatement_Suite_ind.
  - intros val indent e. apply Indent_write_appends.
  - intros chain indent e. apply Indent_write_appends.
  - intros cond t f IHt IHf indent e.
    pose proof (Indent_write_appends indent (if e then "elif {}:" else "if {}:") [str cond])
      as [Hh Hhn].
    pose proof (Indent_write_appends indent "else:" []) as [He _].
    destruct (IHt (Indent_add indent 1)) as [Ht _].
    pose proof (appends_compose _ _ Hh Ht) as Hb.
    assert (Hbn : Suite_display t (Indent_add indent 1)
                    (Indent_write indent (if e then "elif {}:" else "if {}:")
                                  [str cond] []) <> [])
      by (apply (appends_nonempty _ _ Ht Hhn)).
    assert (Hgen : forall fs, f = Some fs ->
              appends (fun lines =>
                         Suite_display fs (Indent_add indent 1)
                           (Indent_write indent "else:" []
                              (Suite_display t (Indent_add indent 1)
                                 (Indent_write indent (if e then "elif {}:" else "if {}:")
                                               [str cond] lines))))
              /\ Suite_display fs (Indent_add indent 1)
                   (Indent_write indent "else:" []
                      (Suite_display t (Indent_add indent 1)
                         (Indent_write indent (if e then "elif {}:" else "if {}:")
                                       [str cond] []))) <> []).
    { intros fs Hfs. destruct (IHf fs Hfs) as [Hq _].
      destruct (Hq (Indent_add indent 1)) as [Hfa _]. split.
      - apply (appends_compose _ _ (appends_compose _ _ Hb He) Hfa).
      - apply (appends_nonempty _ _ Hfa). apply (appends_nonempty _ _ He Hbn). }
    assert (Hsplit : forall ls,
              display (IfStatement cond t f) indent e ls
              = _) by (intros ls; apply display_IfStatement).
    split.
    + intros lines. rewrite !Hsplit. cbn zeta.
      destruct f as [[[|f0 frest]]|].
      * apply Hb.
      * destruct (Hgen _ eq_refl) as [Hg _].
        destruct f0 as [v|c|c2 t2 f2]; try apply Hg.
        destruct frest as [|f1 frest']; [|apply Hg].
        destruct (IHf _ eq_refl) as [_ Hall]. cbn [statements] in Hall.
        apply Forall_cons in Hall as [Hp _]. destruct (Hp indent true) as [Hpa _].
        apply (appends_compose _ _ Hb Hpa).
      * apply Hb.
    + rewrite Hsplit. cbn zeta.
      destruct f as [[[|f0 frest]]|].
      * exact Hbn.
      * destruct (Hgen _ eq_refl) as [_ Hg].
        destruct f0 as [v|c|c2 t2 f2]; try exact Hg.
        destruct frest as [|f1 frest']; [|exact Hg].
        destruct (IHf _ eq_refl) as [_ Hall]. cbn [statements] in Hall.
        apply Forall_cons in Hall as [Hp _]. destruct (Hp indent true) as [Hpa _].
        apply (appends_nonempty _ _ Hpa Hbn).
      * exact Hbn.
  - intros stmts Hall indent. destruct stmts as [|s0 rest].
    + apply Indent_write_appends.
    + destruct (fold_display_appends (s0 :: rest) indent Hall) as [Ha Hn]. split.
      * intros lines. rewrite !Suite_display_fold by discriminate. apply Ha.
      * rewrite Suite_display_fold by discriminate. apply Hn. discriminate.
Qed.

Lemma str_mul_add (s : string) (a b : Z) :
  0 <= a -> 0 <= b -> str_mul s (a + b) = str_mul s a +:+ str_mul s b.
Proof.
  intros Ha Hb. unfold str_mul. rewrite Z2Nat.inj_add by lia.
  induction (Z.to_nat a) as [|n IH]; [reflexivity|].
  rewrite Nat.add_succ_l, !Nat.iter_succ, IH. symmetry. apply string_app_assoc.
Qed.

Lemma shift_compose (p : string -> string) (f g fd gd : list string -> list string) :
  appends f -> appends g -> appends fd -> appends gd ->
  fd [] = map p (f []) -> gd [] = map p (g []) ->
  gd (fd []) = map p (g (f [])).
Proof.
  intros Hf Hg Hfd Hgd Ef Eg.
  rewrite (Hgd (fd [])), (Hg (f [])), Ef, Eg, map_app. reflexivity.
Qed.

Lemma Indent_write_shift (indent : Indent) (d : Z) (pattern : string) (args : list string) :
  0 <= level indent -> 0 <= d ->
  Indent_write (Indent_add indent d) pattern args []
  = map (String.append (str_mul (spaces (step indent)) d))
        (Indent_write indent pattern args []).
Proof.
  intros Hl Hd. unfold Indent_write, Indent_indent, Indent_add. cbn [step level app map].
  rewrite (Z.add_comm (level indent) d), str_mul_add by assumption.
  rewrite string_app_assoc. reflexivity.
Qed.

Lemma Indent_add_comm (indent : Indent) (d : Z) :
  Indent_add (Indent_add indent d) 1 = Indent_add (Indent_add indent 1) d.
Proof. unfold Indent_add. cbn [level step]. f_equal. lia. Qed.

(** The display at a deeper indent is the display at the indent with
    every line moved to the right. *)
Lemma display_shift (d : Z) :
  0 <= d ->
  (forall stmt indent is_elif,
     0 <= level indent ->
     display stmt (Indent_add indent d) is_elif []
     = map (String.append (str_mul (spaces (step indent)) d)) (display stmt indent is_elif []))
  /\ (forall s indent,
        0 <= level indent ->
        Suite_display s (Indent_add indent d) []
        = map (String.append (str_mul (spaces (step indent)) d)) (Suite_display s indent [])).
Proof.
  intros Hd. destruct display_appends as [Ha Hsa].
  apply PyStatement_Suite_ind.
  - intros val indent e Hl. apply Indent_write_shift; assumption.
  - intros chain indent e Hl. apply Indent_write_shift; assumption.
  - intros cond t f IHt IHf indent e Hl.
    assert (Hl1 : 0 <= level (Indent_add indent 1)) by (cbn; lia).
    pose proof (proj1 (Indent_write_appends indent (if e then "elif {}:" else "if {}:")
                                            [str cond])) as Hh.
    pose proof (proj1 (Indent_write_appends (Indent_add indent d)
                         (if e then "elif {}:" else "if {}:") [str cond])) as Hhd.
    pose proof (proj1 (Indent_write_appends indent "else:" [])) as He.
    pose proof (proj1 (Indent_write_appends (Indent_add indent d) "else:" [])) as Hed.
    pose proof (proj1 (Hsa t (Indent_add indent 1))) as Ht.
    pose proof (proj1 (Hsa t (Indent_add (Indent_add indent d) 1))) as Htd.
    assert (Eh := Indent_write_shift indent d (if e then "elif {}:" else "if {}:")
                    [str cond] Hl Hd).
    assert (Ee := Indent_write_shift indent d "else:" [] Hl Hd).
    assert (Et : Suite_display t (Indent_add (Indent_add indent d) 1) []
                 = map (String.append (str_mul (spaces (step indent)) d))
                       (Suite_display t (Indent_add indent 1) [])).
    { rewrite Indent_add_comm. apply (IHt (Indent_add indent 1) Hl1). }
    assert (Eb := shift_compose _ _ _ _ _ Hh Ht Hhd Htd Eh Et).
    pose proof (appends_compose _ _ Hh Ht) as Hb.
    pose proof (appends_compose _ _ Hhd Htd) as Hbd.
    rewrite !display_IfStatement. cbn zeta.
    destruct f as [[[|f0 frest]]|]; [exact Eb| |exact Eb].
    assert (Hgen : Suite_display (Suite_of (f0 :: frest)) (Indent_add (Indent_add indent d) 1)
                     (Indent_write (Indent_add indent d) "else:" []
                        (Suite_display t (Indent_add (Indent_add indent d) 1)
                           (Indent_write (Indent_add indent d)
                              (if e then "elif {}:" else "if {}:") [str cond] [])))
                   = map (String.append (str_mul (spaces (step indent)) d))
                       (Suite_display (Suite_of (f0 :: frest)) (Indent_add indent 1)
                          (Indent_write indent "else:" []
                             (Suite_display t (Indent_add indent 1)
                                (Indent_write indent (if e then "elif {}:" else "if {}:")
                                   [str cond] []))))).
    { destruct (IHf _ eq_refl) as [Hq _].
      apply (shift_compose _
               (fun ls => Indent_write indent "else:" []
                            (Suite_display t (Indent_add indent 1)
                               (Indent_write indent (if e then "elif {}:" else "if {}:")
                                  [str cond] ls)))
               (Suite_display (Suite_of (f0 :: frest)) (Indent_add indent 1))
               (fun ls => Indent_write (Indent_add indent d) "else:" []
                            (Suite_display t (Indent_add (Indent_add indent d) 1)
                               (Indent_write (Indent_add indent d)
                                  (if e then "elif {}:" else "if {}:") [str cond] ls)))
               (Suite_display (Suite_of (f0 :: frest)) (Indent_add (Indent_add indent d) 1))).
      - apply (appends_compose _ _ Hb He).
      - apply Hsa.
      - apply (appends_compose _ _ Hbd Hed).
      - apply Hsa.
      - apply (shift_compose _ _ _ _ _ Hb He Hbd Hed Eb Ee).
      - rewrite Indent_add_comm. apply (Hq (Indent_add indent 1) Hl1). }
    destruct f0 as [v|c|c2 t2 f2]; try exact Hgen.
    destruct frest as [|f1 frest']; [|exact Hgen].
    destruct (IHf _ eq_refl) as [_ Hall]. cbn [statements] in Hall.
    apply Forall_cons in Hall as [Hp _].
    apply (shift_compose _
             (fun ls => Suite_display t (Indent_add indent 1)
                          (Indent_write indent (if e then "elif {}:" else "if {}:")
                             [str cond] ls))
             (display (IfStatement c2 t2 f2) indent true)
             (fun ls => Suite_display t (Indent_add (Indent_add indent d) 1)
                          (Indent_write (Indent_add indent d)
                             (if e then "elif {}:" else "if {}:") [str cond] ls))
             (display (IfStatement c2 t2 f2) (Indent_add indent d) true)).
    + exact Hb.
    + apply Ha.
    + exact Hbd.
    + apply Ha.
    + exact Eb.
    + apply (Hp indent true Hl).
  - intros stmts Hall indent Hl. destruct stmts as [|s0 rest].
    + apply Indent_write_shift; assumption.
    + rewrite !Suite_display_fold by discriminate.
      generalize (s0 :: rest) Hall. clear s0 rest Hall.
      intros l Hall. induction l as [|x l IH] using rev_ind; [reflexivity|].
      apply Forall_app in Hall as [Hl' Hx]. apply Forall_cons in Hx as [Hx _].
      rewrite !fold_left_app. cbn [fold_left].
      apply (shift_compose _
               (fold_left (fun ls stmt => display stmt indent false ls) l)
               (display x indent false)
               (fold_left (fun ls stmt => display stmt (Indent_add indent d) false ls) l)
               (display x (Indent_add indent d) false)).
      * apply fold_display_appends. apply Forall_forall. intros y _. apply Ha.
      * apply Ha.
      * apply fold_display_appends. apply Forall_forall. intros y _. apply Ha.
      * apply Ha.
      * apply IH. exact Hl'.
      * apply (Hx indent false Hl).
Qed.

(** The display of statements and suites.  A display only appends to
    the lines written before, and what it appends does not depend on
    them; every statement and every suite, the empty one included,
    writes at least one line, so that no block is left without a body;
    every line a suite writes begins with the indentation of the
    writer, [(" " * step) * level].  For a writer of non-negative level,
    the display [d >= 0] levels deeper gives the same lines, each moved
    to the right by [(" " * step) * d]. *)
Theorem display_indentation (indent : Indent) :
  (forall d, 0 <= level indent -> 0 <= d ->
     (forall stmt is_elif lines,
        display stmt (Indent_add indent d) is_elif lines
        = lines ++ map (String.append (str_mul (spaces (step indent)) d))
                       (display stmt indent is_elif []))
     /\ (forall s lines,
           Suite_display s (Indent_add indent d) lines
           = lines ++ map (String.append (str_mul (spaces (step indent)) d))
                          (Suite_display s indent [])))
  /\ (forall stmt is_elif lines,
        display stmt indent is_elif lines = lines ++ display stmt indent is_elif [])
  /\ (forall s lines, Suite_display s indent lines = lines ++ Suite_display s indent [])
  /\ (forall stmt is_elif, display stmt indent is_elif [] <> [])
  /\ (forall s, Suite_display s indent [] <> [])
  /\ (forall s, Forall (fun line => exists text,
                          line = str_mul (spaces (step indent)) (level indent) +:+ text)
                       (Suite_display s indent [])).
Proof.
  destruct display_appends as [Ha Hsa].
  split; [|split; [|split; [|split; [|split]]]].
  - intros d Hl Hd. destruct (display_shift d Hd) as [Hds Hss]. split.
    + intros stmt e lines. rewrite (proj1 (Ha stmt (Indent_add indent d) e) lines).
      rewrite (Hds stmt indent e Hl). reflexivity.
    + intros s lines. rewrite (proj1 (Hsa s (Indent_add indent d)) lines).
      rewrite (Hss s indent Hl). reflexivity.
  - intros stmt e lines. apply (proj1 (Ha stmt indent e)).
  - intros s lines. apply (proj1 (Hsa s indent)).
  - intros stmt e. apply Ha.
  - intros s. apply Hsa.
  - intros s. destruct (Z_le_dec 0 (level indent)) as [Hl|Hl].
    + destruct (display_shift (level indent) Hl) as [_ Hbase].
      specialize (Hbase s (mkIndent 0 (step indent)) (Z.le_refl 0)).
      assert (Ei : Indent_add (mkIndent 0 (step indent)) (level indent) = indent).
      { unfold Indent_add. cbn [level step]. destruct indent as [l st]. reflexivity. }
      rewrite Ei in Hbase. cbn [step] in Hbase. rewrite Hbase.
      apply Forall_forall. intros line Hin. change (map ?f ?l) with (f <$> l) in Hin.
      apply list_elem_of_fmap in Hin as (text & -> & _). exists text. reflexivity.
    + apply Forall_forall. intros line _. exists line.
      assert (E : Z.to_nat (level indent) = 0%nat) by lia.
      unfold str_mul. rewrite E. reflexivity.
Qed.

(** An [if] with an [elif] displayed by a writer at level 1, and one
    level deeper. *)
Lemma display_indentation_witness :
  let stmt := IfStatement (PyName "a") (Suite_of [SimpleStatement "x"])
                (Some (Suite_of [IfStatement (PyName "b") (Suite_of []) None])) in
  0 <= level (mkIndent 1 4) /\ 0 <= 1
  /\ display stmt (mkIndent 1 4) false []
     = ["    if a:"; "        x"; "    elif b:"; "        pass"]%string
  /\ display stmt (Indent_add (mkIndent 1 4) 1) false ["first"%string]
     = ["first"; "        if a:"; "            x"; "        elif b:";
        "            pass"]%string.
Proof.
  intros stmt. split; [cbn; lia|]. split; [lia|].
  split; [reflexivity|].
  destruct (display_indentation (mkIndent 1 4)) as (H & _).
  destruct (H 1) as [Hd _]; [cbn; lia|lia|].
  rewrite (Hd stmt false ["first"%string]). reflexivity.
Defined.

(** ** Searches along the instruction sequence *)

Lemma seek_loop_first_match (code : Code) (opcodes : list Z) (increment : Z)
      (end_ : option Address) (base : Z) :
  increment = 1 \/ increment = -1 ->
  forall (fuel : nat) (k : Z) (a : option Address),
    0 < k ->
    Code_getitem code (base + increment * k) = Ok a ->
    (0 <= base + increment * k < Code_len code ->
     (if increment =? 1 then Code_len code - (base + increment * k)
      else base + increment * k + 1) <= Z.of_nat fuel) ->
    (forall j c, 0 < j < k ->
       Code_getitem code (base + increment * j) = Ok (Some c) ->
       opcode_in (opcode c) opcodes = false /\ Address_eq c end_ = false) ->
    exists r, seek_loop fuel code opcodes increment end_ a = Ok r
              /\ first_match code opcodes increment end_ base r.
Proof.
  intros Hinc fuel. induction fuel as [|fuel IH]; intros k a Hk Ha Hm Hbefore.
  - destruct a as [a'|].
    + destruct (Code_getitem_index _ _ _ Ha) as [Hi Hr]. specialize (Hm Hr).
      exfalso. destruct Hinc as [-> | ->]; cbn in Hm; lia.
    + exists None. split; [reflexivity|]. exists k. split; [exact Hk|].
      split; [exact Hbefore|]. left. exact Ha.
  - destruct a as [a'|]; cbn [seek_loop].
    + destruct (Code_getitem_index _ _ _ Ha) as [Hi Hr]. specialize (Hm Hr).
      destruct (Address_eq a' end_) eqn:Ee.
      * exists None. split; [reflexivity|]. exists k. split; [exact Hk|].
        split; [exact Hbefore|]. right. exists a'. split; assumption.
      * destruct (opcode_in (opcode a') opcodes) eqn:Eo.
        -- exists (Some a'). split; [reflexivity|]. exists k. split; [exact Hk|].
           split; [exact Hbefore|]. repeat split; assumption.
        -- unfold Address_getitem. rewrite Hi.
           destruct (Code_getitem_never_raises code (base + increment * k + increment))
             as [next Hnext].
           rewrite Hnext. cbn [mbind res_bind].
           replace (base + increment * k + increment) with (base + increment * (k + 1))
             in Hnext by lia.
           apply (IH (k + 1) next); [lia|exact Hnext| |].
           ++ intros Hr'. destruct Hinc as [-> | ->]; cbn in Hm |- *; lia.
           ++ intros j c Hj Hc. destruct (decide (j = k)) as [->|Hne].
              ** rewrite Ha in Hc. inversion Hc; subst c. split; assumption.
              ** apply (Hbefore j c); [lia|exact Hc].
    + exists None. split; [reflexivity|]. exists k. split; [exact Hk|].
      split; [exact Hbefore|]. left. exact Ha.
Qed.

(** [seek_forward] and [seek_back] return the first instruction after
    (before) the address that has one of the opcodes, provided no
    instruction equal to [end] lies on the way or is that instruction;
    they return [None] when the address itself is [end], and when the
    search meets [end] or the end of the sequence first.  They never
    raise.  An [end] that does not lie on the way is never met: the
    search then runs to the end of the sequence. *)
Theorem seek_finds_first_match (code : Code) (self : Address) (opcodes : list Z)
        (end_ : option Address) :
  (exists r, seek_forward code self opcodes end_ = Ok r
             /\ (Address_eq self end_ = true -> r = None)
             /\ (Address_eq self end_ = false ->
                 first_match code opcodes 1 end_ (index self) r))
  /\ (exists r, seek_back code self opcodes end_ = Ok r
                /\ (Address_eq self end_ = true -> r = None)
                /\ (Address_eq self end_ = false ->
                    first_match code opcodes (-1) end_ (index self) r))
  /\ (forall r e, end_ = Some e -> index e < index self ->
        seek_forward code self opcodes end_ = Ok r ->
        seek_forward code self opcodes None = Ok r).
Proof.
  assert (Hgen : forall increment, increment = 1 \/ increment = -1 ->
            exists r, seek code self opcodes increment end_ = Ok r
                      /\ (Address_eq self end_ = true -> r = None)
                      /\ (Address_eq self end_ = false ->
                          first_match code opcodes increment end_ (index self) r)).
  { intros increment Hinc. unfold seek.
    destruct (Address_eq self end_) eqn:Ee.
    - exists None. split; [reflexivity|]. split; [reflexivity|discriminate].
    - unfold Address_getitem.
      destruct (Code_getitem_never_raises code (index self + increment)) as [a Ha].
      rewrite Ha. cbn [mbind res_bind].
      replace (index self + increment) with (index self + increment * 1) in Ha by lia.
      destruct (seek_loop_first_match code opcodes increment end_ (index self) Hinc
                  (length (instr_seq code)) 1 a) as (r & Er & Hr); [lia|exact Ha| |lia|].
      + intros Hr. unfold Code_len in *. destruct Hinc as [-> | ->]; cbn; lia.
      + exists r. split; [exact Er|]. split; [discriminate|]. intros _. exact Hr. }
  split; [apply (Hgen 1); left; reflexivity|].
  split; [apply (Hgen (-1)); right; reflexivity|].
  intros r e -> Hlt. unfold seek_forward, seek.
  assert (Hs : Address_eq self (Some e) = false) by (cbn; zlia || (apply Z.eqb_neq; lia)).
  rewrite Hs. cbn [Address_eq].
  unfold Address_getitem.
  destruct (Code_getitem_never_raises code (index self + 1)) as [a Ha].
  rewrite Ha. cbn [mbind res_bind].
  assert (Hloop : forall fuel k a,
            0 < k -> Code_getitem code (index self + k) = Ok a ->
            seek_loop fuel code opcodes 1 (Some e) a = seek_loop fuel code opcodes 1 None a).
  { induction fuel as [|fuel IH]; intros k a0 Hk Ha0.
    - destruct a0 as [a'|]; [|reflexivity]. cbn [seek_loop Address_eq].
      destruct (Code_getitem_index _ _ _ Ha0) as [Hi _].
      assert (E : (index a' =? index e) = false) by (apply Z.eqb_neq; lia).
      rewrite E. reflexivity.
    - destruct a0 as [a'|]; [|reflexivity]. cbn [seek_loop Address_eq].
      destruct (Code_getitem_index _ _ _ Ha0) as [Hi _].
      assert (E : (index a' =? index e) = false) by (apply Z.eqb_neq; lia).
      rewrite E. destruct (opcode_in (opcode a') opcodes); [reflexivity|].
      unfold Address_getitem. rewrite Hi.
      destruct (Code_getitem_never_raises code (index self + k + 1)) as [next Hnext].
      rewrite Hnext. cbn [mbind res_bind].
      apply (IH (k + 1)); [lia|]. rewrite <- Hnext. f_equal. lia. }
  rewrite (Hloop _ 1 a); [intros H; exact H|lia|exact Ha].
Qed.

(** ** The innermost loop of an instruction *)

(** [last_loop_context] returns a loop of the table that holds the
    index of the instruction and starts no earlier than any other loop
    that holds it; where no loop that starts at an index holds it, the
    result is [(-1, -1, -1)]. *)
Theorem last_loop_context_is_innermost (code : Code) (self : Address) :
  let holds := fun l : Z * Z * Z =>
                 (fst (fst l) <=? index self) && (index self <=? snd l) in
  let r := last_loop_context code self in
  (r = (-1, -1, -1) \/ (r ∈ loops code /\ holds r = true /\ -1 < fst (fst r)))
  /\ (forall l, l ∈ loops code -> holds l = true -> fst (fst l) <= Z.max (-1) (fst (fst r)))
  /\ (r = (-1, -1, -1) <->
      forall l, l ∈ loops code -> holds l = true -> fst (fst l) <= -1).
Proof.
  intros holds r. subst r. unfold last_loop_context.
  assert (Hgen : forall (ls : list (Z * Z * Z)) (acc : Z * Z * Z),
            let r := fold_left
                       (fun (lcontext lcontexti : Z * Z * Z) =>
                          let '(start, _, _) := lcontext in
                          let '(starti, _, endi) := lcontexti in
                          if (starti <=? index self) && (index self <=? endi)
                          then if start <? starti then lcontexti else lcontext
                          else lcontext) ls acc in
            (r = acc \/ (r ∈ ls /\ holds r = true /\ fst (fst acc) < fst (fst r)))
            /\ fst (fst acc) <= fst (fst r)
            /\ (forall l, l ∈ ls -> holds l = true -> fst (fst l) <= fst (fst r))).
  { induction ls as [|[[si mi] ei] ls IH]; intros acc.
    - cbn. split; [left; reflexivity|]. split; [lia|]. intros l Hl. inversion Hl.
    - cbn [fold_left]. destruct acc as [[s0 m0] e0].
      destruct ((si <=? index self) && (index self <=? ei)) eqn:Eh.
      + destruct (s0 <? si) eqn:Es.
        * destruct (IH (si, mi, ei)) as (H1 & H2 & H3). cbn [fst] in *.
          split; [|split].
          -- right. destruct H1 as [-> | (Hin & Hh & Hlt)].
             ++ split; [left|]. split; [exact Eh|cbn; zlia].
             ++ split; [right; exact Hin|]. split; [exact Hh|zlia].
          -- zlia.
          -- intros l Hl Hhl. apply elem_of_cons in Hl as [-> | Hl].
             ++ exact H2.
             ++ apply (H3 l Hl Hhl).
        * destruct (IH (s0, m0, e0)) as (H1 & H2 & H3). cbn [fst] in *.
          split; [|split].
          -- destruct H1 as [-> | (Hin & Hh & Hlt)]; [left; reflexivity|].
             right. split; [right; exact Hin|]. split; assumption.
          -- exact H2.
          -- intros l Hl Hhl. apply elem_of_cons in Hl as [-> | Hl].
             ++ cbn [fst]. zlia.
             ++ apply (H3 l Hl Hhl).
      + destruct (IH (s0, m0, e0)) as (H1 & H2 & H3). cbn [fst] in *.
        split; [|split].
        -- destruct H1 as [-> | (Hin & Hh & Hlt)]; [left; reflexivity|].
           right. split; [right; exact Hin|]. split; assumption.
        -- exact H2.
        -- intros l Hl Hhl. apply elem_of_cons in Hl as [-> | Hl].
           ++ unfold holds in Hhl. cbn [fst snd] in Hhl. rewrite Eh in Hhl. discriminate.
           ++ apply (H3 l Hl Hhl). }
  destruct (Hgen (loops code) (-1, -1, -1)) as (H1 & H2 & H3). cbn [fst] in *.
  split; [|split].
  - destruct H1 as [-> | (Hin & Hh & Hlt)]; [left; reflexivity|].
    right. split; [exact Hin|]. split; assumption.
  - intros l Hl Hhl. specialize (H3 l Hl Hhl). lia.
  - split.
    + intros E l Hl Hhl. specialize (H3 l Hl Hhl). rewrite E in H3. exact H3.
    + intros Hall. destruct H1 as [E | (Hin & Hh & Hlt)]; [exact E|].
      specialize (Hall _ Hin Hh). lia.
Qed.

(** ** Statement instructions *)

Lemma is_statement_outcome (code : Code) (a : Address) :
  (exists b, is_statement code a = Ok b)
  \/ (is_statement code a = Raise KeyError
      /\ opcode_in (opcode a) pop_jump_if_opcodes = true
      /\ instr_map code !! arg a = None).
Proof.
  unfold is_statement.
  destruct (opcode_in (opcode a) stmt_opcodes
            || opcode_in (opcode a) [JUMP_ABSOLUTE; JUMP_FORWARD]
               && existsb (Z.eqb (addr a)) (linemap code)); [left; eexists; reflexivity|].
  destruct (opcode a =? POP_TOP).
  - destruct (Code_getitem_never_raises code (index a + -1)) as [p Hp].
    unfold Address_getitem. rewrite Hp. cbn [mbind res_bind].
    left. destruct p as [p|]; [|eexists; reflexivity].
    destruct (opcode_in (opcode p) [JUMP_ABSOLUTE; JUMP_FORWARD; ROT_TWO]);
      eexists; reflexivity.
  - destruct (opcode_in (opcode a) pop_jump_if_opcodes) eqn:Ep;
      [|left; eexists; reflexivity].
    assert (Hop : opcode a = POP_JUMP_IF_TRUE \/ opcode a = POP_JUMP_IF_FALSE).
    { unfold opcode_in, pop_jump_if_opcodes in Ep. cbn [existsb] in Ep.
      rewrite orb_false_r in Ep. apply orb_true_iff in Ep as [E|E];
        apply Z.eqb_eq in E; [left|right]; exact E. }
    assert (Hj : jump code a = Code_address code (arg a)).
    { unfold jump. destruct Hop as [-> | ->]; reflexivity. }
    rewrite Hj. unfold Code_address.
    destruct (instr_map code !! arg a) as [i|] eqn:Em.
    + destruct (Code_getitem_never_raises code i) as [t Ht]. rewrite Ht.
      destruct (Code_getitem_never_raises code (index a + 1)) as [n Hn].
      unfold Address_getitem. rewrite Hn. cbn [mbind res_bind].
      left. eexists; reflexivity.
    + right. split; [reflexivity|]. split; reflexivity.
Qed.

Lemma seek_stmt_loop_first (code : Code) (end_ : option Address) (base : Z) :
  forall (fuel : nat) (k : Z) (a : option Address),
    0 <= k ->
    Code_getitem code (base + k) = Ok a ->
    (0 <= base + k < Code_len code -> Code_len code - (base + k) <= Z.of_nat fuel) ->
    (forall j, 0 <= j < k ->
       exists c, Code_getitem code (base + j) = Ok (Some c)
                 /\ Address_lt c end_ = true
                 /\ is_statement code c = Ok false) ->
    first_statement code end_ base (seek_stmt_loop fuel code end_ a).
Proof.
  assert (Hnone : forall fuel k,
            0 <= k -> Code_getitem code (base + k) = Ok None ->
            (forall j, 0 <= j < k ->
               exists c, Code_getitem code (base + j) = Ok (Some c)
                         /\ Address_lt c end_ = true
                         /\ is_statement code c = Ok false) ->
            first_statement code end_ base (seek_stmt_loop fuel code end_ None)).
  { intros fuel k Hk Ha Hbefore. destruct fuel; cbn [seek_stmt_loop];
      (exists k; split; [exact Hk|]; split; [exact Hbefore|]; left; exact Ha). }
  assert (Hstep : forall fuel k a',
            0 <= k -> Code_getitem code (base + k) = Ok (Some a') ->
            (forall j, 0 <= j < k ->
               exists c, Code_getitem code (base + j) = Ok (Some c)
                         /\ Address_lt c end_ = true
                         /\ is_statement code c = Ok false) ->
            (Address_lt a' end_ = true -> is_statement code a' = Ok false ->
             first_statement code end_ base
               (match fuel with
                | O => OutOfFuel
                | S fuel' =>
                    next ← Address_getitem code a' 1;
                    seek_stmt_loop fuel' code end_ next
                end)) ->
            first_statement code end_ base (seek_stmt_loop fuel code end_ (Some a'))).
  { intros fuel k a' Hk Ha Hbefore Hcont.
    assert (E : seek_stmt_loop fuel code end_ (Some a')
                = if Address_lt a' end_ then
                    s ← is_statement code a';
                    if (s : bool) then Ok (Some a')
                    else match fuel with
                         | O => OutOfFuel
                         | S fuel' =>
                             next ← Address_getitem code a' 1;
                             seek_stmt_loop fuel' code end_ next
                         end
                  else Ok None) by (destruct fuel; reflexivity).
    rewrite E. clear E.
    destruct (Address_lt a' end_) eqn:El.
    - destruct (is_statement_outcome code a') as [[b Hb] | (Hr & Hp & Hm)].
      + rewrite Hb. cbn [mbind res_bind]. destruct b.
        * exists k. split; [exact Hk|]. split; [exact Hbefore|].
          repeat split; assumption.
        * apply Hcont; [reflexivity|exact Hb].
      + rewrite Hr. cbn [mbind res_bind].
        exists k. split; [exact Hk|]. split; [exact Hbefore|].
        split; [reflexivity|]. exists a'. repeat split; assumption.
    - exists k. split; [exact Hk|]. split; [exact Hbefore|].
      right. exists a'. split; assumption. }
  induction fuel as [|fuel IH]; intros k a Hk Ha Hm Hbefore.
  - destruct a as [a'|]; [|apply (Hnone _ k); assumption].
    apply (Hstep _ k); try assumption. intros _ _.
    destruct (Code_getitem_index _ _ _ Ha) as [Hi Hr]. specialize (Hm Hr).
    exfalso. cbn in Hm. lia.
  - destruct a as [a'|]; [|apply (Hnone _ k); assumption].
    apply (Hstep _ k); try assumption. intros Hlt Hst.
    destruct (Code_getitem_index _ _ _ Ha) as [Hi Hr]. specialize (Hm Hr).
    unfold Address_getitem. rewrite Hi.
    destruct (Code_getitem_never_raises code (base + k + 1)) as [next Hnext].
    rewrite Hnext. cbn [mbind res_bind].
    replace (base + k + 1) with (base + (k + 1)) in Hnext by lia.
    apply (IH (k + 1) next); [lia|exact Hnext|lia|].
    intros j Hj. destruct (decide (j = k)) as [->|Hne].
    + exists a'. repeat split; assumption.
    + apply Hbefore. lia.
Qed.

(** From an instruction of the code, [seek_stmt] returns the first
    instruction from there on that is a statement, if it comes before
    [end] (any, where [end] is [None]); it returns [None] where [end]
    or the end of the sequence comes first.  It raises only the
    [KeyError] of a conditional branch on the way whose target is no
    address of an instruction. *)
Theorem seek_stmt_finds_first_statement (code : Code) (self : Address)
        (end_ : option Address)
        (Hself : Code_getitem code (index self) = Ok (Some self)) :
  first_statement code end_ (index self) (seek_stmt code self end_).
Proof.
  unfold seek_stmt.
  apply (seek_stmt_loop_first code end_ (index self) _ 0 (Some self)).
  - lia.
  - rewrite Z.add_0_r. exact Hself.
  - intros Hr. unfold Code_len in *. lia.
  - intros j Hj. lia.
Qed.

(** In the code object of [if a < b < c: x] the first statement from
    the start is the [POP_TOP] at index 13 that ends the expression
    statement [x]: the [POP_TOP] at index 10 follows a [JUMP_FORWARD]
    and the jumps at indices 9 and 11 start no line. *)
Lemma seek_stmt_finds_first_statement_witness :
  Code_getitem if_chain_Code 0 = Ok (Some (mkAddress 0 0 LOAD_NAME 0))
  /\ seek_stmt if_chain_Code (mkAddress 0 0 LOAD_NAME 0) None
     = Ok (Some (mkAddress 13 26 POP_TOP 0))
  /\ first_statement if_chain_Code None 0
       (seek_stmt if_chain_Code (mkAddress 0 0 LOAD_NAME 0) None).
Proof.
  split; [vm_compute; reflexivity|]. split; [vm_compute; reflexivity|].
  apply (seek_stmt_finds_first_statement if_chain_Code (mkAddress 0 0 LOAD_NAME 0) None).
  vm_compute. reflexivity.
Defined.

(** ** What [proc_chained] does to the code object *)

Lemma only_appended_refl (code : Code) : only_appended code code.
Proof.
  exists [], [], [], []. rewrite !app_nil_r. destruct code. reflexivity.
Qed.

Lemma only_appended_trans (c1 c2 c3 : Code) :
  only_appended c1 c2 -> only_appended c2 c3 -> only_appended c1 c3.
Proof.
  intros (s & i & e & t & ->) (s' & i' & e' & t' & ->).
  exists (s ++ s'), (i ++ i'), (e ++ e'), (t ++ t').
  unfold set_chained_jumps. cbn. rewrite !app_assoc. reflexivity.
Qed.

Lemma only_appended_start (code : Code) (a : Address) :
  only_appended code (append_start code a).
Proof. exists [a], [], [], []. rewrite !app_nil_r. reflexivity. Qed.

Lemma only_appended_inner (code : Code) (a : Address) :
  only_appended code (append_inner code a).
Proof. exists [], [a], [], []. rewrite !app_nil_r. reflexivity. Qed.

Lemma only_appended_end (code : Code) (a : Address) :
  only_appended code (append_end code a).
Proof. exists [], [], [a], []. rewrite !app_nil_r. reflexivity. Qed.

Lemma only_appended_ternary (code : Code) (a : Address) :
  only_appended code (append_ternary code a).
Proof. exists [], [], [], [a]. rewrite !app_nil_r. reflexivity. Qed.

Lemma only_appended_getitem (code code' : Code) :
  only_appended code code' -> Code_getitem code' = Code_getitem code.
Proof. intros (s & i & e & t & ->). reflexivity. Qed.

Lemma only_appended_len (code code' : Code) :
  only_appended code code' -> Code_len code' = Code_len code.
Proof. intros (s & i & e & t & ->). reflexivity. Qed.

Lemma after_comparison_triplet_outcome (code : Code) (a : Address) :
  (exists b, after_comparison_triplet code a = Ok b)
  \/ after_comparison_triplet code a = Raise AttributeError.
Proof.
  unfold after_comparison_triplet, Address_getitem.
  destruct (Code_getitem_never_raises code (index a + -3)) as [p3 ->].
  cbn [mbind res_bind]. destruct p3 as [p3|]; [|left; eexists; reflexivity].
  destruct (Code_getitem_never_raises code (index a + -1)) as [p1 ->].
  cbn [mbind res_bind]. destruct p1 as [p1|]; [|right; reflexivity].
  cbn [attr mbind res_bind]. destruct (opcode p1 =? COMPARE_OP); [|left; eexists; reflexivity].
  destruct (Code_getitem_never_raises code (index a + -2)) as [p2 ->].
  cbn [mbind res_bind]. destruct p2 as [p2|]; [|right; reflexivity].
  cbn [attr mbind res_bind]. destruct (opcode p2 =? ROT_THREE); left; eexists; reflexivity.
Qed.

Lemma jump_outcome (code : Code) (a : Address) :
  (exists j, jump code a = Ok j)
  \/ jump code a = Raise TypeError \/ jump code a = Raise KeyError.
Proof.
  assert (Hadr : forall ad, (exists j, Code_address code ad = Ok j)
                            \/ Code_address code ad = Raise KeyError).
  { intros ad. unfold Code_address. destruct (instr_map code !! ad) as [i|].
    - left. apply Code_getitem_never_raises.
    - right. reflexivity. }
  unfold jump. destruct (opcode_in (opcode a) hasjrel).
  - unfold Address_getitem.
    destruct (Code_getitem_never_raises code (index a + 1)) as [n ->].
    cbn [mbind res_bind]. destruct n as [n|]; [|right; left; reflexivity].
    unfold Address_add. destruct (Hadr (addr n + arg a)) as [H|H]; [left; exact H|].
    right. right. exact H.
  - destruct (opcode_in (opcode a) hasjabs).
    + destruct (Hadr (arg a)) as [H|H]; [left; exact H|]. right. right. exact H.
    + left. eexists. reflexivity.
Qed.

Lemma scan_result_carry (code code1 : Code) (c : Address) (next : option Address)
      (r : res (Code * Address)) :
  only_appended code code1 ->
  (forall n, next = Some n -> index c <= index n) ->
  scan_result code1 next r ->
  scan_result code (Some c) r.
Proof.
  intros Happ Hnext Hr. destruct r as [[code' a']|e| |]; cbn in *; try assumption.
  destruct Hr as (H1 & H2 & H3 & H4 & (n & -> & Hn)).
  split; [exact (only_appended_trans _ _ _ Happ H1)|].
  split; [exact H2|]. split; [exact H3|].
  split; [rewrite <- (only_appended_getitem _ _ Happ); exact H4|].
  exists c. split; [reflexivity|]. specialize (Hnext n eq_refl). lia.
Qed.

Lemma proc_chained_results (fuel : nat) :
  (forall code a,
     2 * Z.max 0 (Code_len code - Z.max 0 (index a + 1)) + 2 <= Z.of_nat fuel ->
     proc_result code a (proc_chained fuel code a))
  /\ (forall code a cur,
        match cur with
        | None => 1 <= Z.of_nat fuel
        | Some c => Code_getitem code (index c) = Ok (Some c)
                    /\ 2 * (Code_len code - index c) + 1 <= Z.of_nat fuel
        end ->
        scan_result code cur (proc_chained_scan fuel code a cur)).
Proof.
  induction fuel as [|fuel [IHproc IHscan]].
  { split.
    - intros code a H. exfalso. lia.
    - intros code a [c|] H; [|exfalso; lia].
      destruct H as [Hc Hb]. destruct (Code_getitem_index _ _ _ Hc) as [_ Hr].
      exfalso. lia. }
  assert (Hnext : forall code code1 a c (i : Z),
            only_appended code code1 ->
            Code_getitem code (index c) = Ok (Some c) ->
            index c <= i < Code_len code ->
            2 * (Code_len code - i) <= Z.of_nat fuel ->
            scan_result code (Some c)
              (next ← Code_getitem code1 (i + 1);
               proc_chained_scan fuel code1 a next)).
  { intros code code1 a c i Happ Hc Hi Hb.
    destruct (Code_getitem_index _ _ _ Hc) as [_ Hr].
    destruct (Code_getitem_never_raises code1 (i + 1)) as [next Hn].
    rewrite Hn. cbn [mbind res_bind].
    apply (scan_result_carry code code1 c next); [exact Happ| |].
    - intros n ->. destruct (Code_getitem_index _ _ _ Hn) as [-> _]. lia.
    - apply IHscan. destruct next as [n|]; [|lia].
      destruct (Code_getitem_index _ _ _ Hn) as [Hin Hrn].
      rewrite Hin. split; [exact Hn|].
      rewrite (only_appended_len _ _ Happ) in *. lia. }
  split.
  - intros code a Hb. cbn [proc_chained].
    destruct (after_comparison_triplet_outcome code a) as [[b Hb'] | Hr].
    + rewrite Hb'. cbn [mbind res_bind]. destruct b.
      * destruct (jump_outcome (append_start code a) a) as [[j Hj] | [Hj | Hj]];
          rewrite Hj; cbn [mbind res_bind];
          [|right; left; reflexivity|right; right; reflexivity].
        unfold Address_getitem.
        destruct (Code_getitem_never_raises (append_start code a) (index a + 1))
          as [cur Hcur].
        rewrite Hcur. cbn [mbind res_bind].
        assert (Hs : scan_result (append_start code a) cur
                       (proc_chained_scan fuel (append_start code a) a cur)).
        { apply IHscan. destruct cur as [c|]; [|lia].
          destruct (Code_getitem_index _ _ _ Hcur) as [Hin Hrn].
          rewrite Hin. split; [exact Hcur|].
          change (Code_len (append_start code a)) with (Code_len code) in *. lia. }
        destruct (proc_chained_scan fuel (append_start code a) a cur)
          as [[code' a']|e| |];
          lazy beta iota delta [scan_result proc_result] in Hs |- *; try assumption.
        destruct Hs as (H1 & H2 & H3 & H4 & (c & -> & Hc)).
        right. split; [exact Hb'|].
        destruct (Code_getitem_index _ _ _ Hcur) as [Hin _].
        split; [exact (only_appended_trans _ _ _ (only_appended_start code a) H1)|].
        split.
        { destruct H1 as (s & i & e & t & ->). exists s. cbn.
          rewrite <- app_assoc. reflexivity. }
        split; [exact H2|]. split; [exact H3|]. split; [lia|exact H4].
      * left. split; [exact Hb'|]. split; reflexivity.
    + rewrite Hr. left. reflexivity.
  - intros code a [c|] Hb; cbn [proc_chained_scan attr mbind res_bind];
      [|left; reflexivity].
    destruct Hb as [Hc Hb]. destruct (Code_getitem_index _ _ _ Hc) as [_ Hr].
    destruct (opcode_in (opcode c) pop_jump_if_opcodes) eqn:Ep.
    + unfold Address_getitem.
      destruct (Code_getitem_never_raises code (index c + -3)) as [p3 ->].
      cbn [mbind res_bind]. destruct p3 as [p3|]; [|left; reflexivity].
      cbn [attr mbind res_bind].
      assert (Ht : exists t : res bool,
                 (if opcode p3 =? DUP_TOP
                  then p2 ← Code_getitem code (index c + -2); p2 ← attr p2;
                       Ok (opcode p2 =? ROT_THREE)
                  else Ok false) = t
                 /\ ((exists b, t = Ok b) \/ t = Raise AttributeError)).
      { eexists. split; [reflexivity|].
        destruct (opcode p3 =? DUP_TOP); [|left; eexists; reflexivity].
        unfold Address_getitem.
        destruct (Code_getitem_never_raises code (index c + -2)) as [p2 ->].
        cbn [mbind res_bind]. destruct p2 as [p2|]; [|right; reflexivity].
        left. eexists. reflexivity. }
      destruct Ht as (t & -> & [[b ->] | ->]); cbn [mbind res_bind];
        [|left; reflexivity].
      destruct b.
      * unfold Address_getitem. destruct (arg c =? arg a).
        -- change (Code_getitem code (index c + 1))
             with (Code_getitem (append_inner code c) (index c + 1)).
           apply Hnext; [apply only_appended_inner|exact Hc|lia|lia].
        -- apply Hnext; [apply only_appended_refl|exact Hc|lia|lia].
      * unfold Address_getitem.
        destruct (Code_getitem_never_raises code (index c + 2)) as [c2 ->].
        cbn [mbind res_bind].
        destruct (jump_outcome code a) as [[j Hj] | [Hj | Hj]];
          rewrite Hj; cbn [mbind res_bind];
          [|right; left; reflexivity|right; right; reflexivity].
        destruct (py_eq c2 j).
        -- lazy beta iota delta [scan_result].
           split; [apply only_appended_end|].
           split; [exists (end_chained_jumps code); reflexivity|].
           split; [exact Ep|]. split; [exact Hc|].
           exists c. split; [reflexivity|lia].
        -- assert (Hp : proc_result code c (proc_chained fuel code c))
             by (apply IHproc; lia).
           destruct (proc_chained fuel code c) as [[code2 cur2]|e| |];
             lazy beta iota delta [scan_result proc_result] in Hp |- *;
             cbn [mbind res_bind]; try assumption.
           assert (H2 : only_appended code code2 /\ index c <= index cur2
                        /\ Code_getitem code (index cur2) = Ok (Some cur2)).
           { destruct Hp as [(_ & -> & ->) | (_ & Hf)].
             - split; [apply only_appended_refl|]. split; [lia|exact Hc].
             - destruct Hf as (H1 & _ & _ & _ & Hlt & Hv).
               split; [exact H1|]. split; [lia|exact Hv]. }
           destruct H2 as (Happ & Hle & Hv).
           destruct (jump_outcome code2 cur2) as [[j2 Hj2] | [Hj2 | Hj2]];
             rewrite Hj2; cbn [mbind res_bind];
             [|right; left; reflexivity|right; right; reflexivity].
           destruct j2 as [j2|]; cbn [subscriptable mbind res_bind];
             [|right; left; reflexivity].
           unfold Address_getitem.
           destruct (Code_getitem_never_raises code2 (index j2 + -1)) as [p ->].
           cbn [mbind res_bind]. destruct p as [p|]; [|left; reflexivity].
           cbn [attr mbind res_bind]. unfold Address_getitem.
           destruct (Code_getitem_index _ _ _ Hv) as [_ Hrv].
           destruct (opcode p =? JUMP_FORWARD).
           ++ change (Code_getitem (append_ternary code2 cur2))
                with (Code_getitem code2).
              replace (Code_getitem code2 (index cur2 + 1))
                with (Code_getitem (append_ternary code2 cur2) (index cur2 + 1))
                by reflexivity.
              apply Hnext;
                [exact (only_appended_trans _ _ _ Happ (only_appended_ternary _ _))
                |exact Hc|lia|lia].
           ++ apply Hnext; [exact Happ|exact Hc|lia|lia].
    + unfold Address_getitem.
      apply Hnext; [apply only_appended_refl|exact Hc|lia|lia].
Qed.

(** [proc_chained] always comes to an end, although its loop is a
    [while True]: it returns, or raises [AttributeError], [TypeError]
    or [KeyError] on bytecode that breaks off, within two turns for
    each instruction.  On a branch that does not follow a [DUP_TOP],
    [ROT_THREE], [COMPARE_OP] triplet it returns the branch and leaves
    the code object as it is.  Otherwise what it returns is a later
    conditional branch that it has put last on the list of chain ends,
    it has put the branch it was called on on the list of chain
    starts, and it has changed the code object only by appending to
    the four lists of chained and ternary branches. *)
Theorem proc_chained_outcome (fuel : nat) (code : Code) (a : Address)
        (Hfuel : (2 * length (instr_seq code) + 2 <= fuel)%nat) :
  match proc_chained fuel code a with
  | Ok (code', a') =>
      (after_comparison_triplet code a = Ok false /\ code' = code /\ a' = a)
      \/ (after_comparison_triplet code a = Ok true /\ chain_found code a code' a')
  | Raise e => analysis_error e
  | NotEmbedded _ | OutOfFuel => False
  end.
Proof.
  apply (proj1 (proc_chained_results fuel) code a).
  unfold Code_len. lia.
Qed.

(** In the code object of [if a < b < c: x], called on the branch at
    index 5, [proc_chained] puts it on the list of starts and returns
    the branch at index 8, put on the list of ends. *)
Lemma proc_chained_outcome_witness :
  (2 * length (instr_seq if_chain_Code) + 2 <= 34)%nat
  /\ proc_chained 34 if_chain_Code (mkAddress 5 10 POP_JUMP_IF_FALSE 20)
     = Ok (append_end (append_start if_chain_Code (mkAddress 5 10 POP_JUMP_IF_FALSE 20))
                      (mkAddress 8 16 POP_JUMP_IF_FALSE 28),
           mkAddress 8 16 POP_JUMP_IF_FALSE 28)
  /\ chain_found if_chain_Code (mkAddress 5 10 POP_JUMP_IF_FALSE 20)
       (append_end (append_start if_chain_Code (mkAddress 5 10 POP_JUMP_IF_FALSE 20))
                   (mkAddress 8 16 POP_JUMP_IF_FALSE 28))
       (mkAddress 8 16 POP_JUMP_IF_FALSE 28).
Proof.
  assert (Hfuel : (2 * length (instr_seq if_chain_Code) + 2 <= 34)%nat)
    by (vm_compute; lia).
  assert (Hrun : proc_chained 34 if_chain_Code (mkAddress 5 10 POP_JUMP_IF_FALSE 20)
                 = Ok (append_end
                         (append_start if_chain_Code (mkAddress 5 10 POP_JUMP_IF_FALSE 20))
                         (mkAddress 8 16 POP_JUMP_IF_FALSE 28),
                       mkAddress 8 16 POP_JUMP_IF_FALSE 28))
    by (vm_compute; reflexivity).
  split; [exact Hfuel|]. split; [exact Hrun|].
  pose proof (proc_chained_outcome 34 if_chain_Code
                (mkAddress 5 10 POP_JUMP_IF_FALSE 20) Hfuel) as H.
  rewrite Hrun in H. destruct H as [(Hf & _) | (_ & Hc)]; [|exact Hc].
  vm_compute in Hf. discriminate Hf.
Defined.

(** ** Iteration over a code object *)

Lemma mapM_res_total {A B : Type} (f : A -> res B) (l : list A) :
  Forall (fun x => exists y, f x = Ok y) l -> exists ys, mapM f l = Ok ys.
Proof.
  induction 1 as [|x l [y Hy] _ [ys Hys]].
  - exists []. reflexivity.
  - exists (y :: ys). cbn. rewrite Hy. cbn. rewrite Hys. reflexivity.
Qed.

(** Iterating over a code object never raises and yields the
    addresses of its instructions in order: as many as there are
    decoded instructions, the one at position [i] being [code[i]], with
    index [i]; reading address, opcode and operand off the addresses
    gives the decoded sequence back. *)
Theorem Code_iter_enumerates (code : Code) :
  exists addrs,
    Code_iter code = Ok addrs
    /\ length addrs = length (instr_seq code)
    /\ (forall (i : nat) a,
          addrs !! i = Some a <-> Code_getitem code (Z.of_nat i) = Ok (Some a))
    /\ (forall (i : nat) a, addrs !! i = Some a -> index a = Z.of_nat i)
    /\ map (fun a => (addr a, (opcode a, arg a))) addrs = instr_seq code.
Proof.
  destruct (mapM_res_total (fun i : nat => Address_init code (Z.of_nat i))
              (seq 0 (length (instr_seq code)))) as [addrs Hiter].
  { apply Forall_forall. intros i Hi. apply elem_of_seq in Hi.
    destruct (Address_init_in_range code (Z.of_nat i)) as (ad & op & ar & E & _).
    - unfold Code_len. lia.
    - eexists. exact E. }
  exists addrs. split; [exact Hiter|].
  destruct (Code_iter_lookup code addrs Hiter) as [Hlen Hall].
  assert (Hget : forall (i : nat) a,
            addrs !! i = Some a -> Code_getitem code (Z.of_nat i) = Ok (Some a)).
  { intros i a Ha. pose proof (lookup_lt_Some _ _ _ Ha) as Hlt.
    unfold Code_getitem, Code_len.
    destruct (0 <=? Z.of_nat i) eqn:E1; [|zlia].
    destruct (Z.of_nat i <? Z.of_nat (length (instr_seq code))) eqn:E2; [|zlia].
    cbn [andb]. rewrite (Hall i a Ha). reflexivity. }
  split; [exact Hlen|]. split; [|split].
  - intros i a. split; [apply Hget|].
    intros Hg. destruct (Code_getitem_Some _ _ _ Hg) as [Hinit Hr].
    destruct (lookup_lt_is_Some_2 addrs i) as [a' Ha'].
    { unfold Code_len in Hr. lia. }
    rewrite Ha'. f_equal. specialize (Hall i a' Ha'). congruence.
  - intros i a Ha. apply (Address_init_index code). apply Hall. exact Ha.
  - apply list_eq. intros i.
    change (map (fun a => (addr a, (opcode a, arg a))) addrs)
      with ((fun a => (addr a, (opcode a, arg a))) <$> addrs).
    rewrite list_lookup_fmap.
    destruct (addrs !! i) as [a|] eqn:Ha.
    + cbn. pose proof (lookup_lt_Some _ _ _ Ha) as Hlt.
      destruct (Address_init_in_range code (Z.of_nat i)) as (ad & op & ar & E & El).
      { unfold Code_len. lia. }
      rewrite (Hall i a Ha) in E. inversion E; subst a. cbn.
      rewrite Nat2Z.id in El. symmetry. exact El.
    + cbn. symmetry. apply lookup_ge_None. apply lookup_ge_None in Ha.
      rewrite Hlen in Ha. exact Ha.
Qed.
